(** * Bundled ray handlers of the MoonRay path tracer

    A shallow embedding of
    [lib/rendering/pbr/handlers/RayHandlers.cc] and
    [lib/rendering/pbr/handlers/XPURayHandlers.cc]:
    the occlusion, presence-shadow and GPU occlusion resolvers, and the
    material-sorting ray bundle handler with its miss handler.

    Conventions of the embedding.
    - C++ [float] arithmetic is kept abstract: the handlers are
      parameterised by a type [F] with the operations the code uses
      (class [FloatOps]); no algebraic law is assumed, so every theorem
      holds for IEEE-754 binary32 as well as for exact arithmetic.
    - Calls into collaborators that live outside the two files (the
      accelerators, the integrator, the AOV system, the list and handle
      stores of the thread local state) are either oracles gathered in the
      record [Collab] or, when they have an effect on the outside world,
      entries of an event log ([Event]).
    - Arrays carved out of the arena are lists with explicit bounds:
      a store outside the allocation makes the handler return [None].
    - [MNRY_ASSERT] and [MNRY_VERIFY] on modelled values are checked: a
      failed one makes the handler return [None].  (The checks of
      [isValid], of the primitive pointer and of the shade queue pointer
      are about values that are not modelled.) *)

From Stdlib Require Import ZArith QArith Qabs Bool Lia.
From Stdlib Require Import Sorting.Sorted.
From stdpp Require Import base option list sorting.

Set Default Proof Using "Type".
Local Open Scope nat_scope.

(** ** Numbers *)

(** The operations on [float] that the handlers perform. *)
Class FloatOps (F : Type) := {
  fzero : F;                       (* 0.f *)
  fone : F;                        (* 1.f *)
  fadd : F -> F -> F;
  fsub : F -> F -> F;
  fmul : F -> F -> F;
  feqb : F -> F -> bool;           (* operator== *)
  fltb : F -> F -> bool;           (* operator<  *)
  fofint : Z -> F;                 (* int to float conversion *)
  sMaxValue : F                    (* scene_rdl2::math::sMaxValue *)
}.

Section DataModel.
Context {F : Type} {FO : FloatOps F}.

(** scene_rdl2::math::Color *)
Record Color := mkColor { cr : F; cg : F; cb : F }.

(** scene_rdl2::math::Vec3f *)
Record Vec3f := mkVec3 { vx : F; vy : F; vz : F }.

(** RenderColor: rgb plus alpha. *)
Record RenderColor := mkRenderColor { rr : F; rg : F; rb : F; ra : F }.

Definition sBlack : Color := mkColor fzero fzero fzero.
Definition sWhite : Color := mkColor fone fone fone.

(* Color * Color *)
Definition cmul (a b : Color) : Color :=
  mkColor (fmul (cr a) (cr b)) (fmul (cg a) (cg b)) (fmul (cb a) (cb b)).

(* Color + Color *)
Definition cadd (a b : Color) : Color :=
  mkColor (fadd (cr a) (cr b)) (fadd (cg a) (cg b)) (fadd (cb a) (cb b)).

(* float * Color *)
Definition cscale (k : F) (a : Color) : Color :=
  mkColor (fmul k (cr a)) (fmul k (cg a)) (fmul k (cb a)).

(* Color * float *)
Definition cscale_r (a : Color) (k : F) : Color :=
  mkColor (fmul (cr a) k) (fmul (cg a) k) (fmul (cb a) k).

(** ** Occlusion rays *)

Inductive OcclTestType := STANDARD | FORCE_NOT_OCCLUDED.

(** Handles into the per-thread list / deep / cryptomatte stores. *)
Inductive Handle := nullHandle | handle (n : nat).

(** The part of [Light] the handlers read. *)
Record Light := mkLight {
  lightId : nat;                          (* getRdlLight() *)
  getClearRadius : F;
  getClearRadiusFalloffDistance : F;
  getIsOpaqueInAlpha : bool
}.

(** First item of the side-data list of an occlusion ray. *)
Record BundledOcclRayData := mkOcclData {
  mLight : Light;
  mRayEpsilon : F
}.

Record BundledOcclRay := mkOcclRay {
  mOrigin : Vec3f;
  mDir : Vec3f;
  mMinT : F;
  mMaxT : F;
  mTime : F;
  mDepth : Z;
  mRadiance : Color;
  mPixel : nat;
  mSubpixelIndex : Z;
  mOcclTestType : OcclTestType;
  mShadowReceiverId : Z;
  mDataPtrHandle : Handle;
  mDeepDataHandle : Handle;
  mCryptomatteDataHandle : Handle
}.

(* occlRay.mRadiance = c *)
Definition setRadiance (occlRay : BundledOcclRay) (c : Color) : BundledOcclRay :=
  mkOcclRay (mOrigin occlRay) (mDir occlRay) (mMinT occlRay) (mMaxT occlRay)
    (mTime occlRay) (mDepth occlRay) c (mPixel occlRay) (mSubpixelIndex occlRay)
    (mOcclTestType occlRay) (mShadowReceiverId occlRay) (mDataPtrHandle occlRay)
    (mDeepDataHandle occlRay) (mCryptomatteDataHandle occlRay).

(** The [mcrt_common::Ray] handed to the CPU accelerator for an occlusion
    test, as [areSingleRaysOccluded] fills it in. *)
Record RtRay := mkRtRay {
  rt_org : Vec3f;
  rt_dir : Vec3f;
  rt_tnear : F;
  rt_tfar : F;
  rt_time : F;
  rt_instance0OrLight : nat;
  rt_shadowReceiverId : Z;
  rt_volumeInstanceState : Z
}.

(** The [mcrt_common::Ray] built by the presence resolver. *)
Record ShadowRay := mkShadowRay {
  sh_org : Vec3f;
  sh_dir : Vec3f;
  sh_tnear : F;
  sh_tfar : F;
  sh_time : F;
  sh_depth : Z
}.

Record BundledRadiance := mkBundledRadiance {
  brRadiance : RenderColor;
  brPathPixelWeight : F;
  brPixel : nat;
  brSubPixelIndex : Z;
  brDeepDataHandle : Handle;
  brCryptomatteDataHandle : Handle
}.

(* result->mRadiance[0..2] *= k *)
Definition scaleRadianceRGB (res : BundledRadiance) (k : F) : BundledRadiance :=
  mkBundledRadiance
    (mkRenderColor (fmul (rr (brRadiance res)) k) (fmul (rg (brRadiance res)) k)
                   (fmul (rb (brRadiance res)) k) (ra (brRadiance res)))
    (brPathPixelWeight res) (brPixel res) (brSubPixelIndex res)
    (brDeepDataHandle res) (brCryptomatteDataHandle res).

Inductive LpePrefix := sLpePrefixNone | sLpePrefixUnoccluded.

(** Effects of the occlusion resolvers on the world outside, in program
    order.  (The statistics counters are left out.) *)
Inductive Event :=
| EvOccluded (rtRay : RtRay)                       (* EmbreeAccelerator::occluded *)
| EvGpuOccluded (numRays : nat)                    (* GPUAccelerator::occluded *)
| EvThreadsUsingGPU (delta : Z)                    (* threadsUsingGPU++ / -- *)
| EvAccumLightAovs (occlRay : BundledOcclRay) (numItems : Z)
    (matchMultiplier : Color) (nonMatchMultiplier : option Color) (flags : LpePrefix)
| EvAccumVisibilityAovs (occlRay : BundledOcclRay) (numItems : Z) (value : F)
| EvAccumVisibilityAovsOccluded (occlRay : BundledOcclRay) (numItems : Z)
| EvFreeList (h : Handle)
| EvReleaseDeepData (h : Handle)
| EvReleaseCryptomatteData (h : Handle)
| EvAddRadianceQueueEntries (entries : list BundledRadiance).

(** Oracles for the collaborators of the occlusion resolvers.
    [getListItem h i] is the item the list store hands back for a handle;
    the source dereferences it without a check, so it is total here. *)
Record Collab := mkCollab {
  accelOccluded : RtRay -> bool;
  (* contents of GPUAccelerator::getOutputOcclusionBuf after the batch call *)
  gpuOcclusionBuf : list BundledOcclRay -> nat -> bool;
  getTransmittance : BundledOcclRay -> Color;
  fillBundledRadiance : BundledOcclRay -> BundledRadiance;
  getListItem : Handle -> nat -> BundledOcclRayData;
  getNumListItems : Handle -> Z;
  calculateShadowFalloff : Light -> F -> Color -> Color;
  accumulateRayPresence : Light -> ShadowRay -> F -> Z -> F -> F;
  isEqual : F -> F -> bool;
  reduceTransparency : Color -> F
}.

(** The fields of [FrameState] read by the occlusion resolvers. *)
Record FrameState := mkFrameState {
  getEnableShadowing : bool;
  hasLpePrefixUnoccluded : bool;
  mMaxPresenceDepth : Z
}.

(** The memory a resolver writes: the [results] array of the caller and
    the log of outside calls. *)
Record Machine := mkMachine {
  mResults : list (option BundledRadiance);
  mLog : list Event
}.

Definition logEv (e : Event) (m : Machine) : Machine :=
  mkMachine (mResults m) (mLog m ++ [e]).

(* results[idx] = r; a store past the allocation is a fault. *)
Definition storeResult (idx : nat) (r : BundledRadiance) (m : Machine) : option Machine :=
  if decide (idx < length (mResults m))
  then Some (mkMachine (<[idx := Some r]> (mResults m)) (mLog m))
  else None.

(* for (unsigned i = 0; i < numEntries; ++i) body(i, entries[i]) *)
Fixpoint forEach {St A : Type} (body : nat -> A -> St -> option St)
    (i : nat) (xs : list A) (s : St) : option St :=
  match xs with
  | [] => Some s
  | x :: xs' =>
      match body i x s with
      | Some s' => forEach body (S i) xs' s'
      | None => None
      end
  end.

Global Instance Handle_eq_dec : EqDecision Handle.
Proof. solve_decision. Defined.

Global Instance OcclTestType_eq_dec : EqDecision OcclTestType.
Proof. solve_decision. Defined.

(** ** std::partition

    [computeOcclusionQueriesBundled] reorders its entries with
    [std::partition] from the C++ standard library.  The definition below
    is the algorithm the library runs for bidirectional iterators (the
    case of a pointer range) in libstdc++ and libc++: two cursors moving
    towards each other, exchanging a failing element found from the left
    with a passing element found from the right. *)
Section StdPartition.
Context {A : Type} (pred : A -> bool).

(* while (first != last && pred( *first)) ++first;    n is last - first *)
Fixpoint advanceFirst (a : list A) (first n : nat) : nat :=
  match n with
  | 0 => first
  | S n' =>
      match a !! first with
      | Some x => if pred x then advanceFirst a (S first) n' else first
      | None => first
      end
  end.

(* with last already decremented and d = last - first:
   while (first != last && !pred( *last)) --last; *)
Fixpoint retreatLast (a : list A) (first d : nat) : nat :=
  match d with
  | 0 => first
  | S d' =>
      match a !! (first + d) with
      | Some x => if pred x then first + d else retreatLast a first d'
      | None => first + d
      end
  end.

(* std::iter_swap(first, last) *)
Definition iter_swap (a : list A) (i j : nat) : list A :=
  match a !! i, a !! j with
  | Some x, Some y => <[i := y]> (<[j := x]> a)
  | _, _ => a
  end.

Fixpoint partitionLoop (fuel : nat) (a : list A) (first last : nat) : list A * nat :=
  match fuel with
  | 0 => (a, first)
  | S fuel' =>
      let first := advanceFirst a first (last - first) in
      if decide (first = last) then (a, first) else
      let last := retreatLast a first (last - 1 - first) in
      if decide (first = last) then (a, first) else
      partitionLoop fuel' (iter_swap a first last) (S first) last
  end.

(** Returns the reordered range and the index of the first element of the
    second group. *)
Definition std_partition (a : list A) : list A * nat :=
  partitionLoop (length a) a 0 (length a).

End StdPartition.

(** ** The occlusion resolvers *)
Section Resolvers.
Variable W : Collab.
Variable fs : FrameState.

Definition disableShadowing : bool := negb (getEnableShadowing fs).

Definition mkOcclusionRtRay (occlRay : BundledOcclRay) : RtRay :=
  mkRtRay (mOrigin occlRay) (mDir occlRay) (mMinT occlRay) (mMaxT occlRay)
    (mTime occlRay)
    (lightId (mLight (getListItem W (mDataPtrHandle occlRay) 0)))
    (mShadowReceiverId occlRay) 0.

(** The branch for a ray that is not occluded, or when shadowing is
    disabled; [idx] is the slot [&results[numRadiancesFilled]].  The text
    is the same in the CPU and in the GPU resolver. *)
Definition unoccludedBranch (idx : nat) (occlRay : BundledOcclRay)
    (numRadiancesFilled : nat) (m : Machine) : option (nat * Machine) :=
  let tr := getTransmittance W occlRay in
  let occlRay := setRadiance occlRay (cmul (mRadiance occlRay) tr) in
  match storeResult idx (fillBundledRadiance W occlRay) m with
  | None => None
  | Some m =>
      let numRadiancesFilled := S numRadiancesFilled in
      if decide (mDataPtrHandle occlRay <> nullHandle) then
        let numItems := getNumListItems W (mDataPtrHandle occlRay) in
        let m := logEv (EvAccumLightAovs occlRay numItems sWhite (Some tr)
                          sLpePrefixUnoccluded) m in
        let m := logEv (EvAccumVisibilityAovs occlRay numItems
                          (reduceTransparency W tr)) m in
        Some (numRadiancesFilled, m)
      else Some (numRadiancesFilled, m)
  end.

(* light->getClearRadiusFalloffDistance() != 0.f &&
   occlRay.mMaxT < light->getClearRadius() + light->getClearRadiusFalloffDistance() *)
Definition insideClearRadiusFalloff (light : Light) (occlRay : BundledOcclRay) : bool :=
  negb (feqb (getClearRadiusFalloffDistance light) fzero) &&
  fltb (mMaxT occlRay)
       (fadd (getClearRadius light) (getClearRadiusFalloffDistance light)).

(** The branch for an occluded ray (shadowing enabled); again the same
    text in both resolvers. *)
Definition occludedBranch (idx : nat) (occlRay : BundledOcclRay)
    (numRadiancesFilled : nat) (m : Machine) : option (nat * Machine) :=
  if decide (mDataPtrHandle occlRay <> nullHandle) then
    let light := mLight (getListItem W (mDataPtrHandle occlRay) 0) in
    let filled :=
      if insideClearRadiusFalloff light occlRay then
        let tr := getTransmittance W occlRay in
        let occlRay' := setRadiance occlRay
          (calculateShadowFalloff W light (mMaxT occlRay) (cmul tr (mRadiance occlRay))) in
        match storeResult idx (fillBundledRadiance W occlRay') m with
        | None => None
        | Some m => Some (occlRay', S numRadiancesFilled, m)
        end
      else Some (occlRay, numRadiancesFilled, m) in
    match filled with
    | None => None
    | Some (occlRay, numRadiancesFilled, m) =>
        let numItems := getNumListItems W (mDataPtrHandle occlRay) in
        let m := logEv (EvAccumVisibilityAovsOccluded occlRay numItems) m in
        let m := if hasLpePrefixUnoccluded fs
                 then logEv (EvAccumLightAovs occlRay numItems sWhite None
                               sLpePrefixUnoccluded) m
                 else m in
        Some (numRadiancesFilled, m)
    end
  else Some (numRadiancesFilled, m).

(** The branch for a [FORCE_NOT_OCCLUDED] ray: the body of
    [forceSingleRaysUnoccluded], repeated in the GPU resolver. *)
Definition forcedBranch (idx : nat) (occlRay : BundledOcclRay) (m : Machine) : option Machine :=
  let tr := getTransmittance W occlRay in
  let occlRay := setRadiance occlRay (cmul (mRadiance occlRay) tr) in
  match storeResult idx (fillBundledRadiance W occlRay) m with
  | None => None
  | Some m =>
      if decide (mDataPtrHandle occlRay <> nullHandle) then
        let numItems := getNumListItems W (mDataPtrHandle occlRay) in
        Some (logEv (EvAccumLightAovs occlRay numItems tr None sLpePrefixNone) m)
      else Some m
  end.

(* if (h != nullHandle) pbrTls->freeList(h); *)
Definition freeListIfSet (occlRay : BundledOcclRay) (m : Machine) : Machine :=
  if decide (mDataPtrHandle occlRay <> nullHandle)
  then logEv (EvFreeList (mDataPtrHandle occlRay)) m else m.

(** Loop body of [areSingleRaysOccluded]; [base] is the offset of the
    [results] pointer in the caller's array. *)
Definition areSingleRaysOccluded_body (base : nat) (i : nat) (occlRay : BundledOcclRay)
    (s : nat * Machine) : option (nat * Machine) :=
  let '(numRadiancesFilled, m) := s in
  let rtRay := mkOcclusionRtRay occlRay in
  (* MNRY_ASSERT(occlRay.mOcclTestType == OcclTestType::STANDARD) *)
  if decide (mOcclTestType occlRay <> STANDARD) then None else
  let m := logEv (EvOccluded rtRay) m in
  let isOccluded := accelOccluded W rtRay in
  let branch :=
    if negb isOccluded || disableShadowing
    then unoccludedBranch (base + numRadiancesFilled) occlRay numRadiancesFilled m
    else occludedBranch (base + numRadiancesFilled) occlRay numRadiancesFilled m in
  match branch with
  | None => None
  | Some (numRadiancesFilled, m) =>
      let m := freeListIfSet occlRay m in
      let m := logEv (EvReleaseDeepData (mDeepDataHandle occlRay)) m in
      let m := logEv (EvReleaseCryptomatteData (mCryptomatteDataHandle occlRay)) m in
      Some (numRadiancesFilled, m)
  end.

Definition areSingleRaysOccluded (base : nat) (entries : list BundledOcclRay)
    (m : Machine) : option (nat * Machine) :=
  forEach (areSingleRaysOccluded_body base) 0 entries (0, m).

Definition forceSingleRaysUnoccluded_body (base : nat) (i : nat) (occlRay : BundledOcclRay)
    (m : Machine) : option Machine :=
  (* MNRY_ASSERT(occlRay.mOcclTestType == OcclTestType::FORCE_NOT_OCCLUDED) *)
  if decide (mOcclTestType occlRay <> FORCE_NOT_OCCLUDED) then None else
  match forcedBranch (base + i) occlRay m with
  | None => None
  | Some m =>
      let m := freeListIfSet occlRay m in
      let m := logEv (EvReleaseDeepData (mDeepDataHandle occlRay)) m in
      Some (logEv (EvReleaseCryptomatteData (mCryptomatteDataHandle occlRay)) m)
  end.

Definition forceSingleRaysUnoccluded (base : nat) (entries : list BundledOcclRay)
    (m : Machine) : option (nat * Machine) :=
  match forEach (forceSingleRaysUnoccluded_body base) 0 entries m with
  | None => None
  | Some m => Some (length entries, m)
  end.

Definition isStandard (r : BundledOcclRay) : bool :=
  bool_decide (mOcclTestType r = STANDARD).

(** Returns the number of radiances filled, the memory, and the entry
    array as the in-place partition leaves it. *)
Definition computeOcclusionQueriesBundled (entries : list BundledOcclRay) (m : Machine)
    : option (nat * Machine * list BundledOcclRay) :=
  let totalRadiancesFilled := 0 in
  let '(entries, numStandardEntries) := std_partition isStandard entries in
  let numNoOpEntries := length entries - numStandardEntries in
  let noOpEntries := drop numStandardEntries entries in
  let standard :=
    if decide (numStandardEntries <> 0) then
      match areSingleRaysOccluded 0 (take numStandardEntries entries) m with
      | None => None
      | Some (numRadiancesFilled, m) =>
          Some (0 + numRadiancesFilled, totalRadiancesFilled + numRadiancesFilled, m)
      end
    else Some (0, totalRadiancesFilled, m) in
  match standard with
  | None => None
  | Some (results, totalRadiancesFilled, m) =>
      if decide (numNoOpEntries <> 0) then
        match forceSingleRaysUnoccluded results noOpEntries m with
        | None => None
        | Some (n, m) => Some (totalRadiancesFilled + n, m, entries)
        end
      else Some (totalRadiancesFilled, m, entries)
  end.

Definition computePresenceShadowsQueriesBundled_body (i : nat) (occlRay : BundledOcclRay)
    (s : nat * Machine) : option (nat * Machine) :=
  let '(numRadiancesFilled, m) := s in
  let b := getListItem W (mDataPtrHandle occlRay) 0 in
  let shadowRay := mkShadowRay (mOrigin occlRay) (mDir occlRay) (mMinT occlRay)
                     (mMaxT occlRay) (mTime occlRay) (mDepth occlRay) in
  let presence := accumulateRayPresence W (mLight b) shadowRay (mRayEpsilon b)
                    (mMaxPresenceDepth fs) fzero in
  let tr := getTransmittance W occlRay in
  let occlRay := setRadiance occlRay (cmul (mRadiance occlRay) tr) in
  let result :=
    if isEqual W presence fzero || disableShadowing
    then fillBundledRadiance W occlRay
    else scaleRadianceRGB (fillBundledRadiance W occlRay) (fsub fone presence) in
  match storeResult numRadiancesFilled result m with
  | None => None
  | Some m =>
      let numRadiancesFilled := S numRadiancesFilled in
      let numItems := getNumListItems W (mDataPtrHandle occlRay) in
      let occlusionValue := cscale (fsub fone presence) tr in
      let m := logEv (EvAccumLightAovs occlRay numItems sWhite (Some occlusionValue)
                        sLpePrefixUnoccluded) m in
      let m := logEv (EvAccumVisibilityAovs occlRay numItems
                        (reduceTransparency W occlusionValue)) m in
      let m := logEv (EvFreeList (mDataPtrHandle occlRay)) m in
      let m := logEv (EvReleaseCryptomatteData (mCryptomatteDataHandle occlRay)) m in
      Some (numRadiancesFilled, m)
  end.

Definition computePresenceShadowsQueriesBundled (entries : list BundledOcclRay)
    (m : Machine) : option (nat * Machine) :=
  if decide (length entries = 0) then Some (0, m)
  else forEach computePresenceShadowsQueriesBundled_body 0 entries (0, m).

Definition computeXPUOcclusionQueriesOnGPU_body (isOccluded : nat -> bool)
    (i : nat) (occlRay : BundledOcclRay) (s : nat * Machine) : option (nat * Machine) :=
  let '(numRadiancesFilled, m) := s in
  let branch :=
    if decide (mOcclTestType occlRay = FORCE_NOT_OCCLUDED) then
      match forcedBranch numRadiancesFilled occlRay m with
      | None => None
      | Some m => Some (S numRadiancesFilled, m)
      end
    else if negb (isOccluded i) || disableShadowing
    then unoccludedBranch numRadiancesFilled occlRay numRadiancesFilled m
    else occludedBranch numRadiancesFilled occlRay numRadiancesFilled m in
  match branch with
  | None => None
  | Some (numRadiancesFilled, m) =>
      let m := freeListIfSet occlRay m in
      let m := logEv (EvReleaseDeepData (mDeepDataHandle occlRay)) m in
      Some (numRadiancesFilled, m)
  end.

Definition computeXPUOcclusionQueriesOnGPU (rays : list BundledOcclRay) (m : Machine)
    : option (nat * Machine) :=
  let m := logEv (EvThreadsUsingGPU 1) m in
  let m := logEv (EvGpuOccluded (length rays)) m in
  let m := logEv (EvThreadsUsingGPU (-1)) m in
  let isOccluded := gpuOcclusionBuf W rays in
  forEach (computeXPUOcclusionQueriesOnGPU_body isOccluded) 0 rays (0, m).

(** *** The bundle handlers

    Each handler allocates [results] with [numEntries] slots, runs its
    resolver, checks [MNRY_ASSERT(numRadiancesFilled <= numEntries)]
    (a failed assertion is a fault), polls cancellation and queues the
    filled prefix.  Queuing a slot that was never written is a fault. *)

(* arena->allocArray<BundledRadiance>(numEntries) *)
Definition allocResults (numEntries : nat) (log : list Event) : Machine :=
  mkMachine (replicate numEntries None) log.

Definition finishOcclusionHandler (canceled : bool) (numEntries : nat)
    (r : option (nat * Machine)) : option (nat * Machine) :=
  match r with
  | None => None
  | Some (numRadiancesFilled, m) =>
      if decide (numRadiancesFilled <= numEntries) then
        if canceled then Some (numRadiancesFilled, m)
        else
          match mapM id (take numRadiancesFilled (mResults m)) with
          | None => None
          | Some filled =>
              Some (numRadiancesFilled, logEv (EvAddRadianceQueueEntries filled) m)
          end
      else None
  end.

Definition occlusionQueryBundleHandler (canceled : bool) (entries : list BundledOcclRay)
    (log : list Event) : option (nat * Machine) :=
  finishOcclusionHandler canceled (length entries)
    (fmap fst (computeOcclusionQueriesBundled entries (allocResults (length entries) log))).

Definition presenceShadowsQueryBundleHandler (canceled : bool)
    (entries : list BundledOcclRay) (log : list Event) : option (nat * Machine) :=
  finishOcclusionHandler canceled (length entries)
    (computePresenceShadowsQueriesBundled entries (allocResults (length entries) log)).

Definition xpuOcclusionQueryBundleHandler (canceled : bool) (rays : list BundledOcclRay)
    (log : list Event) : option (nat * Machine) :=
  finishOcclusionHandler canceled (length rays)
    (computeXPUOcclusionQueriesOnGPU rays (allocResults (length rays) log)).

End Resolvers.

(** ** Ray states and the ray bundle handler *)

(** The fields of [mcrt_common::Ray] read or written around intersection. *)
Record Ray := mkRay {
  geomID : Z;                      (* -1 when nothing was hit *)
  primID : Z;
  getDepth : Z;
  getOrigin : Vec3f;
  getDirection : Vec3f;
  getTime : F;
  mPrimitive : nat                 (* ext.userData->mPrimitive *)
}.

Record PathVertex := mkPathVertex {
  pathThroughput : Color;
  pathPixelWeight : F;
  lpeStateId : Z;
  lpeStateIdLight : Z;
  lobeType : Z;
  nonMirrorDepth : Z
}.

Record Subpixel := mkSubpixel {
  spPixel : nat;
  spSubpixelIndex : Z
}.

Record RayState := mkRayState {
  mRay : Ray;
  mPathVertex : PathVertex;
  mSubpixel : Subpixel;
  mSequenceID : Z;
  mTilePass : Z;
  rsDeepDataHandle : Handle;
  rsCryptomatteDataHandle : Handle;
  mVolRad : Color;
  mVolTr : Color;
  mVolTh : Color;
  mVolTalpha : Color;
  mVolTm : Color;
  mVolHit : bool;
  mVolumeSurfaceT : F
}.

(** [shading::Material]: its bundled id and its shade queue. *)
Record Material := mkMaterial {
  getMaterialId : nat;             (* uint32_t *)
  getShadeQueue : nat
}.

(** Local to [rayBundleHandler]. *)
Record SortedEntry := mkSortedEntry {
  mSortKey : nat;                  (* uint32_t: material bundled id *)
  mRsIdx : nat;                    (* global ray state index *)
  mMaterial : option Material      (* nullptr for a miss *)
}.

(** [shading::SortedRayState] *)
Record SortedRayState := mkSortedRayState {
  srsRsIdx : nat;
  srsSortKey : Z
}.

(** What [PathIntegrator::computeRadianceVolume] hands back. *)
Record VolumeResult := mkVolumeResult {
  vrHit : bool;
  vrRadiance : Color;
  vrTransmittanceE : Color;
  vrTransmittanceH : Color;
  vrTransmittanceAlpha : Color;
  vrTransmittanceMin : Color;
  vrVolumeSurfaceT : F
}.

Inductive CancelPoint :=
| AfterVolumes
| AfterMisses
| AfterShadeSubmit (entryIdx : nat).

(** Effects of [rayBundleHandler] on the world outside, in program order.
    (Statistics, profiling and the reference counts taken by
    [acquireDeepData] / [acquireCryptomatteData] are left out.) *)
Inductive BundleEvent :=
| BvHeatMapBundledUpdate
| BvAccumVisibilityAttempts (totalLightSamples : Z) (pixel : nat) (deep : Handle)
| BvAddRadianceQueueEntries (entries : list BundledRadiance)
| BvAccumBackgroundExtraAovs (rs : nat)
| BvAovVolumeOnly (rs : nat)
| BvLightEventTransition (lpeStateId : Z) (light : Light)
| BvAccumLightAovs (radiance : Color) (lpeStateId : Z) (pixel : nat) (deep : Handle)
| BvFreeRayStates (rayStates : list nat)
| BvShadeQueueAddEntries (shadeQueue : nat) (entries : list SortedRayState).

(** Oracles for the collaborators of [rayBundleHandler]. *)
Record BundleCollab := mkBundleCollab {
  intersect : Ray -> Ray;
  computeRadianceVolume : RayState -> Z -> VolumeResult;
  getIntersectionMaterial : Ray -> option Material;
  raySwitch : Material -> Z -> Material;
  lobeTypeToRayType : Z -> Z;
  intersectVisibleLight : RayState -> option (Light * nat * Z);
  lightEval : Light -> RayState -> nat -> Color;
  lightEventTransition : Z -> Light -> Z;
  bcReduceTransparency : Color -> F;
  isCanceled : CancelPoint -> bool
}.

(** The fields of [FrameState] read by [rayBundleHandler]. *)
Record BundleFrameState := mkBundleFrameState {
  mRequiresHeatMap : bool;
  aovSchemaEmpty : bool;
  getLightSampleCount : Z;
  getLightCount : Z
}.

(* Conversion of an integer value to [int]: the value modulo 2^32 that
   lies in [-2^31, 2^31). *)
Definition wrapInt32 (z : Z) : Z := ((z + 2 ^ 31) mod 2 ^ 32 - 2 ^ 31)%Z.

(** The ray state pool: [indexToRayState]. *)
Definition Pool := nat -> RayState.

Definition poolSet (pool : Pool) (idx : nat) (rs : RayState) : Pool :=
  fun j => if decide (j = idx) then rs else pool j.

Global Instance Material_eq_dec : EqDecision Material.
Proof. solve_decision. Defined.

(** *** Sorting by key *)

(* #define RAY_HANDLER_STD_SORT_CUTOFF 200 *)
Definition RAY_HANDLER_STD_SORT_CUTOFF : nat := 200.

Definition hasKey (k : nat) (e : SortedEntry) : bool := Nat.eqb (mSortKey e) k.

(** Modelled from the spec: the bucket sort inside
    [scene_rdl2::util::smartSort32], which is not under src/.  The spec
    calls it "a bucket/radix-style sort bounded by the maximum observed
    key": one bucket per key from 0 to [maxSortKey], emitted in ascending
    key order. *)
Definition bucketSort32 (maxSortKey : nat) (entries : list SortedEntry) : list SortedEntry :=
  flat_map (fun k => filter (fun e => hasKey k e = true) entries) (seq 0 (S maxSortKey)).

(** Modelled from the spec: the insertion step of the comparison sort
    below; [scene_rdl2::util::smartSort32] is not under src/. *)
Fixpoint insertByKey (e : SortedEntry) (sorted : list SortedEntry) : list SortedEntry :=
  match sorted with
  | [] => [e]
  | x :: rest =>
      if Nat.ltb (mSortKey e) (mSortKey x) then e :: x :: rest
      else x :: insertByKey e rest
  end.

(** Modelled from the spec: the "standard comparison sort" inside
    [scene_rdl2::util::smartSort32], which is not under src/; here an
    insertion sort driven by the comparison of the keys. *)
Definition comparisonSort32 (entries : list SortedEntry) : list SortedEntry :=
  foldr insertByKey [] entries.

(** Modelled from the spec: [scene_rdl2::util::smartSort32<SortedEntry, 0,
    RAY_HANDLER_STD_SORT_CUTOFF>], which is not under src/.  The spec:
    "entries are sorted ascending by key using a bucket/radix-style sort
    bounded by the maximum observed key when the batch size is below a
    fixed threshold, and a standard comparison sort otherwise".  The first
    [numElems] slots of the array are sorted; the slots behind them are
    not touched. *)
Definition smartSort32 (numElems : nat) (srcEntries : list SortedEntry) (maxSortKey : nat)
    : list SortedEntry :=
  (if Nat.ltb numElems RAY_HANDLER_STD_SORT_CUTOFF
   then bucketSort32 maxSortKey (take numElems srcEntries)
   else comparisonSort32 (take numElems srcEntries))
  ++ drop numElems srcEntries.

Section RayBundle.
Variable B : BundleCollab.
Variable bfs : BundleFrameState.

(** Intersection pass: [accel->intersect(rs->mRay)] for every entry. *)
Definition intersectRayState (rs : RayState) : RayState :=
  mkRayState (intersect B (mRay rs)) (mPathVertex rs) (mSubpixel rs) (mSequenceID rs)
    (mTilePass rs) (rsDeepDataHandle rs) (rsCryptomatteDataHandle rs)
    (mVolRad rs) (mVolTr rs) (mVolTh rs) (mVolTalpha rs) (mVolTm rs)
    (mVolHit rs) (mVolumeSurfaceT rs).

(** Volume pass for one ray state. *)
Definition volumeRayState (rs : RayState) : RayState :=
  let pv := mPathVertex rs in
  let lobe := if decide (nonMirrorDepth pv = 0%Z) then 0%Z else lobeType pv in
  (* rs.mVolRad = sBlack, then passed by reference *)
  let rs0 := mkRayState (mRay rs) (mPathVertex rs) (mSubpixel rs) (mSequenceID rs)
    (mTilePass rs) (rsDeepDataHandle rs) (rsCryptomatteDataHandle rs)
    sBlack (mVolTr rs) (mVolTh rs) (mVolTalpha rs) (mVolTm rs)
    (mVolHit rs) (mVolumeSurfaceT rs) in
  let vr := computeRadianceVolume B rs0 lobe in
  mkRayState (mRay rs) (mPathVertex rs) (mSubpixel rs) (mSequenceID rs)
    (mTilePass rs) (rsDeepDataHandle rs) (rsCryptomatteDataHandle rs)
    (vrRadiance vr) (vrTransmittanceE vr) (vrTransmittanceH vr)
    (vrTransmittanceAlpha vr) (vrTransmittanceMin vr)
    (vrHit vr) (vrVolumeSurfaceT vr).

Definition intersectionStage (rayStates : list nat) (pool : Pool) : Pool :=
  foldl (fun pool p => poolSet pool p (intersectRayState (pool p))) pool rayStates.

Definition volumeStage (rayStates : list nat) (pool : Pool) : Pool :=
  foldl (fun pool p => poolSet pool p (volumeRayState (pool p))) pool rayStates.

(** State of the loop that fills [sortedEntries]. *)
Record SortState := mkSortState {
  sortedEntries : list SortedEntry;   (* the whole allocation, numEntries slots *)
  numSortedEntries : nat;
  maxSortKey : nat;
  rayStatesToFree : list nat;         (* the filled prefix of the array *)
  bLog : list BundleEvent
}.

(* sortedEntries[idx] = e, inside the allocation *)
Definition storeEntry (idx : nat) (e : SortedEntry) (arr : list SortedEntry)
    : option (list SortedEntry) :=
  if decide (idx < length arr) then Some (<[idx := e]> arr) else None.

(* rayStatesToFree[numRayStatesToFree++] = rs, inside the allocation of
   numEntries slots *)
Definition pushRayStateToFree (numEntries : nat) (rs : nat) (toFree : list nat)
    : option (list nat) :=
  if decide (length toFree < numEntries) then Some (toFree ++ [rs]) else None.

(** The radiance entry emitted for a hit on geometry without material
    that passed through a volume. *)
Definition nullMaterialRadiance (rs : RayState) : BundledRadiance :=
  let alpha :=
    if decide (getDepth (mRay rs) = 0%Z)
    then fmul (pathPixelWeight (mPathVertex rs))
              (fsub fone (bcReduceTransparency B (mVolTalpha rs)))
    else fzero in
  mkBundledRadiance
    (mkRenderColor (cr (mVolRad rs)) (cg (mVolRad rs)) (cb (mVolRad rs)) alpha)
    (pathPixelWeight (mPathVertex rs)) (spPixel (mSubpixel rs))
    (spSubpixelIndex (mSubpixel rs)) (rsDeepDataHandle rs) (rsCryptomatteDataHandle rs).

(** The material an intersected ray is sorted under: the intersection
    material after the ray-type switch, if the hit point has one. *)
Definition sortMaterial (rs : RayState) : option Material :=
  match getIntersectionMaterial B (mRay rs) with
  | Some material =>
      Some (raySwitch B material (lobeTypeToRayType B (lobeType (mPathVertex rs))))
  | None => None
  end.

(** Body of the loop over the entries that assigns the sort keys. *)
Definition buildSortedEntries_body (numEntries : nat) (pool : Pool)
    (i : nat) (p : nat) (st : SortState) : option SortState :=
  let rs := pool p in
  let ray := mRay rs in
  if decide (geomID ray = (-1)%Z) then
    (* We didn't hit anything. *)
    match storeEntry (numSortedEntries st) (mkSortedEntry 0 p None) (sortedEntries st) with
    | None => None
    | Some arr =>
        let log :=
          if decide (getDepth ray = 0%Z) then
            if negb (aovSchemaEmpty bfs) then
              (* int totalLightSamples = getLightSampleCount() * getLightCount() *)
              bLog st ++ [BvAccumVisibilityAttempts
                            (wrapInt32 (getLightSampleCount bfs * getLightCount bfs))
                            (spPixel (mSubpixel rs)) (rsDeepDataHandle rs)]
            else bLog st
          else bLog st in
        Some (mkSortState arr (S (numSortedEntries st)) (maxSortKey st)
                (rayStatesToFree st) log)
    end
  else
    match sortMaterial rs with
    | Some material =>
        (* sortedEntry.mSortKey = MNRY_VERIFY(material->getMaterialId()) *)
        let key := getMaterialId material in
        if decide (key = 0) then None
        else
        match storeEntry (numSortedEntries st) (mkSortedEntry key p (Some material))
                (sortedEntries st) with
        | None => None
        | Some arr =>
            Some (mkSortState arr (S (numSortedEntries st))
                    (Nat.max (maxSortKey st) key) (rayStatesToFree st) (bLog st))
        end
    | None =>
        (* No material is assigned to this hit point. *)
        match pushRayStateToFree numEntries p (rayStatesToFree st) with
        | None => None
        | Some toFree =>
            let log :=
              if mVolHit rs
              then bLog st ++ [BvAddRadianceQueueEntries [nullMaterialRadiance rs]]
              else bLog st in
            Some (mkSortState (sortedEntries st) (numSortedEntries st) (maxSortKey st)
                    toFree log)
        end
    end.

(* arena->allocArray<SortedEntry>(numEntries): the arena does not clear
   memory; [scratch i] is what it holds in slot [i]. *)
Definition allocSortedEntries (scratch : nat -> SortedEntry) (numEntries : nat)
    : list SortedEntry :=
  map scratch (seq 0 numEntries).

Definition buildSortedEntries (scratch : nat -> SortedEntry) (pool : Pool)
    (rayStates : list nat) (log : list BundleEvent) : option SortState :=
  forEach (buildSortedEntries_body (length rayStates) pool) 0 rayStates
    (mkSortState (allocSortedEntries scratch (length rayStates)) 0 0 [] log).

(** *** The miss handler *)

(** Radiance and alpha of one miss-run entry. *)
Definition missRadianceAlpha (rs : RayState) : Color * F :=
  let radiance := sBlack in
  let alpha := fzero in
  let '(radiance, alpha) :=
    if decide (getDepth (mRay rs) = 0%Z) then
      match intersectVisibleLight B rs with
      | Some (hitLight, hitLightIsect, numHits) =>
          let radiance :=
            cscale_r (cmul (pathThroughput (mPathVertex rs))
                           (lightEval B hitLight rs hitLightIsect))
                     (fofint numHits) in
          (* attenuate based on volume transmittance *)
          let radiance :=
            if mVolHit rs then cmul radiance (cmul (mVolTr rs) (mVolTh rs))
            else radiance in
          let alpha :=
            if getIsOpaqueInAlpha hitLight then pathPixelWeight (mPathVertex rs)
            else if mVolHit rs then
              fmul (pathPixelWeight (mPathVertex rs))
                   (fsub fone (bcReduceTransparency B (mVolTalpha rs)))
            else fzero in
          (radiance, alpha)
      | None =>
          if mVolHit rs then
            (radiance, fmul (pathPixelWeight (mPathVertex rs))
                            (fsub fone (bcReduceTransparency B (mVolTalpha rs))))
          else (radiance, alpha)
      end
    else (radiance, alpha) in
  (* add in any volume radiance *)
  (cadd radiance (mVolRad rs), alpha).

Definition missBundledRadiance (rs : RayState) : BundledRadiance :=
  let '(radiance, alpha) := missRadianceAlpha rs in
  mkBundledRadiance
    (mkRenderColor (cr radiance) (cg radiance) (cb radiance) alpha)
    (pathPixelWeight (mPathVertex rs)) (spPixel (mSubpixel rs))
    (spSubpixelIndex (mSubpixel rs)) (rsDeepDataHandle rs) (rsCryptomatteDataHandle rs).

(** The AOV / light path expression block of the miss loop.

    The variable [hitLight] this block tests is the one declared at the
    top of the loop body and initialised to [nullptr].  The light found by
    [intersectVisibleLight] is assigned to a second [hitLight], declared
    inside the [getDepth() == 0] block, which goes out of scope before this
    block; so the outer one is still [nullptr] here.  In the same way the
    [lpeStateId] that receives the light event transition is a new
    variable declared inside the [if (hitLight)] block, and the
    function-level [lpeStateId] keeps its value [-1] on that path. *)
Definition missAovs (rsIdx : nat) (rs : RayState) (log : list BundleEvent)
    : list BundleEvent :=
  let hitLight : option Light := None in
  let '(radiance, _) := missRadianceAlpha rs in
  if negb (aovSchemaEmpty bfs) then
    let log := log ++ [BvAccumBackgroundExtraAovs rsIdx] in
    let log :=
      if bool_decide (getDepth (mRay rs) = 0%Z) && mVolHit rs
         && fltb (mVolumeSurfaceT rs) sMaxValue
      then log ++ [BvAovVolumeOnly rsIdx] else log in
    let lpeStateId_outer := (-1)%Z in
    let '(lpeStateId_outer, log) :=
      if decide (getDepth (mRay rs) = 0%Z) then
        match hitLight with
        | Some light =>
            (* case 1 *)
            let lpeStateId_inner := lpeStateId (mPathVertex rs) in
            if decide (0 <= lpeStateId_inner)%Z
            then (lpeStateId_outer,
                  log ++ [BvLightEventTransition lpeStateId_inner light])
            else (lpeStateId_outer, log)
        | None => (lpeStateId_outer, log)
        end
      else
        (* case 2 *)
        (lpeStateIdLight (mPathVertex rs), log) in
    if decide (0 <= lpeStateId_outer)%Z
    then log ++ [BvAccumLightAovs radiance lpeStateId_outer
                   (spPixel (mSubpixel rs)) (rsDeepDataHandle rs)]
    else log
  else log.

(** State of the miss loop. *)
Record MissState := mkMissState {
  radiances : list BundledRadiance;
  missToFree : list nat;
  missLog : list BundleEvent
}.

(** Body of the loop over the miss run; [i] indexes [sortedEntries]. *)
Definition missLoop_body (numEntries : nat) (pool : Pool) (arr : list SortedEntry)
    (i : nat) (st : MissState) : option MissState :=
  match arr !! i with
  | None => None
  | Some entry =>
      let rs := pool (mRsIdx entry) in
      let rad := missBundledRadiance rs in
      let log := missAovs (mRsIdx entry) rs (missLog st) in
      (* It's critical that we don't leak ray states. *)
      match pushRayStateToFree numEntries (mRsIdx entry) (missToFree st) with
      | None => None
      | Some toFree => Some (mkMissState (radiances st ++ [rad]) toFree log)
      end
  end.

Definition missLoop (numEntries : nat) (pool : Pool) (arr : list SortedEntry)
    (numMisses : nat) (st : MissState) : option MissState :=
  forEach (fun i _ st => missLoop_body numEntries pool arr i st) 0 (seq 0 numMisses) st.

(** *** Spans of equal keys *)

(* while (spanEnd != endEntry && spanEnd->mSortKey == key) ++spanEnd;
   [rest] is the allocation from index [spanEnd] on; a read behind it is a
   fault. *)
Fixpoint scanSpan (key : nat) (endEntry : nat) (spanEnd : nat) (rest : list SortedEntry)
    : option nat :=
  if decide (spanEnd = endEntry) then Some spanEnd
  else
    match rest with
    | [] => None
    | e :: rest' =>
        if decide (mSortKey e = key) then scanSpan key endEntry (S spanEnd) rest'
        else Some spanEnd
    end.

(** The shade queue entry for one sorted entry. *)
Definition mkShadeEntry (pool : Pool) (e : SortedEntry) : SortedRayState :=
  let ray := mRay (pool (mRsIdx e)) in
  mkSortedRayState (mRsIdx e)
    (Z.lor (Z.shiftl (Z.land (geomID ray) 4095) 20) (Z.land (primID ray) 1048575)).

(** The loop that routes the remaining entries to their materials.
    Every turn moves [currEntry] forward, and a read behind the
    allocation is a fault, so [length arr + 1] turns always suffice. *)
Fixpoint dispatchLoop (fuel : nat) (pool : Pool) (arr : list SortedEntry)
    (endEntry : nat) (currEntry : nat) (log : list BundleEvent)
    : option (list BundleEvent) :=
  match fuel with
  | 0 => None
  | S fuel' =>
      if decide (currEntry = endEntry) then Some log
      else
        match arr !! currEntry with
        | None => None
        | Some first =>
            (* currBundledMatId = MNRY_VERIFY(currEntry->mSortKey) *)
            let currBundledMatId := mSortKey first in
            if decide (currBundledMatId = 0) then None
            else
            match scanSpan currBundledMatId endEntry (S currEntry)
                    (drop (S currEntry) arr) with
            | None => None
            | Some spanEnd =>
                (* numShadeEntries = MNRY_VERIFY(spanEnd - currEntry) *)
                let numShadeEntries := spanEnd - currEntry in
                if decide (numShadeEntries = 0) then None
                else
                let shadeEntries :=
                  map (mkShadeEntry pool) (take numShadeEntries (drop currEntry arr)) in
                match mMaterial first with
                | None => None         (* currEntry->mMaterial is nullptr *)
                | Some material =>
                    let log := log ++ [BvShadeQueueAddEntries (getShadeQueue material)
                                         shadeEntries] in
                    if isCanceled B (AfterShadeSubmit currEntry) then Some log
                    else dispatchLoop fuel' pool arr endEntry spanEnd log
                end
            end
        end
  end.

(** *** rayBundleHandler

    [rayStates] are the entries (indices into the pool), [scratch] the
    stale contents of the arena slots that become [sortedEntries].  The
    result is the log of outside calls, or [None] when the handler leaves
    its allocations or trips an assertion. *)
Definition rayBundleHandler (scratch : nat -> SortedEntry) (pool : Pool)
    (rayStates : list nat) : option (list BundleEvent) :=
  let numEntries := length rayStates in
  if decide (numEntries = 0) then None (* MNRY_ASSERT(numEntries) *)
  else
  let pool := intersectionStage rayStates pool in
  let pool := volumeStage rayStates pool in
  if isCanceled B AfterVolumes then Some []
  else
  let log := if mRequiresHeatMap bfs then [BvHeatMapBundledUpdate] else [] in
  match buildSortedEntries scratch pool rayStates log with
  | None => None
  | Some st =>
      let numSortedEntries := numSortedEntries st in
      let arr := smartSort32 numSortedEntries (sortedEntries st) (maxSortKey st) in
      let endEntry := numSortedEntries in
      match arr !! 0 with
      | None => None
      | Some e0 =>
          let misses :=
            if decide (mSortKey e0 = 0) then
              match scanSpan 0 endEntry 1 (drop 1 arr) with
              | None => None
              | Some spanEnd =>
                  let numMisses := spanEnd in
                  if decide (numMisses <> 0) then
                    match missLoop numEntries pool arr numMisses
                            (mkMissState [] (rayStatesToFree st) (bLog st)) with
                    | None => None
                    | Some ms =>
                        Some (numMisses, missToFree ms,
                              missLog ms ++ [BvAddRadianceQueueEntries (radiances ms)],
                              isCanceled B AfterMisses)
                    end
                  else Some (numMisses, rayStatesToFree st, bLog st, false)
              end
            else Some (0, rayStatesToFree st, bLog st, false) in
          match misses with
          | None => None
          | Some (numMisses, toFree, log, canceled) =>
              if canceled then Some log
              else
                (* MNRY_ASSERT(numRayStatesToFree <= numEntries) *)
                if decide (length toFree <= numEntries) then
                  let log := log ++ [BvFreeRayStates toFree] in
                  dispatchLoop (S (length arr)) pool arr endEntry numMisses log
                else None
          end
      end
  end.

End RayBundle.
End DataModel.

(** ** Reading the logs *)
Section Observations.
Context {F : Type} {FO : FloatOps F}.

(** [k] slots of [results] have been written, all inside the allocation. *)
Definition filledUpTo (k : nat) (m : @Machine F) : Prop :=
  k <= length (mResults m) /\
  forall j, j < k -> exists r, mResults m !! j = Some (Some r).

(** The rays handed to the CPU accelerator, in order. *)
Definition occlusionTests (log : list (@Event F)) : list RtRay :=
  omap (fun e => match e with EvOccluded r => Some r | _ => None end) log.

(** The handles passed to [freeList], [releaseDeepData] and
    [releaseCryptomatteData], in order. *)
Definition freedLists (log : list (@Event F)) : list Handle :=
  omap (fun e => match e with EvFreeList h => Some h | _ => None end) log.

Definition releasedDeepData (log : list (@Event F)) : list Handle :=
  omap (fun e => match e with EvReleaseDeepData h => Some h | _ => None end) log.

Definition releasedCryptomatteData (log : list (@Event F)) : list Handle :=
  omap (fun e => match e with EvReleaseCryptomatteData h => Some h | _ => None end) log.

(** What the two occlusion back ends are compared on: the AOV / LPE
    accounting calls and the releases of the side-data list and of the
    deep data, in program order. *)
Definition isAccounting (e : @Event F) : bool :=
  match e with
  | EvAccumLightAovs _ _ _ _ _ | EvAccumVisibilityAovs _ _ _
  | EvAccumVisibilityAovsOccluded _ _ | EvFreeList _ | EvReleaseDeepData _ => true
  | _ => false
  end.

Definition accountingTrace (log : list (@Event F)) : list Event :=
  omap (fun e => if isAccounting e then Some e else None) log.

End Observations.

(** A range reordered by [std::partition]: the elements that pass come
    first. *)
Definition partitioned {A : Type} (pred : A -> bool) (a : list A) (k : nat) : Prop :=
  (forall i x, i < k -> a !! i = Some x -> pred x = true) /\
  (forall i x, k <= i -> a !! i = Some x -> pred x = false).

Section MoreObservations.
Context {F : Type} {FO : FloatOps F}.

(** One resolver step from a state with [k] filled slots: it succeeds,
    fills at most one more slot and stays inside [cap] slots. *)
Definition stepOk (cap k : nat) (n : nat) (r : option (nat * @Machine F)) : Prop :=
  exists n' m', r = Some (n', m') /\ n <= n' <= S n /\
    length (mResults m') = cap /\ filledUpTo (k + (n' - n)) m'.

(** The side-data lists a walk over [entries] has to free. *)
Definition sideDataToFree (entries : list (@BundledOcclRay F)) : list Handle :=
  flat_map (fun r => if decide (mDataPtrHandle r <> nullHandle)
                     then [mDataPtrHandle r] else []) entries.

(** Two machines that hold the same radiances and saw the same
    accounting calls. *)
Definition sameDecisions (m1 m2 : @Machine F) : Prop :=
  mResults m1 = mResults m2 /\ accountingTrace (mLog m1) = accountingTrace (mLog m2).

Definition sameOutcome (r1 r2 : option (nat * @Machine F)) : Prop :=
  match r1, r2 with
  | Some (n1, m1), Some (n2, m2) => n1 = n2 /\ sameDecisions m1 m2
  | None, None => True
  | _, _ => False
  end.

(** The events by which the miss handler would account for a light that
    a primary ray hit directly. *)
Definition isLightAccounting (e : @BundleEvent F) : bool :=
  match e with
  | BvLightEventTransition _ _ | BvAccumLightAovs _ _ _ _ => true
  | _ => false
  end.


(** The ray states handed to [freeRayStates], in order. *)
Definition freedRayStates (log : list (@BundleEvent F)) : list nat :=
  flat_map (fun e => match e with BvFreeRayStates l => l | _ => [] end) log.

(** The ray states submitted to shade queues, in order. *)
Definition forwardedRayStates (log : list (@BundleEvent F)) : list nat :=
  flat_map (fun e => match e with
                     | BvShadeQueueAddEntries _ es => map srsRsIdx es
                     | _ => []
                     end) log.

(** Order by sort key. *)
Definition keyLe (a b : SortedEntry) : Prop := mSortKey a <= mSortKey b.

Definition sortedByKey (l : list SortedEntry) : Prop := StronglySorted keyLe l.

(** The buckets of the keys [ks], one after the other. *)
Definition bucketsOf (ks : list nat) (l : list SortedEntry) : list SortedEntry :=
  flat_map (fun k => filter (fun e => hasKey k e = true) l) ks.

(** The entry kept for sorting for the ray state [p], if any. *)
Definition sortedEntryFor (B : @BundleCollab F) (pool : Pool) (p : nat) : option SortedEntry :=
  if decide (geomID (mRay (pool p)) = (-1)%Z) then Some (mkSortedEntry 0 p None)
  else
    match sortMaterial B (pool p) with
    | Some material => Some (mkSortedEntry (getMaterialId material) p (Some material))
    | None => None
    end.

(** What the key-assigning loop has established after [j] entries. *)
Definition buildInv (B : @BundleCollab F) (scratch : nat -> SortedEntry) (pool : @Pool F) (rays : list nat)
    (log : list (@BundleEvent F)) (j : nat) (st : @SortState F) : Prop :=
  let kept := omap (sortedEntryFor B pool) (take j rays) in
  numSortedEntries st = length kept /\
  sortedEntries st
    = kept ++ drop (length kept) (allocSortedEntries scratch (length rays)) /\
  rayStatesToFree st = filter (fun p => sortedEntryFor B pool p = None) (take j rays) /\
  Forall (fun e => mSortKey e <= maxSortKey st) kept /\
  freedRayStates (bLog st) = freedRayStates log /\
  forwardedRayStates (bLog st) = forwardedRayStates log.

End MoreObservations.

(** ** Further readings of the logs *)
Section FurtherObservations.
Context {F : Type} {FO : FloatOps F}.

(** The batches an occlusion handler hands to [addRadianceQueueEntries]. *)
Definition queuedRadiances (log : list (@Event F)) : list (list BundledRadiance) :=
  omap (fun e => match e with EvAddRadianceQueueEntries l => Some l | _ => None end) log.

(** Whether the loop of [areSingleRaysOccluded] fills a radiance for the
    ray: it is not occluded, or shadowing is disabled, or it has a
    side-data list and ends inside the clear-radius falloff of its light. *)
Definition emitsRadiance (W : Collab) (fs : FrameState) (occlRay : BundledOcclRay) : bool :=
  negb (accelOccluded W (mkOcclusionRtRay W occlRay)) || disableShadowing fs
  || (bool_decide (mDataPtrHandle occlRay <> nullHandle)
      && insideClearRadiusFalloff
           (mLight (getListItem W (mDataPtrHandle occlRay) 0)) occlRay).

(** An occlusion ray after [occlRay.mRadiance = occlRay.mRadiance * tr]. *)
Definition attenuatedRay (W : Collab) (occlRay : BundledOcclRay) : BundledOcclRay :=
  let tr := getTransmittance W occlRay in
  mkOcclRay (mOrigin occlRay) (mDir occlRay) (mMinT occlRay) (mMaxT occlRay)
    (mTime occlRay) (mDepth occlRay)
    (mkColor (fmul (cr (mRadiance occlRay)) (cr tr))
             (fmul (cg (mRadiance occlRay)) (cg tr))
             (fmul (cb (mRadiance occlRay)) (cb tr)))
    (mPixel occlRay) (mSubpixelIndex occlRay) (mOcclTestType occlRay)
    (mShadowReceiverId occlRay) (mDataPtrHandle occlRay) (mDeepDataHandle occlRay)
    (mCryptomatteDataHandle occlRay).

(** The submissions to shade queues: queue and entries, in order. *)
Definition shadeSubmissions (log : list (@BundleEvent F))
    : list (nat * list SortedRayState) :=
  omap (fun e => match e with
                 | BvShadeQueueAddEntries q es => Some (q, es)
                 | _ => None
                 end) log.

(** The batches [rayBundleHandler] hands to [addRadianceQueueEntries]. *)
Definition queuedBundleRadiances (log : list (@BundleEvent F))
    : list (list BundledRadiance) :=
  omap (fun e => match e with BvAddRadianceQueueEntries l => Some l | _ => None end) log.

(** The calls of [aovAccumVisibilityAttemptsBundled]: sample count, pixel
    and deep handle. *)
Definition visibilityAttempts (log : list (@BundleEvent F)) : list (Z * nat * Handle) :=
  omap (fun e => match e with
                 | BvAccumVisibilityAttempts n pixel deep => Some (n, pixel, deep)
                 | _ => None
                 end) log.

(** A run of sorted entries that the routing loop submits in one call:
    not empty, one key throughout. *)
Definition isKeyRun (run : list SortedEntry) : Prop :=
  exists e rest, run = e :: rest /\ Forall (fun x => mSortKey x = mSortKey e) rest.

(** Every entry of [r1] has a smaller key than every entry of [r2]. *)
Definition runBefore (r1 r2 : list SortedEntry) : Prop :=
  forall e1 e2, e1 ∈ r1 -> e2 ∈ r2 -> mSortKey e1 < mSortKey e2.

(** What the routing loop hands to a shade queue for [run]: the queue of
    the material of the first entry, and one shade entry per entry. *)
Definition submission (pool : @Pool F) (run : list SortedEntry)
    : option (nat * list SortedRayState) :=
  match run with
  | e :: _ =>
      match mMaterial e with
      | Some material => Some (getShadeQueue material, map (mkShadeEntry pool) run)
      | None => None
      end
  | [] => None
  end.

(** The AOV calls of the miss loop. *)
Definition isMissAov (e : @BundleEvent F) : bool :=
  match e with
  | BvAccumBackgroundExtraAovs _ | BvAovVolumeOnly _
  | BvLightEventTransition _ _ | BvAccumLightAovs _ _ _ _ => true
  | _ => false
  end.

(** A ray state that goes on to shading: it hit geometry that has a
    material. *)
Definition isShaded (B : @BundleCollab F) (pool : @Pool F) (p : nat) : bool :=
  negb (bool_decide (geomID (mRay (pool p)) = (-1)%Z))
  && bool_decide (sortMaterial B (pool p) <> None).

(** A ray state that hit nothing. *)
Definition isMiss (pool : @Pool F) (p : nat) : bool :=
  bool_decide (geomID (mRay (pool p)) = (-1)%Z).

(** The outside calls that the key-assigning loop of [rayBundleHandler]
    makes for the ray state [p]. *)
Definition buildEvents (B : @BundleCollab F) (bfs : BundleFrameState) (pool : @Pool F)
    (p : nat) : list (@BundleEvent F) :=
  let rs := pool p in
  if decide (geomID (mRay rs) = (-1)%Z) then
    if bool_decide (getDepth (mRay rs) = 0%Z) && negb (aovSchemaEmpty bfs)
    then [BvAccumVisibilityAttempts
            (wrapInt32 (getLightSampleCount bfs * getLightCount bfs))
            (spPixel (mSubpixel rs)) (rsDeepDataHandle rs)]
    else []
  else
    match sortMaterial B rs with
    | Some _ => []
    | None =>
        if mVolHit rs then [BvAddRadianceQueueEntries [nullMaterialRadiance B rs]]
        else []
    end.

End FurtherObservations.

(** ** Sample scenes, in exact rational arithmetic *)

Definition QFloat : FloatOps Q := {|
  fzero := 0%Q;
  fone := 1%Q;
  fadd a b := Qred (a + b);
  fsub a b := Qred (a - b);
  fmul a b := Qred (a * b);
  feqb := Qeq_bool;
  fltb a b := negb (Qle_bool b a);
  fofint z := inject_Z z;
  sMaxValue := (340282346638528859811704183484516925440 # 1)%Q
|}.

#[export] Existing Instance QFloat.

Definition sampleVec : Vec3f := mkVec3 0%Q 0%Q 0%Q.

(** A light with clear radius 2 and the given falloff distance. *)
Definition sampleLight (falloff : Q) : Light := mkLight 1 2%Q falloff false.

Definition sampleOcclRay (kind : OcclTestType) (pixel : nat) (radiance : Color)
    (maxT : Q) (data deep crypto : Handle) : BundledOcclRay :=
  mkOcclRay sampleVec sampleVec 0%Q maxT 0%Q 1%Z radiance pixel 0%Z kind 0%Z
    data deep crypto.

(** A scene in which every occlusion test answers [occl], every presence
    march returns [presence], the volumes transmit [tr] and every side-data
    list starts with a light of the given falloff distance.  The helpers
    that live in RayHandlerUtils.h are given sample bodies:
    [fillBundledRadiance] copies radiance, pixel and handles,
    [calculateShadowFalloff] halves the colour. *)
Definition sampleScene (occl : bool) (presence : Q) (tr : Color) (falloff : Q)
    : Collab := {|
  accelOccluded := fun _ => occl;
  gpuOcclusionBuf := fun _ _ => occl;
  getTransmittance := fun _ => tr;
  fillBundledRadiance := fun r =>
    mkBundledRadiance
      (mkRenderColor (cr (mRadiance r)) (cg (mRadiance r)) (cb (mRadiance r)) 0%Q)
      0%Q (mPixel r) (mSubpixelIndex r) (mDeepDataHandle r) (mCryptomatteDataHandle r);
  getListItem := fun _ _ => mkOcclData (sampleLight falloff) (1 # 1000)%Q;
  getNumListItems := fun _ => 1%Z;
  calculateShadowFalloff := fun _ _ c => cscale (1 # 2)%Q c;
  accumulateRayPresence := fun _ _ _ _ _ => presence;
  isEqual := fun a b => Qle_bool (Qabs (a - b)) (1 # 1000000)%Q;
  reduceTransparency := fun c => Qred ((cr c + cg c + cb c) / 3)
|}.

Definition shadowingOn : FrameState := mkFrameState true false 4%Z.
Definition shadowingOff : FrameState := mkFrameState false false 4%Z.


Definition noOpA : BundledOcclRay :=
  sampleOcclRay FORCE_NOT_OCCLUDED 1 sWhite 1%Q (handle 1) nullHandle nullHandle.
Definition noOpB : BundledOcclRay :=
  sampleOcclRay FORCE_NOT_OCCLUDED 2 sWhite 1%Q (handle 2) nullHandle nullHandle.
Definition standardC : BundledOcclRay :=
  sampleOcclRay STANDARD 3 sWhite 1%Q (handle 3) nullHandle nullHandle.

(** A [STANDARD] ray that owns a side-data list, deep data and cryptomatte
    data. *)
Definition standardWithHandles : BundledOcclRay :=
  sampleOcclRay STANDARD 4 (mkColor (1 # 2) (1 # 4) 1)%Q (5 # 2)%Q
    (handle 1) (handle 2) (handle 3).

(** The same ray carrying no radiance. *)
Definition standardBlack : BundledOcclRay :=
  sampleOcclRay STANDARD 6 sBlack (5 # 2)%Q (handle 1) (handle 2) (handle 3).

(** The same ray without a side-data list. *)
Definition standardWithoutList : BundledOcclRay :=
  sampleOcclRay STANDARD 5 (mkColor (1 # 2) (1 # 4) 1)%Q (5 # 2)%Q
    nullHandle nullHandle nullHandle.


(** *** Sample scenes for the ray bundle handler *)

Definition sampleRayState (geom prim depth : Z) (weight : Q) (lpe : Z) (pixel : nat)
    : RayState :=
  mkRayState (mkRay geom prim depth sampleVec sampleVec 0%Q 0)
    (mkPathVertex sWhite weight lpe (-1)%Z 0%Z 0%Z)
    (mkSubpixel pixel 0%Z) 0%Z 0%Z nullHandle nullHandle
    sBlack sWhite sWhite sWhite sWhite false sMaxValue.

(** Geometry 9 has no material; every other geometry [g] has the material
    with bundled id [g] and shade queue [10 * g]. *)
Definition sampleMaterial (ray : @Ray Q) : option Material :=
  if decide (geomID ray = 9%Z) then None
  else Some (mkMaterial (Z.to_nat (geomID ray)) (10 * Z.to_nat (geomID ray))).

(** A scene in which the rays arrive already intersected ([intersect]
    changes nothing), every ray gets the volume result [vol], primary
    misses see [light], and nothing is cancelled. *)
Definition sampleBundleScene (vol : VolumeResult) (light : option (Light * nat * Z))
    : BundleCollab := {|
  intersect := fun ray => ray;
  computeRadianceVolume := fun _ _ => vol;
  getIntersectionMaterial := sampleMaterial;
  raySwitch := fun material _ => material;
  lobeTypeToRayType := fun lobe => lobe;
  intersectVisibleLight := fun _ => light;
  lightEval := fun _ _ _ => mkColor 2%Q 2%Q 2%Q;
  lightEventTransition := fun lpe _ => (lpe + 1)%Z;
  bcReduceTransparency := fun c => Qred ((cr c + cg c + cb c) / 3);
  isCanceled := fun _ => false
|}.

Definition noVolume : VolumeResult :=
  mkVolumeResult false sBlack sWhite sWhite sWhite sWhite sMaxValue.

(** A volume that lets nothing through in alpha and adds radiance
    (1/4, 1/4, 1/4). *)
Definition denseVolume : VolumeResult :=
  mkVolumeResult true (mkColor (1 # 4) (1 # 4) (1 # 4))%Q sWhite sWhite sBlack sWhite 5%Q.

Definition withAovs : BundleFrameState := mkBundleFrameState false false 2%Z 3%Z.
Definition withoutAovs : BundleFrameState := mkBundleFrameState false true 2%Z 3%Z.

(** The pool of the samples: slot [p] holds a ray of depth [depth] that
    hit the geometry [geoms !! p] (a miss when that is -1), with pixel
    weight 1 and light path expression state 0. *)
Definition samplePool (depth : Z) (geoms : list Z) : Pool :=
  fun p => sampleRayState (default (-1)%Z (geoms !! p)) (Z.of_nat p) depth 1%Q 0%Z p.

(** Stale arena contents: every slot holds the entry a miss of ray state
    0 left behind. *)
Definition staleMisses : nat -> SortedEntry := fun _ => mkSortedEntry 0 0 None.

(** Stale arena contents with non-zero keys. *)
Definition staleHits : nat -> SortedEntry :=
  fun _ => mkSortedEntry 7 0 (Some (mkMaterial 7 70)).

(** The sample scene in which the cancellation check behind the miss run
    fires, and no other. *)
Definition sampleBundleSceneCancelled (vol : VolumeResult)
    (light : option (Light * nat * Z)) : BundleCollab :=
  let scene := sampleBundleScene vol light in
  mkBundleCollab (intersect scene) (computeRadianceVolume scene)
    (getIntersectionMaterial scene) (raySwitch scene) (lobeTypeToRayType scene)
    (intersectVisibleLight scene) (lightEval scene) (lightEventTransition scene)
    (bcReduceTransparency scene)
    (fun c => match c with AfterMisses => true | _ => false end).

(** A batch of seven primary rays: two misses, hits on materials 3 and 1,
    and one hit on the geometry without material. *)
Definition samplePrimaryBatch : Pool := samplePool 0 [-1; -1; 3; 1; 9; 3; 1]%Z.


(** A [FORCE_NOT_OCCLUDED] ray with radiance (1/2, 1/4, 1) that owns
    deep data and cryptomatte data. *)
Definition forcedWithHandles : BundledOcclRay :=
  sampleOcclRay FORCE_NOT_OCCLUDED 4 (mkColor (1 # 2) (1 # 4) 1)%Q (5 # 2)%Q
    nullHandle (handle 2) (handle 3).

(** A frame with AOVs, 65536 light samples and 65536 lights: the product
    does not fit an [int]. *)
Definition withManyLightSamples : BundleFrameState :=
  mkBundleFrameState false false 65536%Z 65536%Z.

(** * Properties *)

Section PartitionFacts.
Context {A : Type} (pred : A -> bool).

Lemma insert_replaces_perm (a : list A) (j : nat) (x y : A) :
  a !! j = Some y -> y :: <[j := x]> a ≡ₚ x :: a.
Proof.
  revert j; induction a as [|z a IH]; intros [|j] Hj; simpl in *; try discriminate.
  - injection Hj as ->. apply perm_swap.
  - rewrite perm_swap, (IH _ Hj). apply perm_swap.
Qed.

Lemma iter_swap_perm (a : list A) (i j : nat) : iter_swap a i j ≡ₚ a.
Proof.
  unfold iter_swap.
  destruct (a !! i) as [x|] eqn:Hi; [|reflexivity].
  destruct (a !! j) as [y|] eqn:Hj; [|reflexivity].
  destruct (decide (i = j)) as [->|Hne].
  - assert (x = y) as -> by congruence.
    rewrite list_insert_insert_eq, list_insert_id; done.
  - apply (Permutation_cons_inv (a := x)).
    rewrite insert_replaces_perm.
    + apply insert_replaces_perm. done.
    + rewrite list_lookup_insert_ne by done. done.
Qed.

Lemma iter_swap_length (a : list A) (i j : nat) : length (iter_swap a i j) = length a.
Proof.
  unfold iter_swap. destruct (a !! i), (a !! j); rewrite ?length_insert; done.
Qed.

Lemma iter_swap_lookup (a : list A) (i j : nat) (x y : A) :
  a !! i = Some x -> a !! j = Some y -> i <> j ->
  iter_swap a i j !! i = Some y /\ iter_swap a i j !! j = Some x /\
  (forall k, k <> i -> k <> j -> iter_swap a i j !! k = a !! k).
Proof.
  intros Hi Hj Hne. unfold iter_swap. rewrite Hi, Hj.
  assert (i < length a) by (eapply lookup_lt_Some; done).
  assert (j < length a) by (eapply lookup_lt_Some; done).
  split; [|split].
  - rewrite list_lookup_insert_eq; [done|]. rewrite length_insert. done.
  - rewrite list_lookup_insert_ne by done. rewrite list_lookup_insert_eq; done.
  - intros k Hki Hkj. rewrite !list_lookup_insert_ne by done. done.
Qed.

Lemma advanceFirst_spec (a : list A) (n first : nat) :
  first + n <= length a ->
  let f := advanceFirst pred a first n in
  first <= f <= first + n /\
  (forall k x, first <= k < f -> a !! k = Some x -> pred x = true) /\
  (f < first + n -> exists x, a !! f = Some x /\ pred x = false).
Proof.
  revert first; induction n as [|n IH]; intros first Hlen; simpl.
  - split; [lia|]. split; intros; lia.
  - destruct (a !! first) as [x|] eqn:Hx.
    2:{ apply lookup_ge_None in Hx. lia. }
    destruct (pred x) eqn:Hp.
    + specialize (IH (S first) ltac:(lia)). simpl in IH.
      destruct IH as (Hr & Hall & Hstop).
      split; [lia|]. split.
      * intros k y Hk Hy. destruct (decide (k = first)) as [->|].
        -- congruence.
        -- apply (Hall k y); [lia|done].
      * intros Hlt. apply Hstop. lia.
    + split; [lia|]. split; [intros; lia|]. intros _. eauto.
Qed.

Lemma retreatLast_spec (a : list A) (d first : nat) :
  first + d < length a ->
  let l := retreatLast pred a first d in
  first <= l <= first + d /\
  (forall k x, l < k <= first + d -> a !! k = Some x -> pred x = false) /\
  (first < l -> exists x, a !! l = Some x /\ pred x = true).
Proof.
  induction d as [|d IH]; intros Hlen; simpl.
  - split; [lia|]. split; intros; lia.
  - destruct (a !! (first + S d)) as [x|] eqn:Hx.
    2:{ apply lookup_ge_None in Hx. lia. }
    destruct (pred x) eqn:Hp.
    + split; [lia|]. split; [intros; lia|]. intros _. eauto.
    + specialize (IH ltac:(lia)). simpl in IH.
      destruct IH as (Hr & Hall & Hstop).
      split; [lia|]. split.
      * intros k y Hk Hy. destruct (decide (k = first + S d)) as [->|].
        -- congruence.
        -- apply (Hall k y); [lia|done].
      * done.
Qed.


Lemma partitionLoop_spec (fuel : nat) : forall (a : list A) (first last : nat),
  first <= last <= length a ->
  last - first <= fuel ->
  (forall i x, i < first -> a !! i = Some x -> pred x = true) ->
  (forall i x, last <= i -> a !! i = Some x -> pred x = false) ->
  let r := partitionLoop pred fuel a first last in
  r.1 ≡ₚ a /\ length r.1 = length a /\ r.2 <= length a /\ partitioned pred r.1 r.2.
Proof.
  induction fuel as [|fuel IH]; intros a first last Hr Hfuel Hlo Hhi; simpl.
  - assert (first = last) as -> by lia.
    split; [done|]. split; [done|]. split; [lia|]. split; done.
  - pose proof (advanceFirst_spec a (last - first) first ltac:(lia)) as Haf.
    simpl in Haf. set (f := advanceFirst pred a first (last - first)) in *.
    destruct Haf as (Hfr & Hfall & Hfstop).
    assert (Hlo' : forall i x, i < f -> a !! i = Some x -> pred x = true).
    { intros i x Hi Hx. destruct (decide (i < first)); [eauto|].
      apply (Hfall i x); [lia|done]. }
    destruct (decide (f = last)) as [->|Hfl].
    { simpl. split; [done|]. split; [done|]. split; [lia|]. split; done. }
    destruct (Hfstop ltac:(lia)) as (xf & Hxf & Hpf).
    pose proof (retreatLast_spec a (last - 1 - f) f ltac:(lia)) as Hrl.
    simpl in Hrl. set (l := retreatLast pred a f (last - 1 - f)) in *.
    destruct Hrl as (Hlr & Hlall & Hlstop).
    assert (Hhi' : forall i x, l < i -> a !! i = Some x -> pred x = false).
    { intros i x Hi Hx. destruct (decide (last <= i)); [eauto|].
      apply (Hlall i x); [lia|done]. }
    destruct (decide (f = l)) as [Hfl'|Hfl'].
    { simpl. split; [done|]. split; [done|]. split; [lia|]. split; [done|].
      intros i x Hi Hx. destruct (decide (i = f)) as [->|]; [congruence|].
      apply (Hhi' i x); [lia|done]. }
    destruct (Hlstop ltac:(lia)) as (xl & Hxl & Hpl).
    destruct (iter_swap_lookup a f l xf xl Hxf Hxl Hfl') as (Hsf & Hsl & Hsk).
    pose proof (iter_swap_length a f l) as Hslen.
    specialize (IH (iter_swap a f l) (S f) l).
    destruct IH as (Hperm & Hlen & Hk & Hpart).
    + lia.
    + lia.
    + intros i x Hi Hx. destruct (decide (i = f)) as [->|]; [congruence|].
      rewrite Hsk in Hx by lia. apply (Hlo' i x); [lia|done].
    + intros i x Hi Hx. destruct (decide (i = l)) as [->|]; [congruence|].
      rewrite Hsk in Hx by lia. apply (Hhi' i x); [lia|done].
    + split; [by rewrite Hperm, iter_swap_perm|].
      split; [lia|]. split; [lia|done].
Qed.

Lemma std_partition_spec (a : list A) :
  let r := std_partition pred a in
  r.1 ≡ₚ a /\ length r.1 = length a /\ r.2 <= length a /\
  Forall (fun x => pred x = true) (take r.2 r.1) /\
  Forall (fun x => pred x = false) (drop r.2 r.1).
Proof.
  unfold std_partition.
  destruct (partitionLoop_spec (length a) a 0 (length a)) as (Hp & Hl & Hk & Hlo & Hhi).
  - lia.
  - lia.
  - intros; lia.
  - intros i x Hi Hx. apply lookup_lt_Some in Hx. lia.
  - simpl. split; [done|]. split; [done|]. split; [done|]. split.
    + apply Forall_lookup. intros i x Hx.
      pose proof (lookup_lt_Some _ _ _ Hx) as Hlt. rewrite length_take in Hlt.
      rewrite lookup_take_lt in Hx by lia. apply (Hlo i x); [lia|done].
    + apply Forall_lookup. intros i x Hx.
      rewrite lookup_drop in Hx. eapply Hhi; [|exact Hx]. lia.
Qed.

End PartitionFacts.

Section ForEachFacts.
Context {St A : Type}.

Lemma forEach_inv (body : nat -> A -> St -> option St) (I : nat -> St -> Prop)
    (xs : list A) : forall (i : nat) (s : St),
  I i s ->
  (forall j x s, xs !! (j - i) = Some x -> i <= j -> I j s ->
     exists s', body j x s = Some s' /\ I (S j) s') ->
  exists s', forEach body i xs s = Some s' /\ I (i + length xs) s'.
Proof.
  induction xs as [|x xs IH]; intros i s HI Hbody; simpl.
  - exists s. rewrite Nat.add_0_r. done.
  - destruct (Hbody i x s) as (s1 & -> & HI1); [by rewrite Nat.sub_diag| lia | done |].
    destruct (IH (S i) s1 HI1) as (s' & Hs' & HI').
    + intros j y t Hy Hj Ht. apply Hbody; [|lia|done].
      replace (j - i) with (S (j - S i)) by lia. done.
    + exists s'. split; [done|]. replace (i + S (length xs)) with (S i + length xs) by lia. done.
Qed.

Lemma forEach_Some_each (body : nat -> A -> St -> option St) (xs : list A) :
  forall (i : nat) (s s' : St),
  forEach body i xs s = Some s' ->
  forall j x, xs !! j = Some x -> exists s1 s2, body (i + j) x s1 = Some s2.
Proof.
  induction xs as [|y xs IH]; intros i s s' Hrun j x Hx; [done|].
  simpl in Hrun. destruct (body i y s) as [s1|] eqn:Hb; [|done].
  destruct j as [|j]; simpl in Hx.
  - simplify_eq. rewrite Nat.add_0_r. by exists s, s1.
  - destruct (IH _ _ _ Hrun j x Hx) as (t1 & t2 & Ht).
    exists t1, t2. by rewrite Nat.add_succ_r.
Qed.
End ForEachFacts.

Section ResolverFacts.
Context {F : Type} {FO : FloatOps F}.
Variable W : @Collab F.
Variable fs : FrameState.

Lemma storeResult_Some idx r (m : @Machine F) :
  idx < length (mResults m) ->
  storeResult idx r m = Some (mkMachine (<[idx := Some r]> (mResults m)) (mLog m)).
Proof. intros H. unfold storeResult. case_decide; [done|lia]. Qed.

Lemma filledUpTo_store k r (m : @Machine F) l :
  filledUpTo k m -> k < length (mResults m) ->
  filledUpTo (S k) (mkMachine (<[k := Some r]> (mResults m)) l).
Proof.
  intros [Hk Hf] Hlt. split; simpl.
  - rewrite length_insert. lia.
  - intros j Hj. destruct (decide (j = k)) as [->|].
    + exists r. by rewrite list_lookup_insert_eq.
    + rewrite list_lookup_insert_ne by done. apply Hf. lia.
Qed.

Lemma filledUpTo_log k (m : @Machine F) l :
  filledUpTo k m -> filledUpTo k (mkMachine (mResults m) l).
Proof. done. Qed.


Lemma unoccludedBranch_ok cap k ray n m :
  length (mResults m) = cap -> filledUpTo k m -> k < cap ->
  stepOk cap k n (unoccludedBranch W k ray n m).
Proof.
  intros Hc Hf Hk. unfold unoccludedBranch.
  rewrite storeResult_Some by lia.
  assert (filledUpTo (k + (S n - n)) (mkMachine (<[k := Some (fillBundledRadiance W
     (setRadiance ray (cmul (mRadiance ray) (getTransmittance W ray))))]> (mResults m)) (mLog m))).
  { replace (k + (S n - n)) with (S k) by lia. apply filledUpTo_store; [done|lia]. }
  case_decide; eexists _, _; (split; [done|]); (split; [lia|]); simpl;
    rewrite length_insert; split; done.
Qed.

Lemma occludedBranch_ok cap k ray n m :
  length (mResults m) = cap -> filledUpTo k m -> k < cap ->
  stepOk cap k n (occludedBranch W fs k ray n m).
Proof.
  intros Hc Hf Hk. unfold occludedBranch.
  case_decide.
  - destruct (insideClearRadiusFalloff _ _).
    + rewrite storeResult_Some by lia.
      eexists _, _; split; [done|]. split; [lia|].
      replace (k + (S n - n)) with (S k) by lia.
      split; [destruct (hasLpePrefixUnoccluded fs); simpl; by rewrite length_insert|].
      destruct (hasLpePrefixUnoccluded fs); simpl; apply filledUpTo_store; (done || lia).
    + eexists _, _; split; [done|]. split; [lia|].
      replace (k + (n - n)) with k by lia.
      destruct (hasLpePrefixUnoccluded fs); simpl; done.
  - eexists _, _; split; [done|]. split; [lia|].
    replace (k + (n - n)) with k by lia. done.
Qed.

Lemma forcedBranch_ok cap k ray m :
  length (mResults m) = cap -> filledUpTo k m -> k < cap ->
  exists m', forcedBranch W k ray m = Some m' /\
    length (mResults m') = cap /\ filledUpTo (S k) m'.
Proof.
  intros Hc Hf Hk. unfold forcedBranch.
  rewrite storeResult_Some by lia.
  case_decide; eexists; (split; [done|]); simpl; rewrite length_insert;
    (split; [done|]); apply filledUpTo_store; (done || lia).
Qed.

Lemma freeListIfSet_results ray (m : @Machine F) :
  mResults (freeListIfSet ray m) = mResults m.
Proof. unfold freeListIfSet. case_decide; done. Qed.

Lemma areSingleRaysOccluded_body_ok cap base i ray n m :
  mOcclTestType ray = STANDARD ->
  length (mResults m) = cap -> filledUpTo (base + n) m -> base + n < cap ->
  stepOk cap (base + n) n (areSingleRaysOccluded_body W fs base i ray (n, m)).
Proof.
  intros Hstd Hc Hf Hk. unfold areSingleRaysOccluded_body.
  rewrite decide_False by (by intros Hne).
  set (m1 := logEv _ m).
  assert (Hc1 : length (mResults m1) = cap) by done.
  assert (Hf1 : filledUpTo (base + n) m1) by done.
  destruct (negb _ || _).
  - destruct (unoccludedBranch_ok cap (base + n) ray n m1 Hc1 Hf1 Hk)
      as (n' & m' & -> & Hn & Hc' & Hf').
    eexists _, _; split; [done|]. split; [done|]. simpl.
    rewrite freeListIfSet_results. split; [done|].
    destruct Hf'. split; simpl; rewrite freeListIfSet_results; done.
  - destruct (occludedBranch_ok cap (base + n) ray n m1 Hc1 Hf1 Hk)
      as (n' & m' & -> & Hn & Hc' & Hf').
    eexists _, _; split; [done|]. split; [done|]. simpl.
    rewrite freeListIfSet_results. split; [done|].
    destruct Hf'. split; simpl; rewrite freeListIfSet_results; done.
Qed.

Lemma areSingleRaysOccluded_ok cap base entries m :
  Forall (fun r => mOcclTestType r = STANDARD) entries ->
  length (mResults m) = cap -> filledUpTo base m -> base + length entries <= cap ->
  exists n m', areSingleRaysOccluded W fs base entries m = Some (n, m') /\
    n <= length entries /\ length (mResults m') = cap /\ filledUpTo (base + n) m'.
Proof.
  intros Hstd Hc Hf Hk. unfold areSingleRaysOccluded.
  destruct (forEach_inv (areSingleRaysOccluded_body W fs base)
    (fun i s => s.1 <= i /\ length (mResults s.2) = cap /\ filledUpTo (base + s.1) s.2)
    entries 0 (0, m)) as ([n m'] & Hs & Hn & Hc' & Hf').
  - simpl. rewrite Nat.add_0_r. done.
  - intros j ray [n m1] Hx _ (Hn & Hc1 & Hf1). simpl in Hn, Hc1, Hf1.
    pose proof (proj1 (Forall_lookup _ _) Hstd _ _ Hx) as Hs.
    apply lookup_lt_Some in Hx.
    destruct (areSingleRaysOccluded_body_ok cap base j ray n m1 Hs Hc1 Hf1 ltac:(lia))
      as (n' & m' & -> & Hn' & Hc' & Hf').
    eexists; split; [done|]. simpl. split; [lia|]. split; [done|].
    destruct Hn' as [? ?]. destruct (decide (n' = n)) as [->|].
    + by replace (base + n + (n - n)) with (base + n) in Hf' by lia.
    + replace (base + n + (n' - n)) with (base + n') in Hf' by lia. done.
  - exists n, m'. simpl in *. done.
Qed.


Lemma forceSingleRaysUnoccluded_ok cap base entries m :
  Forall (fun r => mOcclTestType r = FORCE_NOT_OCCLUDED) entries ->
  length (mResults m) = cap -> filledUpTo base m -> base + length entries <= cap ->
  exists m', forceSingleRaysUnoccluded W base entries m = Some (length entries, m') /\
    length (mResults m') = cap /\ filledUpTo (base + length entries) m'.
Proof.
  intros Hforce Hc Hf Hk. unfold forceSingleRaysUnoccluded.
  destruct (forEach_inv (forceSingleRaysUnoccluded_body W base)
    (fun i s => length (mResults s) = cap /\ filledUpTo (base + i) s)
    entries 0 m) as (m' & -> & Hc' & Hf').
  - rewrite Nat.add_0_r. done.
  - intros j ray m1 Hx _ (Hc1 & Hf1).
    pose proof (proj1 (Forall_lookup _ _) Hforce _ _ Hx) as Hs.
    apply lookup_lt_Some in Hx.
    unfold forceSingleRaysUnoccluded_body.
    rewrite decide_False by (by intros Hne).
    destruct (forcedBranch_ok cap (base + j) ray m1 Hc1 Hf1 ltac:(lia))
      as (m' & -> & Hc' & Hf').
    eexists; split; [done|]. simpl. rewrite freeListIfSet_results.
    split; [done|]. replace (base + S j) with (S (base + j)) by lia.
    destruct Hf'. split; simpl; rewrite freeListIfSet_results; done.
  - eexists; split; [done|]. done.
Qed.

Lemma computeOcclusionQueriesBundled_ok entries m :
  length entries <= length (mResults m) -> filledUpTo 0 m ->
  exists n m' entries',
    computeOcclusionQueriesBundled W fs entries m = Some (n, m', entries') /\
    n <= length entries /\ length (mResults m') = length (mResults m) /\
    filledUpTo n m'.
Proof.
  intros Hc Hf. unfold computeOcclusionQueriesBundled.
  pose proof (std_partition_spec isStandard entries) as (_ & Hlen & Hk & Hlo & Hhi).
  destruct (std_partition isStandard entries) as [entries' k].
  simpl in Hlen, Hk, Hlo, Hhi.
  assert (Hstd : Forall (fun r => mOcclTestType r = STANDARD) (take k entries')).
  { eapply Forall_impl; [exact Hlo|]. intros r Hr.
    unfold isStandard in Hr. by apply bool_decide_eq_true in Hr. }
  assert (Hforce : Forall (fun r => mOcclTestType r = FORCE_NOT_OCCLUDED)
                     (drop k entries')).
  { eapply Forall_impl; [exact Hhi|]. intros r Hr.
    unfold isStandard in Hr. apply bool_decide_eq_false in Hr.
    by destruct (mOcclTestType r). }
  destruct (areSingleRaysOccluded_ok (length (mResults m)) 0 (take k entries') m Hstd)
    as (n1 & m1 & Hs1 & Hn1 & Hc1 & Hf1); [done|done|rewrite length_take; lia|].
  rewrite length_take in Hn1. simpl in Hf1.
  assert (exists base m2, (if decide (k <> 0)
      then match areSingleRaysOccluded W fs 0 (take k entries') m with
           | Some (numRadiancesFilled, m0) =>
               Some (0 + numRadiancesFilled, 0 + numRadiancesFilled, m0)
           | None => None
           end
      else Some (0, 0, m)) = Some (base, base, m2) /\ base <= k /\
      length (mResults m2) = length (mResults m) /\ filledUpTo base m2)
    as (base & m2 & -> & Hb & Hc2 & Hf2).
  { case_decide.
    - rewrite Hs1. exists n1, m1. split; [done|]. split; [lia|]. done.
    - exists 0, m. split; [done|]. split; [lia|]. done. }
  case_decide.
  - destruct (forceSingleRaysUnoccluded_ok (length (mResults m)) base (drop k entries') m2
                Hforce)
      as (m3 & -> & Hc3 & Hf3); [done|done|rewrite length_drop; lia|].
    rewrite length_drop in *. eexists _, _, _; split; [done|].
    split; [lia|]. done.
  - eexists _, _, _; split; [done|]. split; [lia|]. done.
Qed.

Lemma presence_body_ok cap i ray n m :
  length (mResults m) = cap -> filledUpTo n m -> n < cap ->
  exists m', computePresenceShadowsQueriesBundled_body W fs i ray (n, m) = Some (S n, m') /\
    length (mResults m') = cap /\ filledUpTo (S n) m'.
Proof.
  intros Hc Hf Hk. unfold computePresenceShadowsQueriesBundled_body.
  rewrite storeResult_Some by lia.
  eexists; split; [done|]. simpl. rewrite length_insert. split; [done|].
  apply filledUpTo_store; (done || lia).
Qed.

Lemma computePresenceShadowsQueriesBundled_ok entries m :
  length entries <= length (mResults m) -> filledUpTo 0 m ->
  exists m', computePresenceShadowsQueriesBundled W fs entries m
               = Some (length entries, m') /\
    length (mResults m') = length (mResults m) /\ filledUpTo (length entries) m'.
Proof.
  intros Hc Hf. unfold computePresenceShadowsQueriesBundled.
  case_decide as Hz.
  { rewrite Hz. exists m. done. }
  destruct (forEach_inv (computePresenceShadowsQueriesBundled_body W fs)
    (fun i s => s.1 = i /\ length (mResults s.2) = length (mResults m) /\ filledUpTo i s.2)
    entries 0 (0, m)) as ([n m'] & -> & Hn & Hc' & Hf').
  - done.
  - intros j ray [n m1] Hx _ (Hn & Hc1 & Hf1). simpl in Hn, Hc1, Hf1. subst n.
    apply lookup_lt_Some in Hx.
    destruct (presence_body_ok _ j ray j m1 Hc1 Hf1 ltac:(lia)) as (m' & -> & Hc' & Hf').
    eexists; split; [done|]. done.
  - simpl in *. subst n. exists m'. done.
Qed.

Lemma computeXPUOcclusionQueriesOnGPU_body_ok cap isOccluded i ray n m :
  length (mResults m) = cap -> filledUpTo n m -> n < cap ->
  stepOk cap n n (computeXPUOcclusionQueriesOnGPU_body W fs isOccluded i ray (n, m)).
Proof.
  intros Hc Hf Hk. unfold computeXPUOcclusionQueriesOnGPU_body.
  assert (Hfin : forall r, stepOk cap n n r ->
    stepOk cap n n (match r with
      | Some (numRadiancesFilled, m0) =>
          Some (numRadiancesFilled,
                logEv (EvReleaseDeepData (mDeepDataHandle ray)) (freeListIfSet ray m0))
      | None => None end)).
  { intros r (n' & m' & -> & Hn & Hc' & Hf').
    eexists _, _; split; [done|]. split; [done|]. simpl.
    rewrite freeListIfSet_results. split; [done|].
    destruct Hf'. split; simpl; rewrite freeListIfSet_results; done. }
  apply Hfin. case_decide.
  - destruct (forcedBranch_ok cap n ray m Hc Hf Hk) as (m' & -> & Hc' & Hf').
    eexists _, _; split; [done|]. split; [lia|]. split; [done|].
    by replace (n + (S n - n)) with (S n) by lia.
  - destruct (negb _ || _).
    + by apply unoccludedBranch_ok.
    + by apply occludedBranch_ok.
Qed.

Lemma computeXPUOcclusionQueriesOnGPU_ok rays m :
  length rays <= length (mResults m) -> filledUpTo 0 m ->
  exists n m', computeXPUOcclusionQueriesOnGPU W fs rays m = Some (n, m') /\
    n <= length rays /\ length (mResults m') = length (mResults m) /\ filledUpTo n m'.
Proof.
  intros Hc Hf. unfold computeXPUOcclusionQueriesOnGPU.
  destruct (forEach_inv (computeXPUOcclusionQueriesOnGPU_body W fs (gpuOcclusionBuf W rays))
    (fun i s => s.1 <= i /\ length (mResults s.2) = length (mResults m) /\ filledUpTo s.1 s.2)
    rays 0 (0, logEv (EvThreadsUsingGPU (-1))
                 (logEv (EvGpuOccluded (length rays)) (logEv (EvThreadsUsingGPU 1) m))))
    as ([n m'] & Hs & Hn & Hc' & Hf').
  - done.
  - intros j ray [n m1] Hx _ (Hn & Hc1 & Hf1). simpl in Hn, Hc1, Hf1.
    apply lookup_lt_Some in Hx.
    destruct (computeXPUOcclusionQueriesOnGPU_body_ok _ (gpuOcclusionBuf W rays) j ray n m1
                Hc1 Hf1 ltac:(lia)) as (n' & m' & -> & Hn' & Hc' & Hf').
    eexists; split; [done|]. simpl. split; [lia|]. split; [done|].
    destruct Hn' as [? ?]. destruct (decide (n' = n)) as [->|].
    + by replace (n + (n - n)) with n in Hf' by lia.
    + by replace (n + (n' - n)) with n' in Hf' by lia.
  - exists n, m'. simpl in *. done.
Qed.

Lemma finishOcclusionHandler_ok canceled numEntries n (m : @Machine F) :
  n <= numEntries -> filledUpTo n m ->
  exists m', finishOcclusionHandler canceled numEntries (Some (n, m)) = Some (n, m') /\
    mResults m' = mResults m.
Proof.
  intros Hn [Hk Hf]. unfold finishOcclusionHandler.
  case_decide; [|lia]. destruct canceled; [by eexists|].
  assert (is_Some (mapM id (take n (mResults m)))) as [filled ->].
  { apply mapM_is_Some, Forall_lookup. intros j x Hx.
    pose proof (lookup_lt_Some _ _ _ Hx) as Hlt. rewrite length_take in Hlt.
    rewrite lookup_take_lt in Hx by lia.
    destruct (Hf j ltac:(lia)) as (r & Hr). rewrite Hr in Hx. simplify_eq. by eexists. }
  by eexists.
Qed.

Lemma allocResults_filled numEntries (log : list (@Event F)) :
  filledUpTo 0 (allocResults numEntries log).
Proof. split; [lia|]. intros; lia. Qed.

Lemma allocResults_length numEntries (log : list (@Event F)) :
  length (mResults (allocResults numEntries log)) = numEntries.
Proof. simpl. by rewrite length_replicate. Qed.

(** C10.  Each of the three bundle handlers allocates [results] with one
    slot per input ray and runs its resolver on it.  The resolver never
    stores outside the allocation, the number of radiances it reports
    never exceeds the number of input rays, the assertion
    [numRadiancesFilled <= numEntries] holds, and every slot of the queued
    prefix has been written: the handler returns, whatever the batch. *)
Theorem bundle_handlers_fill_at_most_numEntries
    (canceled : bool) (entries : list BundledOcclRay) (log : list Event) :
  (exists n m, occlusionQueryBundleHandler W fs canceled entries log = Some (n, m) /\
     n <= length entries /\ length (mResults m) = length entries) /\
  (exists n m, presenceShadowsQueryBundleHandler W fs canceled entries log = Some (n, m) /\
     n <= length entries /\ length (mResults m) = length entries) /\
  (exists n m, xpuOcclusionQueryBundleHandler W fs canceled entries log = Some (n, m) /\
     n <= length entries /\ length (mResults m) = length entries).
Proof.
  pose proof (allocResults_filled (length entries) log) as Hf.
  pose proof (allocResults_length (length entries) log) as Hc.
  split; [|split].
  - unfold occlusionQueryBundleHandler.
    destruct (computeOcclusionQueriesBundled_ok entries _ ltac:(rewrite Hc; lia) Hf)
      as (n & m' & e' & -> & Hn & Hc' & Hf').
    cbn -[finishOcclusionHandler].
    destruct (finishOcclusionHandler_ok canceled (length entries) n m' Hn Hf')
      as (m'' & -> & Hr).
    exists n, m''. split; [done|]. split; [done|]. rewrite Hr, Hc'. done.
  - unfold presenceShadowsQueryBundleHandler.
    destruct (computePresenceShadowsQueriesBundled_ok entries _ ltac:(rewrite Hc; lia) Hf)
      as (m' & -> & Hc' & Hf').
    destruct (finishOcclusionHandler_ok canceled (length entries) _ m' (le_n _) Hf')
      as (m'' & -> & Hr).
    eexists _, m''. split; [done|]. split; [done|]. rewrite Hr, Hc'. done.
  - unfold xpuOcclusionQueryBundleHandler.
    destruct (computeXPUOcclusionQueriesOnGPU_ok entries _ ltac:(rewrite Hc; lia) Hf)
      as (n & m' & -> & Hn & Hc' & Hf').
    destruct (finishOcclusionHandler_ok canceled (length entries) n m' Hn Hf')
      as (m'' & -> & Hr).
    exists n, m''. split; [done|]. split; [done|]. rewrite Hr, Hc'. done.
Qed.

End ResolverFacts.

Section ProjFacts.
Context {St A X : Type}.

Lemma forEach_proj (body : nat -> A -> St -> option St) (g : St -> list X)
    (h : A -> list X) (xs : list A) : forall (i : nat) (s s' : St),
  (forall j x s s', body j x s = Some s' -> g s' = g s ++ h x) ->
  forEach body i xs s = Some s' -> g s' = g s ++ flat_map h xs.
Proof.
  induction xs as [|x xs IH]; intros i s s' Hbody Hrun; simpl in *.
  - simplify_eq. by rewrite app_nil_r.
  - destruct (body i x s) as [s1|] eqn:Hb; [|done].
    rewrite (IH _ _ _ Hbody Hrun), (Hbody _ _ _ _ Hb), <- app_assoc. done.
Qed.

Lemma flat_map_singleton (f : A -> X) (xs : list A) :
  flat_map (fun x => [f x]) xs = map f xs.
Proof. induction xs; simpl; congruence. Qed.

Lemma flat_map_nil (xs : list A) : flat_map (fun _ => @nil X) xs = [].
Proof. induction xs; simpl; congruence. Qed.
End ProjFacts.

Section LogFacts.
Context {F : Type} {FO : FloatOps F}.
Variable W : @Collab F.
Variable fs : FrameState.

(* symbolic execution of one loop body found in hypothesis H *)
Ltac run_body H :=
  unfold areSingleRaysOccluded_body, forceSingleRaysUnoccluded_body,
    computeXPUOcclusionQueriesOnGPU_body, computePresenceShadowsQueriesBundled_body,
    unoccludedBranch, occludedBranch, forcedBranch, storeResult, freeListIfSet, logEv in H;
  repeat (first [case_decide | case_match]; simplify_eq);
  simpl in *.

Ltac proj_done :=
  unfold occlusionTests, freedLists, releasedDeepData, releasedCryptomatteData;
  rewrite ?omap_app; simpl; rewrite ?app_nil_r, <- ?app_assoc; simpl; done.

Lemma areSingleRaysOccluded_body_tests base i ray n m n' m' :
  areSingleRaysOccluded_body W fs base i ray (n, m) = Some (n', m') ->
  occlusionTests (mLog m') = occlusionTests (mLog m) ++ [mkOcclusionRtRay W ray].
Proof. intros H. run_body H; proj_done. Qed.

Lemma forceSingleRaysUnoccluded_body_tests base i ray m m' :
  forceSingleRaysUnoccluded_body W base i ray m = Some m' ->
  occlusionTests (mLog m') = occlusionTests (mLog m) ++ [].
Proof. intros H. run_body H; proj_done. Qed.

Lemma areSingleRaysOccluded_tests base entries m n m' :
  areSingleRaysOccluded W fs base entries m = Some (n, m') ->
  occlusionTests (mLog m') = occlusionTests (mLog m) ++ map (mkOcclusionRtRay W) entries.
Proof.
  intros H. unfold areSingleRaysOccluded in H.
  rewrite <- flat_map_singleton.
  apply (forEach_proj _ (fun s => occlusionTests (mLog s.2))
           (fun x => [mkOcclusionRtRay W x])) in H; [done|].
  intros j x [n1 m1] [n2 m2] Hb. simpl. by eapply areSingleRaysOccluded_body_tests.
Qed.

Lemma forceSingleRaysUnoccluded_tests base entries m n m' :
  forceSingleRaysUnoccluded W base entries m = Some (n, m') ->
  occlusionTests (mLog m') = occlusionTests (mLog m).
Proof.
  intros H. unfold forceSingleRaysUnoccluded in H.
  destruct (forEach _ _ _ _) as [m1|] eqn:Hf; [|done]. simplify_eq.
  apply (forEach_proj _ (fun s => occlusionTests (mLog s)) (fun _ => [])) in Hf.
  - by rewrite Hf, flat_map_nil, app_nil_r.
  - intros j x m1 m2 Hb. by eapply forceSingleRaysUnoccluded_body_tests.
Qed.

Lemma isStandard_true (r : @BundledOcclRay F) :
  isStandard r = true <-> mOcclTestType r = STANDARD.
Proof. unfold isStandard. by rewrite bool_decide_eq_true. Qed.

Lemma isStandard_false (r : @BundledOcclRay F) :
  isStandard r = false <-> mOcclTestType r = FORCE_NOT_OCCLUDED.
Proof.
  unfold isStandard. rewrite bool_decide_eq_false.
  destruct (mOcclTestType r); split; intros; congruence.
Qed.

(** C8, amended.  [computeOcclusionQueriesBundled] reorders the entry
    array in place so that all [STANDARD] rays precede all
    [FORCE_NOT_OCCLUDED] rays; the result is a permutation of the input
    (the relative order inside a class is not kept), and the occlusion
    tests issued to the accelerator are exactly those of the [STANDARD]
    rays, one each, in array order: none is issued for a
    [FORCE_NOT_OCCLUDED] ray. *)
Theorem partition_skips_forced_rays (entries : list BundledOcclRay) (log : list Event) :
  exists n m' entries' k,
    computeOcclusionQueriesBundled W fs entries (allocResults (length entries) log)
      = Some (n, m', entries') /\
    entries' ≡ₚ entries /\
    Forall (fun r => mOcclTestType r = STANDARD) (take k entries') /\
    Forall (fun r => mOcclTestType r = FORCE_NOT_OCCLUDED) (drop k entries') /\
    occlusionTests (mLog m')
      = occlusionTests log ++ map (mkOcclusionRtRay W) (take k entries').
Proof.
  destruct (computeOcclusionQueriesBundled_ok W fs entries
              (allocResults (length entries) log)) as (n & m' & entries' & Hrun & _).
  { by rewrite allocResults_length. }
  { apply allocResults_filled. }
  exists n, m', entries'. rewrite Hrun.
  unfold computeOcclusionQueriesBundled in Hrun.
  pose proof (std_partition_spec isStandard entries) as (Hperm & _ & _ & Hstd & Hno).
  destruct (std_partition isStandard entries) as [es k]. simpl in Hperm, Hstd, Hno.
  exists k.
  assert (Hes : entries' = es /\ occlusionTests (mLog m')
      = occlusionTests log ++ map (mkOcclusionRtRay W) (take k es)).
  { case_decide as Hk.
    - destruct (areSingleRaysOccluded _ _ _ _ _) as [[n1 m1]|] eqn:Hs; [|done].
      apply areSingleRaysOccluded_tests in Hs. simpl in Hs.
      case_decide.
      + destruct (forceSingleRaysUnoccluded _ _ _ _) as [[n2 m2]|] eqn:Hf; [|done].
        apply forceSingleRaysUnoccluded_tests in Hf. simplify_eq. by rewrite Hf.
      + by simplify_eq.
    - assert (k = 0) as -> by (destruct (decide (k = 0)); [done|contradiction]).
      rewrite take_0, app_nil_r.
      case_decide.
      + destruct (forceSingleRaysUnoccluded _ _ _ _) as [[n2 m2]|] eqn:Hf; [|done].
        apply forceSingleRaysUnoccluded_tests in Hf. simplify_eq. by rewrite Hf.
      + by simplify_eq. }
  destruct Hes as [-> Htests].
  split; [done|]. split; [done|]. split; [|split; [|done]].
  - eapply Forall_impl; [exact Hstd|]. intros r. apply isStandard_true.
  - eapply Forall_impl; [exact Hno|]. intros r. apply isStandard_false.
Qed.

(** *** Releases of the handles of an occlusion ray *)


Lemma areSingleRaysOccluded_releases base entries m n m' :
  areSingleRaysOccluded W fs base entries m = Some (n, m') ->
  freedLists (mLog m') = freedLists (mLog m) ++ sideDataToFree entries /\
  releasedDeepData (mLog m') = releasedDeepData (mLog m) ++ map mDeepDataHandle entries /\
  releasedCryptomatteData (mLog m')
    = releasedCryptomatteData (mLog m) ++ map mCryptomatteDataHandle entries.
Proof.
  intros H. unfold areSingleRaysOccluded in H.
  rewrite <- !flat_map_singleton. split; [|split].
  - apply (forEach_proj _ (fun s => freedLists (mLog s.2))
      (fun r => if decide (mDataPtrHandle r <> nullHandle)
                then [mDataPtrHandle r] else [])) in H; [done|].
    intros j x [n1 m1] [n2 m2] Hb. run_body Hb; proj_done.
  - apply (forEach_proj _ (fun s => releasedDeepData (mLog s.2))
      (fun r => [mDeepDataHandle r])) in H; [done|].
    intros j x [n1 m1] [n2 m2] Hb. run_body Hb; proj_done.
  - apply (forEach_proj _ (fun s => releasedCryptomatteData (mLog s.2))
      (fun r => [mCryptomatteDataHandle r])) in H; [done|].
    intros j x [n1 m1] [n2 m2] Hb. run_body Hb; proj_done.
Qed.

Lemma forceSingleRaysUnoccluded_releases base entries m n m' :
  forceSingleRaysUnoccluded W base entries m = Some (n, m') ->
  freedLists (mLog m') = freedLists (mLog m) ++ sideDataToFree entries /\
  releasedDeepData (mLog m') = releasedDeepData (mLog m) ++ map mDeepDataHandle entries /\
  releasedCryptomatteData (mLog m')
    = releasedCryptomatteData (mLog m) ++ map mCryptomatteDataHandle entries.
Proof.
  intros H. unfold forceSingleRaysUnoccluded in H.
  destruct (forEach _ _ _ _) as [m1|] eqn:Hf; [|done]. simplify_eq.
  rewrite <- !flat_map_singleton. split; [|split].
  - apply (forEach_proj _ (fun s => freedLists (mLog s))
      (fun r => if decide (mDataPtrHandle r <> nullHandle)
                then [mDataPtrHandle r] else [])) in Hf; [done|].
    intros j x m1 m2 Hb. run_body Hb; proj_done.
  - apply (forEach_proj _ (fun s => releasedDeepData (mLog s))
      (fun r => [mDeepDataHandle r])) in Hf; [done|].
    intros j x m1 m2 Hb. run_body Hb; proj_done.
  - apply (forEach_proj _ (fun s => releasedCryptomatteData (mLog s))
      (fun r => [mCryptomatteDataHandle r])) in Hf; [done|].
    intros j x m1 m2 Hb. run_body Hb; proj_done.
Qed.

(** The CPU resolver releases the three handles of every ray once, in the
    order in which the partitioned array is walked. *)
Lemma computeOcclusionQueriesBundled_releases entries m n m' entries' :
  computeOcclusionQueriesBundled W fs entries m = Some (n, m', entries') ->
  freedLists (mLog m') = freedLists (mLog m) ++ sideDataToFree entries' /\
  releasedDeepData (mLog m') = releasedDeepData (mLog m) ++ map mDeepDataHandle entries' /\
  releasedCryptomatteData (mLog m')
    = releasedCryptomatteData (mLog m) ++ map mCryptomatteDataHandle entries'.
Proof.
  unfold computeOcclusionQueriesBundled.
  pose proof (std_partition_spec isStandard entries) as (_ & _ & Hk & _).
  destruct (std_partition isStandard entries) as [es k]. simpl in Hk.
  intros Hrun.
  assert (Hsplit : es = take k es ++ drop k es) by (by rewrite take_drop).
  assert (Hside : forall l1 l2 : list (@BundledOcclRay F),
    sideDataToFree (l1 ++ l2) = sideDataToFree l1 ++ sideDataToFree l2).
  { intros. unfold sideDataToFree. by rewrite flat_map_app. }
  case_decide as Hk0.
  - destruct (areSingleRaysOccluded _ _ _ _ _) as [[n1 m1]|] eqn:Hs; [|done].
    apply areSingleRaysOccluded_releases in Hs as (Hs1 & Hs2 & Hs3).
    case_decide as Hn0.
    + destruct (forceSingleRaysUnoccluded _ _ _ _) as [[n2 m2]|] eqn:Hf; [|done].
      apply forceSingleRaysUnoccluded_releases in Hf as (Hf1 & Hf2 & Hf3).
      simplify_eq. rewrite Hf1, Hf2, Hf3, Hs1, Hs2, Hs3, <- !app_assoc.
      rewrite <- Hside, <- !map_app, <- Hsplit. done.
    + simplify_eq. assert (drop k entries' = []) as Hd.
      { apply length_zero_iff_nil. rewrite length_drop. lia. }
      rewrite Hd, app_nil_r in Hsplit. rewrite Hs1, Hs2, Hs3, <- Hsplit. done.
  - assert (k = 0) as -> by (destruct (decide (k = 0)); [done|contradiction]).
    rewrite drop_0 in Hrun. case_decide as Hn0.
    + destruct (forceSingleRaysUnoccluded _ _ _ _) as [[n2 m2]|] eqn:Hf; [|done].
      apply forceSingleRaysUnoccluded_releases in Hf. by simplify_eq.
    + simplify_eq. rewrite Nat.sub_0_r in Hn0.
      assert (entries' = []) as ->.
      { apply length_zero_iff_nil. lia. }
      simpl. by rewrite !app_nil_r.
Qed.

(** The GPU resolver frees the side-data list and releases the deep data
    of every ray, and never calls [releaseCryptomatteData]. *)
Lemma computeXPUOcclusionQueriesOnGPU_releases rays m n m' :
  computeXPUOcclusionQueriesOnGPU W fs rays m = Some (n, m') ->
  freedLists (mLog m') = freedLists (mLog m) ++ sideDataToFree rays /\
  releasedDeepData (mLog m') = releasedDeepData (mLog m) ++ map mDeepDataHandle rays /\
  releasedCryptomatteData (mLog m') = releasedCryptomatteData (mLog m).
Proof.
  intros H. unfold computeXPUOcclusionQueriesOnGPU in H.
  rewrite <- !flat_map_singleton. split; [|split].
  - apply (forEach_proj _ (fun s => freedLists (mLog s.2))
      (fun r => if decide (mDataPtrHandle r <> nullHandle)
                then [mDataPtrHandle r] else [])) in H.
    + simpl in H. rewrite H. unfold freedLists. rewrite !omap_app. simpl.
      by rewrite !app_nil_r.
    + intros j x [n1 m1] [n2 m2] Hb. run_body Hb; proj_done.
  - apply (forEach_proj _ (fun s => releasedDeepData (mLog s.2))
      (fun r => [mDeepDataHandle r])) in H.
    + simpl in H. rewrite H. unfold releasedDeepData. rewrite !omap_app. simpl.
      by rewrite !app_nil_r.
    + intros j x [n1 m1] [n2 m2] Hb. run_body Hb; proj_done.
  - apply (forEach_proj _ (fun s => releasedCryptomatteData (mLog s.2))
      (fun r => [])) in H.
    + simpl in H. rewrite H, flat_map_nil. unfold releasedCryptomatteData.
      rewrite !omap_app. simpl. by rewrite !app_nil_r.
    + intros j x [n1 m1] [n2 m2] Hb. run_body Hb; proj_done.
Qed.

(** The presence resolver frees the side-data list and releases the
    cryptomatte data of every ray, and never calls [releaseDeepData]. *)
Lemma computePresenceShadowsQueriesBundled_releases entries m n m' :
  computePresenceShadowsQueriesBundled W fs entries m = Some (n, m') ->
  freedLists (mLog m') = freedLists (mLog m) ++ map mDataPtrHandle entries /\
  releasedDeepData (mLog m') = releasedDeepData (mLog m) /\
  releasedCryptomatteData (mLog m')
    = releasedCryptomatteData (mLog m) ++ map mCryptomatteDataHandle entries.
Proof.
  intros H. unfold computePresenceShadowsQueriesBundled in H.
  case_decide as Hz.
  { apply length_zero_iff_nil in Hz. simplify_eq. simpl. by rewrite !app_nil_r. }
  rewrite <- !flat_map_singleton. split; [|split].
  - apply (forEach_proj _ (fun s => freedLists (mLog s.2))
      (fun r => [mDataPtrHandle r])) in H; [done|].
    intros j x [n1 m1] [n2 m2] Hb. run_body Hb; proj_done.
  - apply (forEach_proj _ (fun s => releasedDeepData (mLog s.2))
      (fun r => [])) in H.
    + simpl in H. by rewrite H, flat_map_nil, app_nil_r.
    + intros j x [n1 m1] [n2 m2] Hb. run_body Hb; proj_done.
  - apply (forEach_proj _ (fun s => releasedCryptomatteData (mLog s.2))
      (fun r => [mCryptomatteDataHandle r])) in H; [done|].
    intros j x [n1 m1] [n2 m2] Hb. run_body Hb; proj_done.
Qed.

(** *** The GPU resolver against the CPU resolver *)


Lemma parity_body isOccluded i ray n m1 m2 :
  mOcclTestType ray = STANDARD ->
  isOccluded i = accelOccluded W (mkOcclusionRtRay W ray) ->
  sameDecisions m1 m2 ->
  sameOutcome (areSingleRaysOccluded_body W fs 0 i ray (n, m1))
              (computeXPUOcclusionQueriesOnGPU_body W fs isOccluded i ray (n, m2)).
Proof.
  intros Hstd Hocc [Hres Hacc]. destruct m1 as [res1 log1], m2 as [res2 log2].
  simpl in Hres, Hacc. subst res2.
  unfold sameOutcome, sameDecisions, areSingleRaysOccluded_body,
    computeXPUOcclusionQueriesOnGPU_body, unoccludedBranch, occludedBranch,
    forcedBranch, storeResult, freeListIfSet, logEv.
  rewrite Hocc, Hstd. simpl.
  repeat (first [case_decide | case_match]; simplify_eq; simpl in * );
    try done; try lia;
    (split; [done|]); (split; [done|]);
    unfold accountingTrace in *; rewrite ?omap_app; simpl;
    rewrite ?app_nil_r, ?Hacc; done.
Qed.

Lemma parity_loop isOccluded (rays : list BundledOcclRay) : forall i n m1 m2,
  Forall (fun r => mOcclTestType r = STANDARD) rays ->
  (forall j ray, rays !! j = Some ray ->
     isOccluded (i + j) = accelOccluded W (mkOcclusionRtRay W ray)) ->
  sameDecisions m1 m2 ->
  sameOutcome
    (forEach (areSingleRaysOccluded_body W fs 0) i rays (n, m1))
    (forEach (computeXPUOcclusionQueriesOnGPU_body W fs isOccluded) i rays (n, m2)).
Proof.
  induction rays as [|ray rays IH]; intros i n m1 m2 Hstd Hocc Hsame; cbn [forEach].
  - done.
  - apply Forall_cons in Hstd as [Hs Hstd].
    pose proof (parity_body isOccluded i ray n m1 m2 Hs) as Hb.
    specialize (Hb ltac:(rewrite <- (Hocc 0 ray eq_refl); f_equal; lia) Hsame).
    destruct (areSingleRaysOccluded_body _ _ _ _ _ _) as [[n1 m1']|],
      (computeXPUOcclusionQueriesOnGPU_body _ _ _ _ _ _) as [[n2 m2']|];
      simpl in Hb; try done.
    destruct Hb as [-> Hsame']. apply (IH (S i)); [done| |done].
    intros j r Hr. rewrite <- (Hocc (S j) r Hr). f_equal. lia.
Qed.

Lemma std_partition_all_true {A : Type} (pred : A -> bool) (a : list A) :
  Forall (fun x => pred x = true) a -> std_partition pred a = (a, length a).
Proof.
  intros Hall. unfold std_partition.
  assert (Hadv : forall n first, first + n <= length a ->
            advanceFirst pred a first n = first + n).
  { induction n as [|n IH]; intros first Hlen; simpl; [lia|].
    destruct (a !! first) as [x|] eqn:Hx.
    - rewrite (proj1 (Forall_lookup _ _) Hall _ _ Hx). rewrite IH by lia. lia.
    - apply lookup_ge_None in Hx. lia. }
  destruct (length a) as [|fuel] eqn:Hlen at 1.
  { apply length_zero_iff_nil in Hlen. by subst. }
  cbn [partitionLoop]. rewrite Nat.sub_0_r. rewrite Hadv by lia.
  rewrite Nat.add_0_l. case_decide; [done|lia].
Qed.

(** For a batch of [STANDARD] rays and the same occlusion answers, the two
    resolvers fill the same radiances and make the same accounting calls,
    list frees and deep-data releases, in the same order. *)
Lemma gpu_cpu_same_decisions (rays : list BundledOcclRay) (m : Machine) :
  Forall (fun r => mOcclTestType r = STANDARD) rays ->
  (forall j ray, rays !! j = Some ray ->
     gpuOcclusionBuf W rays j = accelOccluded W (mkOcclusionRtRay W ray)) ->
  sameOutcome
    (fmap fst (computeOcclusionQueriesBundled W fs rays m))
    (computeXPUOcclusionQueriesOnGPU W fs rays m).
Proof.
  intros Hstd Hocc.
  unfold computeOcclusionQueriesBundled, computeXPUOcclusionQueriesOnGPU.
  rewrite std_partition_all_true
    by (eapply Forall_impl; [exact Hstd|]; intros r; apply isStandard_true).
  rewrite firstn_all, drop_all, Nat.sub_diag.
  assert (Hloop := parity_loop (gpuOcclusionBuf W rays) rays 0 0 m
    (logEv (EvThreadsUsingGPU (-1))
       (logEv (EvGpuOccluded (length rays)) (logEv (EvThreadsUsingGPU 1) m)))
    Hstd Hocc).
  specialize (Hloop ltac:(split; [done|]; simpl; unfold accountingTrace;
                           rewrite !omap_app; simpl; by rewrite !app_nil_r)).
  case_decide as Hk.
  - unfold areSingleRaysOccluded.
    destruct (forEach (areSingleRaysOccluded_body _ _ _) _ _ _) as [[n1 m1]|],
      (forEach (computeXPUOcclusionQueriesOnGPU_body _ _ _) _ _ _) as [[n2 m2]|];
      simpl in *; try done; repeat case_decide; simpl; try done; lia.
  - assert (rays = []) as ->.
    { apply length_zero_iff_nil. destruct (decide (length rays = 0)); [done|contradiction]. }
    simpl in *. repeat case_decide; simpl; done.
Qed.

(** *** The presence resolver *)




(** *** Occluded rays and the clear-radius falloff *)

(** C7, amended.  A [STANDARD] ray in the CPU and in the GPU resolver,
    given the same occlusion answer: both fill the same slots and make
    the same accounting calls.  When the accelerator reports the ray
    occluded and shadowing is enabled: with a side-data list, if the
    light's clear-radius falloff distance is not zero and the ray's
    [mMaxT] is below clear radius plus falloff distance, one radiance is
    filled, built from
    [calculateShadowFalloff(light, mMaxT, transmittance * radiance)], and
    otherwise none is filled and [results] is left as it was, the
    occluded-visibility accounting call being made in both cases; without
    a side-data list nothing is filled and no accounting call is made.
    In every other case, so also when the ray is reported occluded while
    shadowing is disabled, the ray is handled as an unoccluded one: its
    radiance times the transmittance is filled and the unoccluded
    accounting calls are made. *)
Theorem occluded_ray_clear_radius_falloff
    (isOccluded : nat -> bool) (i : nat) (ray : BundledOcclRay) (n : nat) (m : Machine) :
  mOcclTestType ray = STANDARD ->
  isOccluded i = accelOccluded W (mkOcclusionRtRay W ray) ->
  n < length (mResults m) ->
  let light := mLight (getListItem W (mDataPtrHandle ray) 0) in
  let tr := getTransmittance W ray in
  let numItems := getNumListItems W (mDataPtrHandle ray) in
  let white := mkColor fone fone fone in
  let withRadiance := fun c : Color =>
    mkOcclRay (mOrigin ray) (mDir ray) (mMinT ray) (mMaxT ray) (mTime ray) (mDepth ray)
      c (mPixel ray) (mSubpixelIndex ray) (mOcclTestType ray) (mShadowReceiverId ray)
      (mDataPtrHandle ray) (mDeepDataHandle ray) (mCryptomatteDataHandle ray) in
  let attenuated :=
    withRadiance (mkColor (fmul (cr (mRadiance ray)) (cr tr))
                          (fmul (cg (mRadiance ray)) (cg tr))
                          (fmul (cb (mRadiance ray)) (cb tr))) in
  let falloffRay :=
    withRadiance
      (calculateShadowFalloff W light (mMaxT ray)
         (mkColor (fmul (cr tr) (cr (mRadiance ray)))
                  (fmul (cg tr) (cg (mRadiance ray)))
                  (fmul (cb tr) (cb (mRadiance ray))))) in
  let insideFalloff :=
    negb (feqb (getClearRadiusFalloffDistance light) fzero) &&
    fltb (mMaxT ray) (fadd (getClearRadius light) (getClearRadiusFalloffDistance light)) in
  let releases :=
    (if decide (mDataPtrHandle ray <> nullHandle) then [EvFreeList (mDataPtrHandle ray)]
     else []) ++ [EvReleaseDeepData (mDeepDataHandle ray)] in
  exists n' m1 m2 accounting,
    areSingleRaysOccluded_body W fs 0 i ray (n, m) = Some (n', m1) /\
    computeXPUOcclusionQueriesOnGPU_body W fs isOccluded i ray (n, m) = Some (n', m2) /\
    mResults m1 = mResults m2 /\
    mLog m1 = mLog m ++ [EvOccluded (mkOcclusionRtRay W ray)] ++ accounting ++ releases
                ++ [EvReleaseCryptomatteData (mCryptomatteDataHandle ray)] /\
    mLog m2 = mLog m ++ accounting ++ releases /\
    if accelOccluded W (mkOcclusionRtRay W ray) && getEnableShadowing fs then
      if decide (mDataPtrHandle ray <> nullHandle) then
        if insideFalloff then
          n' = S n /\
          mResults m1 = <[n := Some (fillBundledRadiance W falloffRay)]> (mResults m) /\
          accounting
            = EvAccumVisibilityAovsOccluded falloffRay numItems
                :: (if hasLpePrefixUnoccluded fs
                    then [EvAccumLightAovs falloffRay numItems white None
                            sLpePrefixUnoccluded]
                    else [])
        else
          n' = n /\
          mResults m1 = mResults m /\
          accounting
            = EvAccumVisibilityAovsOccluded ray numItems
                :: (if hasLpePrefixUnoccluded fs
                    then [EvAccumLightAovs ray numItems white None sLpePrefixUnoccluded]
                    else [])
      else n' = n /\ mResults m1 = mResults m /\ accounting = []
    else
      n' = S n /\
      mResults m1 = <[n := Some (fillBundledRadiance W attenuated)]> (mResults m) /\
      accounting
        = if decide (mDataPtrHandle ray <> nullHandle)
          then [EvAccumLightAovs attenuated numItems white (Some tr) sLpePrefixUnoccluded;
                EvAccumVisibilityAovs attenuated numItems (reduceTransparency W tr)]
          else [].
Proof.
  intros Hstd Hgpu Hn light tr numItems white withRadiance attenuated falloffRay
    insideFalloff releases.
  subst releases insideFalloff attenuated falloffRay withRadiance white.
  unfold areSingleRaysOccluded_body, computeXPUOcclusionQueriesOnGPU_body,
    occludedBranch, unoccludedBranch, insideClearRadiusFalloff, disableShadowing,
    freeListIfSet, logEv, setRadiance, cmul, sWhite.
  rewrite Hgpu, Hstd.
  destruct (decide (STANDARD = FORCE_NOT_OCCLUDED)) as [?|_]; [done|].
  fold light tr numItems.
  destruct (accelOccluded W (mkOcclusionRtRay W ray)), (getEnableShadowing fs);
    cbn [negb orb andb];
    destruct (decide (mDataPtrHandle ray <> nullHandle)) as [Hh|Hh];
    try destruct (negb (feqb (getClearRadiusFalloffDistance light) fzero) &&
                  fltb (mMaxT ray)
                    (fadd (getClearRadius light) (getClearRadiusFalloffDistance light)));
    try destruct (hasLpePrefixUnoccluded fs);
    cbn [mResults mLog mDataPtrHandle];
    rewrite ?storeResult_Some by done;
    cbn [mResults mLog mDataPtrHandle];
    rewrite ?(decide_True (P := mDataPtrHandle ray <> nullHandle)) by done;
    rewrite ?(decide_False (P := mDataPtrHandle ray <> nullHandle)) by done;
    cbn [mResults mLog mDataPtrHandle];
    (eexists _, _, _, _; split; [reflexivity|]; split; [reflexivity|];
     split; [reflexivity|]; split; [|split]; [ | | repeat split; reflexivity];
     cbn [mLog]; rewrite <- ?app_assoc; reflexivity).
Qed.

End LogFacts.


(** ** The miss handler *)
Section MissFacts.
Context {F : Type} {FO : FloatOps F}.
Variable B : @BundleCollab F.
Variable bfs : BundleFrameState.

(** C5, amended.  For a primary ray (depth 0) of the miss run the alpha of
    the emitted radiance follows the five cases: light found and opaque in
    alpha, the pixel weight; light found, not opaque, volume crossed,
    pixel weight times (1 - reduced volume alpha transmittance); light
    found, not opaque, no volume, 0; no light but a volume, pixel weight
    times (1 - reduced volume alpha transmittance); neither, 0.  For a ray
    of any other depth no light is looked for and alpha is 0.  The volume
    radiance is added to the light radiance in every case.  A ray that
    found no light, crossed no volume and carries no volume radiance is
    retired with radiance (0,0,0) and alpha 0. *)
Theorem miss_alpha_policy (rs : RayState) :
  let w := pathPixelWeight (mPathVertex rs) in
  let volumeAlpha := fmul w (fsub fone (bcReduceTransparency B (mVolTalpha rs))) in
  let res := brRadiance (missBundledRadiance B rs) in
  (getDepth (mRay rs) = 0%Z ->
     match intersectVisibleLight B rs with
     | Some (hitLight, hitLightIsect, numHits) =>
         let lightRadiance :=
           cscale_r (cmul (pathThroughput (mPathVertex rs))
                          (lightEval B hitLight rs hitLightIsect)) (fofint numHits) in
         let attenuated :=
           if mVolHit rs then cmul lightRadiance (cmul (mVolTr rs) (mVolTh rs))
           else lightRadiance in
         ra res = (if getIsOpaqueInAlpha hitLight then w
                   else if mVolHit rs then volumeAlpha else fzero) /\
         mkColor (rr res) (rg res) (rb res) = cadd attenuated (mVolRad rs)
     | None =>
         ra res = (if mVolHit rs then volumeAlpha else fzero) /\
         mkColor (rr res) (rg res) (rb res) = cadd sBlack (mVolRad rs)
     end) /\
  (getDepth (mRay rs) <> 0%Z ->
     ra res = fzero /\
     mkColor (rr res) (rg res) (rb res) = cadd sBlack (mVolRad rs)) /\
  (intersectVisibleLight B rs = None -> mVolHit rs = false -> mVolRad rs = sBlack ->
   fadd fzero fzero = fzero ->
     res = mkRenderColor fzero fzero fzero fzero).
Proof.
  unfold missBundledRadiance, missRadianceAlpha. simpl.
  split; [|split].
  - intros Hd. destruct (decide (getDepth (mRay rs) = 0%Z)) as [_|?]; [|done].
    destruct (intersectVisibleLight B rs) as [[[hitLight isect] numHits]|].
    + destruct (getIsOpaqueInAlpha hitLight), (mVolHit rs); done.
    + destruct (mVolHit rs); done.
  - intros Hd. destruct (decide (getDepth (mRay rs) = 0%Z)) as [?|_]; done.
  - intros Hl Hv Hr H0. rewrite Hl, Hv, Hr.
    destruct (decide (getDepth (mRay rs) = 0%Z)); simpl; by rewrite H0.
Qed.


(** For a primary ray the AOV block of the miss loop never reaches the
    light event transition nor the light AOV accumulation, whatever
    [intersectVisibleLight] found. *)
Lemma missAovs_primary_no_light_accounting (rsIdx : nat) (rs : RayState)
    (log : list BundleEvent) :
  getDepth (mRay rs) = 0%Z ->
  filter (fun e => isLightAccounting e = true) (missAovs B bfs rsIdx rs log)
    = filter (fun e => isLightAccounting e = true) log.
Proof.
  intros Hd. unfold missAovs. rewrite Hd.
  destruct (missRadianceAlpha B rs) as [radiance alpha].
  destruct (negb (aovSchemaEmpty bfs)); [|done].
  destruct (decide (0%Z = 0%Z)) as [_|?]; [|done]. simpl.
  destruct (decide (0 <= -1)%Z) as [?|_]; [lia|].
  destruct (mVolHit rs && fltb (mVolumeSurfaceT rs) sMaxValue);
    rewrite ?filter_app; simpl; by rewrite ?app_nil_r.
Qed.

End MissFacts.

(** ** Sorting by material key *)
Section SortFacts.


Lemma insertByKey_perm e l : insertByKey e l ≡ₚ e :: l.
Proof.
  induction l as [|x l IH]; simpl; [done|].
  destruct (Nat.ltb _ _); [done|]. rewrite IH. apply perm_swap.
Qed.

Lemma insertByKey_sorted e l : sortedByKey l -> sortedByKey (insertByKey e l).
Proof.
  unfold sortedByKey. induction l as [|x l IH]; simpl; intros Hs.
  - repeat constructor.
  - apply StronglySorted_cons in Hs as [Hx Hs].
    destruct (Nat.ltb _ _) eqn:Hlt.
    + apply Nat.ltb_lt in Hlt. constructor.
      * by constructor.
      * constructor; [unfold keyLe; lia|].
        eapply Forall_impl; [exact Hx|]. unfold keyLe. intros; lia.
    + apply Nat.ltb_ge in Hlt. constructor; [by apply IH|].
      rewrite insertByKey_perm. constructor; [done|done].
Qed.

Lemma comparisonSort32_perm l : comparisonSort32 l ≡ₚ l.
Proof.
  unfold comparisonSort32. induction l as [|x l IH]; simpl; [done|].
  by rewrite insertByKey_perm, IH.
Qed.

Lemma comparisonSort32_sorted l : sortedByKey (comparisonSort32 l).
Proof.
  unfold comparisonSort32. induction l as [|x l IH]; simpl.
  - constructor.
  - by apply insertByKey_sorted.
Qed.


Lemma hasKey_true k e : hasKey k e = true <-> mSortKey e = k.
Proof. unfold hasKey. apply Nat.eqb_eq. Qed.

Lemma bucketsOf_cons_in ks x l :
  NoDup ks -> mSortKey x ∈ ks -> bucketsOf ks (x :: l) ≡ₚ x :: bucketsOf ks l.
Proof.
  unfold bucketsOf.
  induction ks as [|k ks IH]; intros Hnd Hin; simpl; [by apply elem_of_nil in Hin|].
  apply NoDup_cons in Hnd as [Hk Hnd]. rewrite filter_cons.
  destruct (decide (hasKey k x = true)) as [Hx|Hx].
  - apply hasKey_true in Hx. subst k. simpl. f_equiv. f_equiv.
    clear IH Hin. induction ks as [|k' ks IH']; simpl; [done|].
    apply NoDup_cons in Hnd as [? ?]. rewrite filter_cons.
    destruct (decide (hasKey k' x = true)) as [Hx'|_].
    + apply hasKey_true in Hx'. subst k'. exfalso. apply Hk. by left.
    + f_equiv. apply IH'; [|done]. intros ?. apply Hk. by right.
  - apply elem_of_cons in Hin as [Hin|Hin].
    + exfalso. apply Hx. by apply hasKey_true.
    + rewrite (IH Hnd Hin). rewrite Permutation_middle. done.
Qed.

Lemma bucketsOf_nil ks : bucketsOf ks [] = [].
Proof. unfold bucketsOf. induction ks; simpl; done. Qed.

Lemma bucketSort32_perm maxKey l :
  Forall (fun e => mSortKey e <= maxKey) l -> bucketSort32 maxKey l ≡ₚ l.
Proof.
  unfold bucketSort32. change (flat_map _ ?ks) with (bucketsOf ks l).
  induction l as [|x l IH]; intros Hall.
  - by rewrite bucketsOf_nil.
  - apply Forall_cons in Hall as [Hx Hall].
    rewrite bucketsOf_cons_in.
    + by rewrite IH.
    + apply NoDup_seq.
    + apply elem_of_seq. lia.
Qed.

Lemma bucket_sorted k l :
  StronglySorted keyLe (filter (fun e => hasKey k e = true) l).
Proof.
  induction l as [|y l IHl]; [rewrite filter_nil; constructor|].
  rewrite filter_cons. case_decide as Hy; [|exact IHl].
  constructor; [exact IHl|]. apply Forall_forall. intros z Hz.
  apply list_elem_of_filter in Hz as [Hz _].
  apply hasKey_true in Hy, Hz. unfold keyLe. lia.
Qed.

Lemma bucketsOf_seq_sorted l len : forall start,
  sortedByKey (bucketsOf (seq start len) l) /\
  Forall (fun e => start <= mSortKey e) (bucketsOf (seq start len) l).
Proof.
  unfold sortedByKey, bucketsOf.
  induction len as [|len IH]; intros start; simpl.
  - split; constructor.
  - destruct (IH (S start)) as [Hs Hge]. split.
    + apply StronglySorted_app_2; [| |done].
      * intros x1 x2 H1 H2. apply list_elem_of_filter in H1 as [H1 _].
        apply hasKey_true in H1. rewrite Forall_forall in Hge.
        specialize (Hge x2 H2). unfold keyLe. simpl in Hge. lia.
      * apply bucket_sorted.
    + apply Forall_app. split.
      * apply Forall_forall. intros z Hz. apply list_elem_of_filter in Hz as [Hz _].
        apply hasKey_true in Hz. lia.
      * eapply Forall_impl; [exact Hge|]. simpl. intros; lia.
Qed.

Lemma bucketSort32_sorted maxKey l : sortedByKey (bucketSort32 maxKey l).
Proof. apply (bucketsOf_seq_sorted l (S maxKey) 0). Qed.

Lemma filter_none {A : Type} (P : A -> Prop) `{!forall x, Decision (P x)} (l : list A) :
  Forall (fun x => ~ P x) l -> filter P l = [].
Proof.
  induction 1 as [|x l Hx _ IH]; [done|]. by rewrite filter_cons_False.
Qed.

(** A list sorted by key splits into the entries below a key, the entries
    with that key, and the entries above it. *)
Lemma sortedByKey_three_way k s :
  sortedByKey s ->
  s = filter (fun e => mSortKey e < k) s ++ filter (fun e => mSortKey e = k) s
        ++ filter (fun e => k < mSortKey e) s.
Proof.
  unfold sortedByKey. induction s as [|x s IH]; intros Hs; [done|].
  apply StronglySorted_cons in Hs as [Hx Hs]. specialize (IH Hs).
  rewrite !filter_cons.
  assert (Hnone : forall P : SortedEntry -> Prop, forall `{!forall e, Decision (P e)},
    (forall e, keyLe x e -> ~ P e) -> filter P s = []).
  { intros P ? HP. apply filter_none. eapply Forall_impl; [exact Hx|]. done. }
  destruct (decide (mSortKey x < k)) as [Hlt|Hge].
  - rewrite (decide_False (P := mSortKey x = k)) by lia.
    rewrite (decide_False (P := k < mSortKey x)) by lia.
    simpl. f_equal. done.
  - destruct (decide (mSortKey x = k)) as [Heq|Hne].
    + rewrite (decide_False (P := k < mSortKey x)) by lia.
      rewrite (Hnone (fun e => mSortKey e < k)) in * by (unfold keyLe; intros; lia).
      simpl in *. f_equal. done.
    + rewrite (decide_True (P := k < mSortKey x)) by lia.
      rewrite (Hnone (fun e => mSortKey e < k)) in * by (unfold keyLe; intros; lia).
      rewrite (Hnone (fun e => mSortKey e = k)) in * by (unfold keyLe; intros; lia).
      simpl in *. f_equal. done.
Qed.

(** Two key-sorted arrangements of the same entries show the same keys in
    the same places and hold the same entries under every key. *)
Lemma sortedByKey_same_grouping s1 s2 :
  sortedByKey s1 -> sortedByKey s2 -> s1 ≡ₚ s2 ->
  map mSortKey s1 = map mSortKey s2 /\
  forall k, filter (fun e => mSortKey e = k) s1 ≡ₚ filter (fun e => mSortKey e = k) s2.
Proof.
  intros H1 H2 Hp. split.
  - apply (StronglySorted_unique le).
    + eapply (StronglySorted_fmap mSortKey keyLe le); [|exact H1]. done.
    + eapply (StronglySorted_fmap mSortKey keyLe le); [|exact H2]. done.
    + by apply fmap_Permutation.
  - intros k. by rewrite Hp.
Qed.

End SortFacts.

(** ** The loop that assigns the sort keys *)

Section BuildFacts.
Context {F : Type} {FO : FloatOps F}.
Variable B : @BundleCollab F.
Variable bfs : BundleFrameState.


Lemma length_omap_filter {A C : Type} (f : A -> option C) (l : list A) :
  length (omap f l) + length (filter (fun x => f x = None) l) = length l.
Proof.
  induction l as [|x l IH]; [done|]. rewrite filter_cons.
  change (omap f (x :: l)) with (match f x with Some y => y :: omap f l | None => omap f l end).
  destruct (f x) eqn:Hf; case_decide; simplify_eq; cbn [length]; lia.
Qed.

Lemma store_next_entry (kept alloc : list SortedEntry) (e : SortedEntry) :
  length kept < length alloc ->
  storeEntry (length kept) e (kept ++ drop (length kept) alloc)
    = Some ((kept ++ [e]) ++ drop (length (kept ++ [e])) alloc).
Proof.
  intros Hlt. unfold storeEntry.
  case_decide as Hin; [|rewrite length_app, length_drop in Hin; lia].
  f_equal. destruct (lookup_lt_is_Some_2 alloc (length kept) Hlt) as [x Hx].
  rewrite (drop_S _ _ _ Hx), length_app. simpl.
  rewrite insert_app_r_alt by lia. rewrite Nat.sub_diag. simpl.
  rewrite <- app_assoc. simpl. by rewrite Nat.add_1_r.
Qed.


Lemma exits_app_other (log : list (@BundleEvent F)) (e : BundleEvent) :
  match e with BvFreeRayStates _ | BvShadeQueueAddEntries _ _ => False | _ => True end ->
  freedRayStates (log ++ [e]) = freedRayStates log /\
  forwardedRayStates (log ++ [e]) = forwardedRayStates log.
Proof.
  intros He. unfold freedRayStates, forwardedRayStates. rewrite !flat_map_app.
  destruct e; simpl; try done; by rewrite !app_nil_r.
Qed.

Lemma buildSortedEntries_body_inv scratch pool rays log j p st :
  rays !! j = Some p ->
  (forall material, geomID (mRay (pool p)) <> (-1)%Z ->
     sortMaterial B (pool p) = Some material -> 1 <= getMaterialId material) ->
  buildInv B scratch pool rays log j st ->
  exists st', buildSortedEntries_body B bfs (length rays) pool j p st = Some st' /\
    buildInv B scratch pool rays log (S j) st'.
Proof.
  intros Hp Hid (Hn & Harr & Hfree & Hmax & Hf1 & Hf2).
  pose proof (lookup_lt_Some _ _ _ Hp) as Hj.
  pose proof (length_omap_filter (sortedEntryFor B pool) (take j rays)) as Hlen.
  rewrite length_take in Hlen.
  assert (Halloc : length (allocSortedEntries scratch (length rays)) = length rays).
  { unfold allocSortedEntries. by rewrite length_map, length_seq. }
  unfold buildInv. rewrite (take_S_r _ _ _ Hp), omap_app, filter_app.
  set (kept := omap (sortedEntryFor B pool) (take j rays)) in *.
  set (nulls := filter (fun p => sortedEntryFor B pool p = None) (take j rays)) in *.
  set (alloc := allocSortedEntries scratch (length rays)) in *.
  assert (Hone : omap (sortedEntryFor B pool) [p]
            = match sortedEntryFor B pool p with Some e => [e] | None => [] end).
  { simpl. by destruct (sortedEntryFor B pool p). }
  rewrite Hone, filter_cons, filter_nil.
  unfold buildSortedEntries_body. rewrite Hn, Harr, Hfree.
  unfold sortedEntryFor.
  destruct (decide (geomID (mRay (pool p)) = (-1)%Z)) as [Hmiss|Hhit].
  - rewrite store_next_entry by lia.
    eexists; split; [done|]. cbn [numSortedEntries sortedEntries rayStatesToFree
      maxSortKey bLog].
    rewrite decide_False, app_nil_r by done.
    split; [by rewrite length_app, Nat.add_1_r|]. split; [done|]. split; [done|]. split.
    { apply Forall_app. split; [done|]. constructor; [simpl; lia|done]. }
    rewrite <- Hf1, <- Hf2. repeat case_match; try done; by apply exits_app_other.
  - destruct (sortMaterial B (pool p)) as [material|] eqn:Hmat.
    + specialize (Hid material Hhit eq_refl).
      rewrite (decide_False (P := getMaterialId material = 0)) by lia.
      rewrite store_next_entry by lia.
      eexists; split; [done|]. cbn [numSortedEntries sortedEntries rayStatesToFree
        maxSortKey bLog].
      rewrite decide_False, app_nil_r by done.
      split; [by rewrite length_app, Nat.add_1_r|]. split; [done|]. split; [done|].
      split; [|done].
      apply Forall_app. split.
      * eapply Forall_impl; [exact Hmax|]. simpl. intros; lia.
      * constructor; [simpl; lia|done].
    + unfold pushRayStateToFree. case_decide; [|lia].
      eexists; split; [done|]. cbn [numSortedEntries sortedEntries rayStatesToFree
        maxSortKey bLog].
      rewrite decide_True, !app_nil_r by done.
      split; [done|]. split; [done|]. split; [done|]. split; [done|].
      rewrite <- Hf1, <- Hf2.
      destruct (mVolHit (pool p)); [by apply exits_app_other|done].
Qed.

(** The loop gets through the batch when every material id it reads is
    at least 1. *)
Lemma buildSortedEntries_spec scratch pool rays log :
  (forall p material, p ∈ rays -> geomID (mRay (pool p)) <> (-1)%Z ->
     sortMaterial B (pool p) = Some material -> 1 <= getMaterialId material) ->
  exists st, buildSortedEntries B bfs scratch pool rays log = Some st /\
    buildInv B scratch pool rays log (length rays) st.
Proof.
  intros Hid. unfold buildSortedEntries.
  destruct (forEach_inv (buildSortedEntries_body B bfs (length rays) pool)
    (buildInv B scratch pool rays log) rays 0
    (mkSortState (allocSortedEntries scratch (length rays)) 0 0 [] log))
    as (st & Hst & Hinv).
  - unfold buildInv. rewrite take_0. simpl. rewrite drop_0. done.
  - intros j x s Hx _ Hs. rewrite Nat.sub_0_r in Hx.
    apply buildSortedEntries_body_inv; [done| |done].
    intros material. apply Hid. by eapply list_elem_of_lookup_2.
  - by exists st.
Qed.

(** And only then: a material id of 0 trips the [MNRY_VERIFY]. *)
Lemma buildSortedEntries_checks_ids scratch pool rays log st :
  buildSortedEntries B bfs scratch pool rays log = Some st ->
  forall p material, p ∈ rays -> geomID (mRay (pool p)) <> (-1)%Z ->
    sortMaterial B (pool p) = Some material -> 1 <= getMaterialId material.
Proof.
  unfold buildSortedEntries. intros Hrun p material Hp Hhit Hmat.
  apply list_elem_of_lookup in Hp as [j Hj].
  destruct (forEach_Some_each _ _ _ _ _ Hrun j p Hj) as (s1 & s2 & Hb).
  unfold buildSortedEntries_body in Hb.
  rewrite decide_False, Hmat in Hb by done.
  destruct (decide (getMaterialId material = 0)); [done|lia].
Qed.

Lemma kept_in_batch_order (pool : Pool) (rays : list nat) :
  map mRsIdx (omap (sortedEntryFor B pool) rays)
    = filter (fun p => geomID (mRay (pool p)) = (-1)%Z \/ sortMaterial B (pool p) <> None)
        rays.
Proof.
  induction rays as [|p rays IH]; [done|].
  rewrite filter_cons.
  change (omap (sortedEntryFor B pool) (p :: rays))
    with (match sortedEntryFor B pool p with
          | Some e => e :: omap (sortedEntryFor B pool) rays
          | None => omap (sortedEntryFor B pool) rays
          end).
  unfold sortedEntryFor at 1.
  destruct (decide (geomID (mRay (pool p)) = (-1)%Z)) as [Hmiss|Hhit].
  - rewrite decide_True by (by left). simpl. by rewrite IH.
  - destruct (sortMaterial B (pool p)) as [material|] eqn:Hmat.
    + rewrite decide_True by (by right). simpl. by rewrite IH.
    + rewrite decide_False by (by intros [?|?]). done.
Qed.

Lemma kept_with_key_zero (pool : Pool) (rays : list nat) :
  (forall p material, p ∈ rays -> geomID (mRay (pool p)) <> (-1)%Z ->
     sortMaterial B (pool p) = Some material -> 1 <= getMaterialId material) ->
  map mRsIdx (filter (fun e => mSortKey e = 0) (omap (sortedEntryFor B pool) rays))
    = filter (fun p => geomID (mRay (pool p)) = (-1)%Z) rays.
Proof.
  induction rays as [|p rays IH]; intros Hid; [done|].
  rewrite filter_cons.
  change (omap (sortedEntryFor B pool) (p :: rays))
    with (match sortedEntryFor B pool p with
          | Some e => e :: omap (sortedEntryFor B pool) rays
          | None => omap (sortedEntryFor B pool) rays
          end).
  assert (IH' := IH ltac:(intros q material Hq; apply Hid; by apply elem_of_cons; right)).
  unfold sortedEntryFor at 1.
  destruct (decide (geomID (mRay (pool p)) = (-1)%Z)) as [Hmiss|Hhit].
  - rewrite filter_cons. cbn [mSortKey].
    destruct (decide (0 = 0)) as [_|?]; [|done]. cbn [map mRsIdx]. by rewrite IH'.
  - destruct (sortMaterial B (pool p)) as [material|] eqn:Hmat; [|done].
    pose proof (Hid p material ltac:(by apply elem_of_cons; left) Hhit Hmat).
    rewrite filter_cons. cbn [mSortKey].
    destruct (decide (getMaterialId material = 0)); [lia|done].
Qed.

Lemma kept_with_key (pool : Pool) (rays : list nat) (k : nat) :
  1 <= k ->
  map mRsIdx (filter (fun e => mSortKey e = k) (omap (sortedEntryFor B pool) rays))
    = filter (fun p => geomID (mRay (pool p)) <> (-1)%Z /\
                       getMaterialId <$> sortMaterial B (pool p) = Some k) rays.
Proof.
  intros Hk. induction rays as [|p rays IH]; [done|].
  rewrite filter_cons.
  change (omap (sortedEntryFor B pool) (p :: rays))
    with (match sortedEntryFor B pool p with
          | Some e => e :: omap (sortedEntryFor B pool) rays
          | None => omap (sortedEntryFor B pool) rays
          end).
  unfold sortedEntryFor at 1.
  destruct (decide (geomID (mRay (pool p)) = (-1)%Z)) as [Hmiss|Hhit].
  - rewrite filter_cons. cbn [mSortKey].
    destruct (decide (0 = k)); [lia|].
    rewrite decide_False by (by intros [? _]). done.
  - destruct (sortMaterial B (pool p)) as [material|] eqn:Hmat; cbn [fmap option_fmap option_map].
    + rewrite filter_cons. cbn [mSortKey].
      destruct (decide (getMaterialId material = k)) as [->|Hne].
      * rewrite decide_True by done. cbn [map mRsIdx]. by rewrite IH.
      * rewrite decide_False; [done|]. intros [_ Heq]. by simplify_eq.
    + rewrite decide_False by (by intros [_ ?]). done.
Qed.

End BuildFacts.

Section SortStage.
Context {F : Type} {FO : FloatOps F}.
Variable B : @BundleCollab F.
Variable bfs : BundleFrameState.

Lemma smartSort32_spec (kept rest : list SortedEntry) (maxKey : nat) :
  Forall (fun e => mSortKey e <= maxKey) kept ->
  exists sorted,
    smartSort32 (length kept) (kept ++ rest) maxKey = sorted ++ rest /\
    sorted ≡ₚ kept /\ sortedByKey sorted /\ length sorted = length kept /\
    sorted = (if Nat.ltb (length kept) RAY_HANDLER_STD_SORT_CUTOFF
              then bucketSort32 maxKey kept else comparisonSort32 kept).
Proof.
  intros Hmax. unfold smartSort32. rewrite take_app_length, drop_app_length.
  eexists; split; [done|].
  destruct (Nat.ltb _ _).
  - pose proof (bucketSort32_perm maxKey kept Hmax) as Hp.
    split; [done|]. split; [apply bucketSort32_sorted|]. split; [by rewrite Hp|done].
  - pose proof (comparisonSort32_perm kept) as Hp.
    split; [done|]. split; [apply comparisonSort32_sorted|]. split; [by rewrite Hp|done].
Qed.

(** C4.  The key-assigning loop gets through a batch exactly when every
    material id it reads is at least 1 (the [MNRY_VERIFY] on
    [getMaterialId]).  It then keeps one entry for every ray state that
    is a miss or has a material, in batch order; the entry of a miss has
    key 0 and no material, the entry of a hit has the material the ray is
    sorted under and the id of that material as key, which is at least 1.
    Sorting leaves the entries ascending by key, so for every key the
    entries with that key form one contiguous run, after all smaller keys
    and before all larger ones: the leading run holds the misses of the
    batch, and the run of a key [k >= 1] holds the hits of the batch
    whose material has id [k].  The bucket sort and the comparison sort
    put the same keys in the same places and the same entries under every
    key. *)
Theorem material_sort_grouping (scratch : nat -> SortedEntry) (pool : Pool)
    (rayStates : list nat) (log : list BundleEvent) :
  (is_Some (buildSortedEntries B bfs scratch pool rayStates log) <->
   forall p material, p ∈ rayStates -> geomID (mRay (pool p)) <> (-1)%Z ->
     sortMaterial B (pool p) = Some material -> 1 <= getMaterialId material) /\
  forall st,
    buildSortedEntries B bfs scratch pool rayStates log = Some st ->
    let n := numSortedEntries st in
    let entries := take n (sortedEntries st) in
    let sorted := take n (smartSort32 n (sortedEntries st) (maxSortKey st)) in
    map mRsIdx entries
      = filter (fun p => geomID (mRay (pool p)) = (-1)%Z \/
                         sortMaterial B (pool p) <> None) rayStates /\
    Forall (fun e =>
              if decide (geomID (mRay (pool (mRsIdx e))) = (-1)%Z)
              then mSortKey e = 0 /\ mMaterial e = None
              else exists material,
                     sortMaterial B (pool (mRsIdx e)) = Some material /\
                     mMaterial e = Some material /\
                     mSortKey e = getMaterialId material /\
                     1 <= mSortKey e) entries /\
    sorted ≡ₚ entries /\
    sortedByKey sorted /\
    (forall k,
       sorted = filter (fun e => mSortKey e < k) sorted
                  ++ filter (fun e => mSortKey e = k) sorted
                  ++ filter (fun e => k < mSortKey e) sorted) /\
    sorted = filter (fun e => mSortKey e = 0) sorted
               ++ filter (fun e => 0 < mSortKey e) sorted /\
    map mRsIdx (filter (fun e => mSortKey e = 0) sorted)
      ≡ₚ filter (fun p => geomID (mRay (pool p)) = (-1)%Z) rayStates /\
    (forall k, 1 <= k ->
       map mRsIdx (filter (fun e => mSortKey e = k) sorted)
         ≡ₚ filter (fun p => geomID (mRay (pool p)) <> (-1)%Z /\
                             getMaterialId <$> sortMaterial B (pool p) = Some k)
              rayStates) /\
    map mSortKey (bucketSort32 (maxSortKey st) entries)
      = map mSortKey (comparisonSort32 entries) /\
    (forall k,
       filter (fun e => mSortKey e = k) (bucketSort32 (maxSortKey st) entries)
         ≡ₚ filter (fun e => mSortKey e = k) (comparisonSort32 entries)).
Proof.
  split.
  { split.
    - intros [st Hst]. by eapply (buildSortedEntries_checks_ids B bfs).
    - intros Hid.
      destruct (buildSortedEntries_spec B bfs scratch pool rayStates log Hid)
        as (st & -> & _). done. }
  intros st Hst.
  pose proof (buildSortedEntries_checks_ids B bfs _ _ _ _ _ Hst) as Hid.
  destruct (buildSortedEntries_spec B bfs scratch pool rayStates log Hid)
    as (st' & Hst' & Hn & Harr & _ & Hmax & _).
  assert (st' = st) as -> by congruence. clear Hst'.
  rewrite firstn_all in Hn, Harr, Hmax.
  pose proof (kept_in_batch_order B pool rayStates) as Horder.
  pose proof (kept_with_key_zero B pool rayStates Hid) as Hzero.
  pose proof (kept_with_key B pool rayStates) as Hkey.
  set (kept := omap (sortedEntryFor B pool) rayStates) in *.
  cbn zeta. rewrite Hn, Harr.
  destruct (smartSort32_spec kept
              (drop (length kept) (allocSortedEntries scratch (length rayStates)))
              (maxSortKey st) Hmax) as (sorted & -> & Hperm & Hsorted & Hlen & _).
  rewrite take_app_length, <- Hlen, take_app_length.
  split; [done|].
  split; [|split; [done|split; [done|split; [|split; [|split; [|split; [|split]]]]]]].
  - apply Forall_forall. intros e He.
    apply list_elem_of_omap in He as (p & Hp & He).
    unfold sortedEntryFor in He.
    destruct (decide (geomID (mRay (pool p)) = (-1)%Z)) as [Hmiss|Hhit].
    + simplify_eq. simpl. by rewrite decide_True.
    + destruct (sortMaterial B (pool p)) as [material|] eqn:Hmat; [|done].
      simplify_eq. simpl. rewrite decide_False by done.
      exists material. repeat split; try done. by eapply (Hid p).
  - intros k. by apply sortedByKey_three_way.
  - pose proof (sortedByKey_three_way 0 sorted Hsorted) as H3.
    rewrite (filter_none (fun e => mSortKey e < 0)) in H3; [done|].
    apply Forall_forall. intros; lia.
  - by rewrite Hperm, Hzero.
  - intros k Hk. by rewrite Hperm, Hkey.
  - apply sortedByKey_same_grouping.
    + apply bucketSort32_sorted.
    + apply comparisonSort32_sorted.
    + by rewrite bucketSort32_perm, comparisonSort32_perm.
  - apply sortedByKey_same_grouping.
    + apply bucketSort32_sorted.
    + apply comparisonSort32_sorted.
    + by rewrite bucketSort32_perm, comparisonSort32_perm.
Qed.

End SortStage.

(** ** From the sorted entries to the exits *)
Section ExitFacts.
Context {F : Type} {FO : FloatOps F}.
Variable B : @BundleCollab F.
Variable bfs : BundleFrameState.

Lemma scanSpan_spec key (rest : list SortedEntry) : forall spanEnd endEntry,
  spanEnd <= endEntry -> endEntry - spanEnd <= length rest ->
  exists s, scanSpan key endEntry spanEnd rest = Some s /\
    spanEnd <= s <= endEntry /\
    Forall (fun e => mSortKey e = key) (take (s - spanEnd) rest) /\
    (s < endEntry -> exists e, rest !! (s - spanEnd) = Some e /\ mSortKey e <> key).
Proof.
  induction rest as [|e rest IH]; intros j endEntry Hle Hlen; simpl in *.
  - assert (j = endEntry) as -> by lia. rewrite decide_True by done.
    exists endEntry. split; [done|]. split; [lia|]. split; [by rewrite take_nil|lia].
  - destruct (decide (j = endEntry)) as [->|Hne].
    { exists endEntry. split; [done|]. split; [lia|].
      rewrite Nat.sub_diag. split; [constructor|lia]. }
    destruct (decide (mSortKey e = key)) as [He|He].
    + destruct (IH (S j) endEntry ltac:(lia) ltac:(lia)) as (s & -> & Hs & Hall & Hstop).
      exists s. split; [done|]. split; [lia|].
      replace (s - j) with (S (s - S j)) by lia. simpl. split; [by constructor|done].
    + exists j. split; [done|]. split; [lia|]. rewrite Nat.sub_diag. simpl.
      split; [constructor|]. intros _. by exists e.
Qed.

Lemma missAovs_exits rsIdx rs (log : list BundleEvent) :
  freedRayStates (missAovs B bfs rsIdx rs log) = freedRayStates log /\
  forwardedRayStates (missAovs B bfs rsIdx rs log) = forwardedRayStates log.
Proof.
  unfold missAovs, freedRayStates, forwardedRayStates.
  destruct (missRadianceAlpha B rs) as [radiance alpha].
  repeat (first [case_decide | case_match]; simplify_eq);
    rewrite ?flat_map_app; simpl; rewrite ?app_nil_r; done.
Qed.

Lemma missLoop_spec numEntries pool (arr : list SortedEntry) numMisses
    (toFree : list nat) (log : list BundleEvent) :
  numMisses <= length arr ->
  length toFree + numMisses <= numEntries ->
  exists ms, missLoop B bfs numEntries pool arr numMisses (mkMissState [] toFree log)
               = Some ms /\
    missToFree ms = toFree ++ map mRsIdx (take numMisses arr) /\
    freedRayStates (missLog ms) = freedRayStates log /\
    forwardedRayStates (missLog ms) = forwardedRayStates log.
Proof.
  intros Harr Hcap. unfold missLoop.
  destruct (forEach_inv
    (fun i (_ : nat) st => missLoop_body B bfs numEntries pool arr i st)
    (fun i ms => missToFree ms = toFree ++ map mRsIdx (take i arr) /\
       freedRayStates (missLog ms) = freedRayStates log /\
       forwardedRayStates (missLog ms) = forwardedRayStates log)
    (seq 0 numMisses) 0 (mkMissState [] toFree log)) as (ms & Hms & Hinv).
  - rewrite take_0, app_nil_r. done.
  - intros j x ms Hx _ (Hfree & Hf1 & Hf2).
    apply lookup_lt_Some in Hx. rewrite length_seq, Nat.sub_0_r in Hx.
    unfold missLoop_body.
    destruct (lookup_lt_is_Some_2 arr j ltac:(lia)) as [entry Hentry].
    rewrite Hentry. unfold pushRayStateToFree.
    assert (length (take j arr) = j) as Hlen by (rewrite length_take; lia).
    case_decide as Hroom.
    2:{ rewrite Hfree, length_app, length_map, Hlen in Hroom. lia. }
    eexists; split; [done|]. simpl.
    rewrite Hfree, (take_S_r _ _ _ Hentry), map_app, app_assoc. split; [done|].
    destruct (missAovs_exits (mRsIdx entry) (pool (mRsIdx entry)) (missLog ms))
      as [-> ->]. done.
  - rewrite length_seq in Hinv. simpl in Hinv. by exists ms.
Qed.

Lemma dispatchLoop_spec pool (arr : list SortedEntry) endEntry : forall fuel currEntry log,
  (forall c, isCanceled B c = false) ->
  currEntry <= endEntry <= length arr ->
  endEntry - currEntry < fuel ->
  Forall (fun e => mMaterial e <> None) (take (endEntry - currEntry) (drop currEntry arr)) ->
  Forall (fun e => mSortKey e <> 0) (take (endEntry - currEntry) (drop currEntry arr)) ->
  exists log', dispatchLoop B fuel pool arr endEntry currEntry log = Some log' /\
    freedRayStates log' = freedRayStates log /\
    forwardedRayStates log'
      = forwardedRayStates log
          ++ map mRsIdx (take (endEntry - currEntry) (drop currEntry arr)).
Proof.
  induction fuel as [|fuel IH]; intros curr log Hnc Hr Hfuel Hmat Hkeys; [lia|].
  simpl. destruct (decide (curr = endEntry)) as [->|Hne].
  { exists log. rewrite Nat.sub_diag, take_0. simpl. by rewrite app_nil_r. }
  destruct (lookup_lt_is_Some_2 arr curr ltac:(lia)) as [first Hfirst].
  rewrite Hfirst.
  destruct (scanSpan_spec (mSortKey first) (drop (S curr) arr) (S curr) endEntry)
    as (s & Hscan & Hs & _).
  { lia. }
  { rewrite length_drop. lia. }
  assert (Hsplit : take (endEntry - curr) (drop curr arr)
            = take (s - curr) (drop curr arr) ++ take (endEntry - s) (drop s arr)).
  { replace (endEntry - curr) with ((s - curr) + (endEntry - s)) by lia.
    rewrite <- take_take_drop, drop_drop. do 3 f_equal. lia. }
  rewrite Hsplit in Hmat, Hkeys.
  apply Forall_app in Hmat as [Hm1 Hm2]. apply Forall_app in Hkeys as [Hk1 Hk2].
  assert (Hfm : mMaterial first <> None /\ mSortKey first <> 0).
  { rewrite (drop_S _ _ _ Hfirst) in Hm1, Hk1.
    replace (s - curr) with (S (s - S curr)) in Hm1, Hk1 by lia.
    simpl in Hm1, Hk1. apply Forall_cons in Hm1 as [? _].
    by apply Forall_cons in Hk1 as [? _]. }
  destruct Hfm as [Hfm Hfk].
  rewrite (decide_False (P := mSortKey first = 0)) by done.
  rewrite Hscan. rewrite (decide_False (P := s - curr = 0)) by lia.
  destruct (mMaterial first) as [material|]; [|done].
  rewrite Hnc.
  destruct (IH s (log ++ [BvShadeQueueAddEntries (getShadeQueue material)
              (map (mkShadeEntry pool) (take (s - curr) (drop curr arr)))])
              Hnc ltac:(lia) ltac:(lia) Hm2 Hk2) as (log' & -> & Hf1 & Hf2).
  exists log'. split; [done|]. rewrite Hf1, Hf2, Hsplit.
  unfold freedRayStates, forwardedRayStates. rewrite !flat_map_app. simpl.
  rewrite !app_nil_r, map_app, <- app_assoc. split; [done|].
  do 2 f_equal. rewrite map_map. done.
Qed.

End ExitFacts.

Section HandlerExits.
Context {F : Type} {FO : FloatOps F}.
Variable B : @BundleCollab F.
Variable bfs : BundleFrameState.

Lemma kept_and_unshaded (pool : Pool) (rays : list nat) :
  filter (fun p => sortedEntryFor B pool p = None) rays
    ++ map mRsIdx (omap (sortedEntryFor B pool) rays) ≡ₚ rays.
Proof.
  induction rays as [|p rays IH]; [done|].
  rewrite filter_cons.
  change (omap (sortedEntryFor B pool) (p :: rays))
    with (match sortedEntryFor B pool p with
          | Some e => e :: omap (sortedEntryFor B pool) rays
          | None => omap (sortedEntryFor B pool) rays
          end).
  destruct (sortedEntryFor B pool p) as [e|] eqn:He.
  - rewrite decide_False by done.
    assert (mRsIdx e = p) as <-.
    { unfold sortedEntryFor in He. repeat case_match; by simplify_eq. }
    simpl. rewrite <- Permutation_middle. by f_equiv.
  - rewrite decide_True by done. simpl. by f_equiv.
Qed.

Lemma kept_without_material (pool : Pool) (rays : list nat) :
  Forall (fun e => mMaterial e = None -> mSortKey e = 0)
    (omap (sortedEntryFor B pool) rays).
Proof.
  apply Forall_forall. intros e He.
  apply list_elem_of_omap in He as (p & _ & He).
  unfold sortedEntryFor in He. repeat case_match; by simplify_eq.
Qed.

Lemma sortedByKey_lookup (s : list SortedEntry) i j ei ej :
  sortedByKey s -> i <= j -> s !! i = Some ei -> s !! j = Some ej ->
  mSortKey ei <= mSortKey ej.
Proof.
  intros Hs Hij Hi Hj. destruct (decide (i = j)) as [->|Hne].
  { assert (ei = ej) as -> by congruence. done. }
  rewrite <- (take_drop j s) in Hs.
  eapply (StronglySorted_app_1_elem_of keyLe _ _ ei ej Hs).
  - apply list_elem_of_lookup. exists i. rewrite lookup_take_lt by lia. done.
  - apply list_elem_of_lookup. exists 0. rewrite lookup_drop, Nat.add_0_r. done.
Qed.

(** Whenever an entry was kept for sorting, or the stale first slot of
    [sortedEntries] does not look like a miss, the material ids are at
    least 1 and nothing is cancelled, the handler returns and every ray state of the batch leaves it once:
    in the bulk free or in one shade queue submission. *)
Lemma rayBundleHandler_every_ray_state_exits_once
    (scratch : nat -> SortedEntry) (pool : Pool) (rayStates : list nat) :
  (forall c, isCanceled B c = false) ->
  rayStates <> [] ->
  omap (sortedEntryFor B (volumeStage B rayStates (intersectionStage B rayStates pool)))
       rayStates <> []
    \/ mSortKey (scratch 0) <> 0 ->
  (forall p material, p ∈ rayStates ->
     geomID (mRay (volumeStage B rayStates (intersectionStage B rayStates pool) p))
       <> (-1)%Z ->
     sortMaterial B (volumeStage B rayStates (intersectionStage B rayStates pool) p)
       = Some material ->
     1 <= getMaterialId material) ->
  exists log, rayBundleHandler B bfs scratch pool rayStates = Some log /\
    freedRayStates log ++ forwardedRayStates log ≡ₚ rayStates.
Proof.
  intros Hnc Hne Hkept Hid. unfold rayBundleHandler.
  assert (Hlen0 : length rayStates <> 0) by (by destruct rayStates).
  rewrite decide_False by done. rewrite Hnc.
  set (pool' := volumeStage B rayStates (intersectionStage B rayStates pool)) in *.
  set (log0 := if mRequiresHeatMap bfs then [BvHeatMapBundledUpdate] else []).
  assert (Hlog0 : freedRayStates log0 = [] /\ forwardedRayStates log0 = []).
  { unfold log0. by destruct (mRequiresHeatMap bfs). }
  destruct Hlog0 as [Hl1 Hl2].
  destruct (buildSortedEntries_spec B bfs scratch pool' rayStates log0 Hid)
    as (st & -> & Hn & Harr & Hfree & Hmax & Hf1 & Hf2).
  rewrite firstn_all in Hn, Harr, Hfree, Hmax.
  pose proof (kept_and_unshaded pool' rayStates) as Hperm.
  pose proof (kept_without_material pool' rayStates) as Hmat.
  pose proof (length_omap_filter (sortedEntryFor B pool') rayStates) as Hcount.
  set (kept := omap (sortedEntryFor B pool') rayStates) in *.
  set (nulls := filter (fun p => sortedEntryFor B pool' p = None) rayStates) in *.
  set (alloc := allocSortedEntries scratch (length rayStates)) in *.
  assert (Halloc : length alloc = length rayStates).
  { unfold alloc, allocSortedEntries. by rewrite length_map, length_seq. }
  rewrite Hn, Harr, Hfree.
  destruct (smartSort32_spec kept (drop (length kept) alloc) (maxSortKey st) Hmax)
    as (sorted & -> & Hsp & Hss & Hsl & _).
  set (arr := sorted ++ drop (length kept) alloc).
  assert (Harrlen : length arr = length rayStates).
  { unfold arr. rewrite length_app, length_drop. lia. }
  assert (Htake : forall k, k <= length kept -> take k arr = take k sorted).
  { intros k Hk. unfold arr. rewrite take_app_le by lia. done. }
  assert (Htail : forall k, k <= length kept ->
            take (length kept - k) (drop k arr) = drop k sorted).
  { intros k Hk. unfold arr. rewrite drop_app_le by lia.
    rewrite take_app_length' by (rewrite length_drop; lia). done. }
  assert (Hsmat : Forall (fun e => mMaterial e = None -> mSortKey e = 0) sorted).
  { by rewrite Hsp. }
  assert (Hfinish : forall numMisses toFree log,
    numMisses <= length kept ->
    toFree = nulls ++ map mRsIdx (take numMisses sorted) ->
    freedRayStates log = [] -> forwardedRayStates log = [] ->
    Forall (fun e => mSortKey e <> 0) (drop numMisses sorted) ->
    exists log',
      (if decide (length toFree <= length rayStates)
       then dispatchLoop B (S (length arr)) pool' arr (length kept) numMisses
              (log ++ [BvFreeRayStates toFree])
       else None) = Some log' /\
      freedRayStates log' ++ forwardedRayStates log' ≡ₚ rayStates).
  { intros numMisses toFree log Hm -> Hg1 Hg2 Hnz.
    rewrite decide_True.
    2:{ rewrite length_app, length_map, length_take. lia. }
    destruct (dispatchLoop_spec B pool' arr (length kept) (S (length arr)) numMisses
                (log ++ [BvFreeRayStates (nulls ++ map mRsIdx (take numMisses sorted))]))
      as (log' & -> & Hd1 & Hd2); [done|lia|lia| | |].
    { rewrite Htail by done. apply Forall_forall. intros e He Hnone.
      rewrite Forall_forall in Hnz, Hsmat.
      apply (Hnz e He). apply Hsmat; [|done].
      by eapply subseteq_drop. }
    { by rewrite Htail. }
    exists log'. split; [done|]. rewrite Hd1, Hd2, Htail by done.
    unfold freedRayStates, forwardedRayStates. rewrite !flat_map_app. simpl.
    fold (freedRayStates log). fold (forwardedRayStates log).
    rewrite Hg1, Hg2. simpl. rewrite !app_nil_r, <- app_assoc, <- map_app, take_drop.
    by rewrite Hsp. }
  destruct (sorted !! 0) as [e0|] eqn:Hs0.
  2:{ (* nothing was kept for sorting *)
    apply lookup_ge_None in Hs0.
    assert (Hnil : sorted = []) by (apply length_zero_iff_nil; lia).
    rewrite Hnil in Hsl. simpl in Hsl. destruct Hkept as [Hk|Hk].
    { exfalso. apply Hk. apply length_zero_iff_nil. lia. }
    assert (Harr0 : arr !! 0 = Some (scratch 0)).
    { unfold arr. rewrite Hnil. simpl. rewrite <- Hsl, drop_0.
      unfold alloc, allocSortedEntries. destruct (length rayStates); done. }
    rewrite Harr0, decide_False by done.
    destruct (Hfinish 0 nulls (bLog st)) as (log' & Hrun & Hp).
    { lia. }
    { by rewrite take_0, app_nil_r. }
    { by rewrite Hf1. }
    { by rewrite Hf2. }
    { rewrite Hnil. constructor. }
    exists log'. split; [|done]. rewrite <- Hrun, <- Hsl. done. }
  - assert (Hkl : 1 <= length kept).
    { apply lookup_lt_Some in Hs0. lia. }
    assert (Harr0 : arr !! 0 = Some e0).
    { unfold arr. rewrite lookup_app_l by lia. done. }
    rewrite Harr0.
    destruct (decide (mSortKey e0 = 0)) as [Hz|Hnz].
    + destruct (scanSpan_spec 0 (drop 1 arr) 1 (length kept))
        as (s & -> & Hs & Hall & Hstop); [lia|rewrite length_drop; lia|].
      rewrite decide_True by lia.
      destruct (missLoop_spec B bfs (length rayStates) pool' arr s nulls (bLog st))
        as (ms & -> & Hmf & Hm1 & Hm2); [lia|lia|].
      rewrite Hnc.
      destruct (Hfinish s (missToFree ms)
                  (missLog ms ++ [BvAddRadianceQueueEntries (radiances ms)]))
        as (log' & Hrun & Hp).
      { lia. }
      { rewrite Hmf, Htake by lia. done. }
      { unfold freedRayStates. rewrite flat_map_app. simpl.
        fold (freedRayStates (missLog ms)). by rewrite Hm1, Hf1, Hl1. }
      { unfold forwardedRayStates. rewrite flat_map_app. simpl.
        fold (forwardedRayStates (missLog ms)). by rewrite Hm2, Hf2, Hl2. }
      { destruct (decide (s < length kept)) as [Hlt|Hge].
        - destruct (Hstop Hlt) as (x & Hx & Hxk).
          rewrite lookup_drop in Hx. replace (1 + (s - 1)) with s in Hx by lia.
          assert (Hxs : sorted !! s = Some x).
          { unfold arr in Hx. rewrite lookup_app_l in Hx by lia. done. }
          apply Forall_lookup. intros j e He. rewrite lookup_drop in He.
          pose proof (sortedByKey_lookup sorted s (s + j) x e Hss ltac:(lia) Hxs He).
          lia.
        - rewrite drop_ge by lia. constructor. }
      by exists log'.
    + destruct (Hfinish 0 nulls (bLog st)) as (log' & Hrun & Hp).
      { lia. }
      { by rewrite take_0, app_nil_r. }
      { by rewrite Hf1. }
      { by rewrite Hf2. }
      { rewrite drop_0. apply Forall_lookup. intros j e He.
        pose proof (sortedByKey_lookup sorted 0 j e0 e Hss ltac:(lia) Hs0 He). lia. }
      by exists log'.
Qed.

End HandlerExits.

(** * Further properties of the occlusion resolvers *)
Section OcclusionExtras.
Context {F : Type} {FO : FloatOps F}.
Variable W : @Collab F.
Variable fs : FrameState.

Ltac run_step H :=
  unfold areSingleRaysOccluded_body, forceSingleRaysUnoccluded_body,
    computeXPUOcclusionQueriesOnGPU_body, computePresenceShadowsQueriesBundled_body,
    unoccludedBranch, occludedBranch, forcedBranch, storeResult, freeListIfSet, logEv in H;
  repeat (first [case_decide | case_match]; simplify_eq);
  simpl in *.

Lemma filter_ext_Forall {A : Type} (P Q : A -> Prop)
    `{!forall x, Decision (P x)} `{!forall x, Decision (Q x)} (l : list A) :
  Forall (fun x => P x <-> Q x) l -> filter P l = filter Q l.
Proof.
  induction 1 as [|x l Hx _ IH]; [done|].
  rewrite !filter_cons, IH. destruct (decide (P x)), (decide (Q x)); tauto.
Qed.

Lemma forEach_count {St A : Type} (body : nat -> A -> St -> option St)
    (c : St -> nat) (P : A -> Prop) `{!forall x, Decision (P x)} (xs : list A) :
  forall i s s',
  (forall j x s s', body j x s = Some s' ->
     c s' = c s + (if decide (P x) then 1 else 0)) ->
  forEach body i xs s = Some s' -> c s' = c s + length (filter P xs).
Proof.
  induction xs as [|x xs IH]; intros i s s' Hbody Hrun; simpl in Hrun.
  - simplify_eq. rewrite filter_nil. simpl. lia.
  - destruct (body i x s) as [s1|] eqn:Hb; [|done].
    rewrite (IH _ _ _ Hbody Hrun), (Hbody _ _ _ _ Hb), filter_cons.
    destruct (decide (P x)); simpl; lia.
Qed.

Lemma areSingleRaysOccluded_count base entries m n m' :
  areSingleRaysOccluded W fs base entries m = Some (n, m') ->
  n = length (filter (fun r => emitsRadiance W fs r = true) entries).
Proof.
  intros H. unfold areSingleRaysOccluded in H.
  apply (forEach_count _ (fun s => s.1) (fun r => emitsRadiance W fs r = true)) in H.
  - exact H.
  - intros j x [n1 m1] [n2 m2] Hb. simpl. unfold emitsRadiance.
    unfold areSingleRaysOccluded_body in Hb.
    destruct (accelOccluded W (mkOcclusionRtRay W x)), (disableShadowing fs); simpl in *.
    + run_step Hb; lia.
    + unfold occludedBranch in Hb.
      destruct (decide (mDataPtrHandle x <> nullHandle)) as [Hh|Hh].
      * rewrite bool_decide_eq_true_2 by done. simpl.
        destruct (insideClearRadiusFalloff _ x); run_step Hb; lia.
      * rewrite bool_decide_eq_false_2 by done. simpl. run_step Hb; lia.
    + run_step Hb; lia.
    + run_step Hb; lia.
Qed.

(** X1.  The number of radiances the CPU resolver reports is the number of
    [FORCE_NOT_OCCLUDED] rays plus the number of [STANDARD] rays that are
    unoccluded, or met with shadowing disabled, or occluded inside the
    clear-radius falloff of their light. *)
Theorem computeOcclusionQueriesBundled_count
    (entries : list BundledOcclRay) (log : list Event) :
  exists n m entries',
    computeOcclusionQueriesBundled W fs entries (allocResults (length entries) log)
      = Some (n, m, entries') /\
    n = length (filter (fun r => mOcclTestType r = FORCE_NOT_OCCLUDED
                                 \/ emitsRadiance W fs r = true) entries).
Proof.
  destruct (computeOcclusionQueriesBundled_ok W fs entries
              (allocResults (length entries) log)) as (n & m' & entries' & Hrun & _).
  { by rewrite allocResults_length. }
  { apply allocResults_filled. }
  exists n, m', entries'. split; [done|].
  unfold computeOcclusionQueriesBundled in Hrun.
  pose proof (std_partition_spec isStandard entries) as (Hperm & _ & Hk & Hstd & Hno).
  destruct (std_partition isStandard entries) as [es k]. simpl in Hperm, Hk, Hstd, Hno.
  rewrite <- Hperm, <- (take_drop k es), filter_app, length_app.
  rewrite (filter_ext_Forall _ (fun r => emitsRadiance W fs r = true) (take k es)).
  2:{ eapply Forall_impl; [exact Hstd|]. intros r Hr. apply isStandard_true in Hr.
      rewrite Hr. split; [intros [?|?]; done|by right]. }
  rewrite (filter_ext_Forall _ (fun _ => True) (drop k es)).
  2:{ eapply Forall_impl; [exact Hno|]. intros r Hr. apply isStandard_false in Hr.
      split; [done|by left]. }
  assert (Hall : forall l : list (@BundledOcclRay F), filter (fun _ => True) l = l).
  { induction l as [|x l IH]; [done|]. by rewrite filter_cons_True, IH. }
  rewrite Hall, length_drop.
  assert (Hstdn : forall base m0 n0 m1,
            areSingleRaysOccluded W fs base (take k es) m0 = Some (n0, m1) ->
            n0 = length (filter (fun r => emitsRadiance W fs r = true) (take k es))).
  { intros. by eapply areSingleRaysOccluded_count. }
  case_decide as Hk0.
  - destruct (areSingleRaysOccluded _ _ _ _ _) as [[n1 m1]|] eqn:Hs; [|done].
    apply Hstdn in Hs. case_decide.
    + destruct (forceSingleRaysUnoccluded _ _ _ _) as [[n2 m2]|] eqn:Hf; [|done].
      unfold forceSingleRaysUnoccluded in Hf.
      destruct (forEach _ _ _ _); [|done]. simplify_eq. rewrite length_drop. lia.
    + simplify_eq. lia.
  - assert (k = 0) as -> by (destruct (decide (k = 0)); [done|contradiction]).
    rewrite take_0, filter_nil. simpl. case_decide.
    + destruct (forceSingleRaysUnoccluded _ _ _ _) as [[n2 m2]|] eqn:Hf; [|done].
      unfold forceSingleRaysUnoccluded in Hf.
      destruct (forEach _ _ _ _); [|done]. simplify_eq. rewrite length_drop. lia.
    + simplify_eq. lia.
Qed.

(** *** Releases, for every batch *)

(** X2.  The CPU resolver returns for every batch, having freed the side-data
    list of every ray that has one and released the deep data and the
    cryptomatte data of every ray, once each, in the order of the
    partitioned array. *)
Theorem cpu_resolver_releases_every_handle_once
    (entries : list BundledOcclRay) (log : list Event) :
  exists n m entries',
    computeOcclusionQueriesBundled W fs entries (allocResults (length entries) log)
      = Some (n, m, entries') /\
    entries' ≡ₚ entries /\
    freedLists (mLog m) = freedLists log ++ sideDataToFree entries' /\
    releasedDeepData (mLog m) = releasedDeepData log ++ map mDeepDataHandle entries' /\
    releasedCryptomatteData (mLog m)
      = releasedCryptomatteData log ++ map mCryptomatteDataHandle entries'.
Proof.
  destruct (computeOcclusionQueriesBundled_ok W fs entries
              (allocResults (length entries) log)) as (n & m' & entries' & Hrun & _).
  { by rewrite allocResults_length. }
  { apply allocResults_filled. }
  exists n, m', entries'. split; [done|]. split.
  - unfold computeOcclusionQueriesBundled in Hrun.
    pose proof (std_partition_spec isStandard entries) as (Hperm & _).
    destruct (std_partition isStandard entries) as [es k].
    repeat (first [case_decide | case_match]; simplify_eq); done.
  - by apply computeOcclusionQueriesBundled_releases in Hrun.
Qed.

(** X3.  The GPU resolver returns for every batch, having freed the side-data
    list of every ray that has one and released the deep data of every
    ray, once each, in batch order; it makes no call of
    [releaseCryptomatteData]. *)
Theorem gpu_resolver_releases (rays : list BundledOcclRay) (log : list Event) :
  exists n m,
    computeXPUOcclusionQueriesOnGPU W fs rays (allocResults (length rays) log)
      = Some (n, m) /\
    freedLists (mLog m) = freedLists log ++ sideDataToFree rays /\
    releasedDeepData (mLog m) = releasedDeepData log ++ map mDeepDataHandle rays /\
    releasedCryptomatteData (mLog m) = releasedCryptomatteData log.
Proof.
  destruct (computeXPUOcclusionQueriesOnGPU_ok W fs rays (allocResults (length rays) log))
    as (n & m' & Hrun & _).
  { by rewrite allocResults_length. }
  { apply allocResults_filled. }
  exists n, m'. split; [done|].
  by apply computeXPUOcclusionQueriesOnGPU_releases in Hrun.
Qed.

(** X4.  The presence resolver returns for every batch, having freed the
    side-data list and released the cryptomatte data of every ray, once
    each, in batch order, the list without a test for the null handle; it
    makes no call of [releaseDeepData]. *)
Theorem presence_resolver_releases (entries : list BundledOcclRay) (log : list Event) :
  exists m,
    computePresenceShadowsQueriesBundled W fs entries (allocResults (length entries) log)
      = Some (length entries, m) /\
    freedLists (mLog m) = freedLists log ++ map mDataPtrHandle entries /\
    releasedDeepData (mLog m) = releasedDeepData log /\
    releasedCryptomatteData (mLog m)
      = releasedCryptomatteData log ++ map mCryptomatteDataHandle entries.
Proof.
  destruct (computePresenceShadowsQueriesBundled_ok W fs entries
              (allocResults (length entries) log)) as (m' & Hrun & _).
  { by rewrite allocResults_length. }
  { apply allocResults_filled. }
  exists m'. split; [done|].
  by apply computePresenceShadowsQueriesBundled_releases in Hrun.
Qed.

End OcclusionExtras.

Section OcclusionExtras2.
Context {F : Type} {FO : FloatOps F}.
Variable W : @Collab F.
Variable fs : FrameState.

Ltac run_step H :=
  unfold areSingleRaysOccluded_body, forceSingleRaysUnoccluded_body,
    computeXPUOcclusionQueriesOnGPU_body, computePresenceShadowsQueriesBundled_body,
    unoccludedBranch, occludedBranch, forcedBranch, storeResult, freeListIfSet, logEv in H;
  repeat (first [case_decide | case_match]; simplify_eq);
  simpl in *.

Ltac queue_done :=
  unfold queuedRadiances; rewrite ?omap_app; simpl; rewrite ?app_nil_r; done.

Lemma areSingleRaysOccluded_queue base entries m n m' :
  areSingleRaysOccluded W fs base entries m = Some (n, m') ->
  queuedRadiances (mLog m') = queuedRadiances (mLog m).
Proof.
  intros H. unfold areSingleRaysOccluded in H.
  apply (forEach_proj _ (fun s => queuedRadiances (mLog s.2)) (fun _ => [])) in H.
  - simpl in H. by rewrite H, flat_map_nil, app_nil_r.
  - intros j x [n1 m1] [n2 m2] Hb. run_step Hb; queue_done.
Qed.

Lemma forceSingleRaysUnoccluded_queue base entries m n m' :
  forceSingleRaysUnoccluded W base entries m = Some (n, m') ->
  queuedRadiances (mLog m') = queuedRadiances (mLog m).
Proof.
  intros H. unfold forceSingleRaysUnoccluded in H.
  destruct (forEach _ _ _ _) as [m1|] eqn:Hf; [|done]. simplify_eq.
  apply (forEach_proj _ (fun s => queuedRadiances (mLog s)) (fun _ => [])) in Hf.
  - by rewrite Hf, flat_map_nil, app_nil_r.
  - intros j x m1 m2 Hb. run_step Hb; queue_done.
Qed.

Lemma computeOcclusionQueriesBundled_queue entries m n m' entries' :
  computeOcclusionQueriesBundled W fs entries m = Some (n, m', entries') ->
  queuedRadiances (mLog m') = queuedRadiances (mLog m).
Proof.
  unfold computeOcclusionQueriesBundled.
  destruct (std_partition isStandard entries) as [es k]. intros Hrun.
  case_decide.
  - destruct (areSingleRaysOccluded _ _ _ _ _) as [[n1 m1]|] eqn:Hs; [|done].
    apply areSingleRaysOccluded_queue in Hs. case_decide.
    + destruct (forceSingleRaysUnoccluded _ _ _ _) as [[n2 m2]|] eqn:Hf; [|done].
      apply forceSingleRaysUnoccluded_queue in Hf. simplify_eq. by rewrite Hf.
    + by simplify_eq.
  - case_decide.
    + destruct (forceSingleRaysUnoccluded _ _ _ _) as [[n2 m2]|] eqn:Hf; [|done].
      apply forceSingleRaysUnoccluded_queue in Hf. by simplify_eq.
    + by simplify_eq.
Qed.

Lemma computePresenceShadowsQueriesBundled_queue entries m n m' :
  computePresenceShadowsQueriesBundled W fs entries m = Some (n, m') ->
  queuedRadiances (mLog m') = queuedRadiances (mLog m).
Proof.
  intros H. unfold computePresenceShadowsQueriesBundled in H.
  case_decide; [by simplify_eq|].
  apply (forEach_proj _ (fun s => queuedRadiances (mLog s.2)) (fun _ => [])) in H.
  - simpl in H. by rewrite H, flat_map_nil, app_nil_r.
  - intros j x [n1 m1] [n2 m2] Hb. run_step Hb; queue_done.
Qed.

Lemma computeXPUOcclusionQueriesOnGPU_queue rays m n m' :
  computeXPUOcclusionQueriesOnGPU W fs rays m = Some (n, m') ->
  queuedRadiances (mLog m') = queuedRadiances (mLog m).
Proof.
  intros H. unfold computeXPUOcclusionQueriesOnGPU in H.
  apply (forEach_proj _ (fun s => queuedRadiances (mLog s.2)) (fun _ => [])) in H.
  - simpl in H. rewrite H, flat_map_nil. queue_done.
  - intros j x [n1 m1] [n2 m2] Hb. run_step Hb; queue_done.
Qed.

Lemma mapM_id_Some {A : Type} (l : list (option A)) (k : list A) :
  mapM id l = Some k -> l = map Some k.
Proof.
  intros H. apply mapM_Some in H. induction H as [|x y l k Hxy _ IH]; [done|].
  simpl in *. by subst.
Qed.

Lemma finishOcclusionHandler_queue canceled numEntries n (m : @Machine F) :
  n <= numEntries -> filledUpTo n m ->
  exists m' filled,
    finishOcclusionHandler canceled numEntries (Some (n, m)) = Some (n, m') /\
    take n (mResults m') = map Some filled /\
    queuedRadiances (mLog m')
      = queuedRadiances (mLog m) ++ (if canceled then [] else [filled]).
Proof.
  intros Hn [Hk Hf]. unfold finishOcclusionHandler.
  case_decide; [|lia].
  assert (is_Some (mapM id (take n (mResults m)))) as [filled Hfilled].
  { apply mapM_is_Some, Forall_lookup. intros j x Hx.
    pose proof (lookup_lt_Some _ _ _ Hx) as Hlt. rewrite length_take in Hlt.
    rewrite lookup_take_lt in Hx by lia.
    destruct (Hf j ltac:(lia)) as (r & Hr). rewrite Hr in Hx. simplify_eq. by eexists. }
  rewrite Hfilled. apply mapM_id_Some in Hfilled.
  destruct canceled.
  - exists m, filled. by rewrite app_nil_r.
  - eexists _, filled. split; [done|]. split; [done|]. simpl. queue_done.
Qed.

(** X5.  Each bundle handler returns for every batch.  Unless cancellation is
    seen it then makes one call of [addRadianceQueueEntries], with exactly
    the radiances its resolver filled, in slot order; when cancellation is
    seen it makes none and the filled radiances are dropped. *)
Theorem bundle_handlers_queue_the_filled_radiances
    (canceled : bool) (entries : list BundledOcclRay) (log : list Event) :
  (exists n m filled,
     occlusionQueryBundleHandler W fs canceled entries log = Some (n, m) /\
     take n (mResults m) = map Some filled /\
     queuedRadiances (mLog m)
       = queuedRadiances log ++ (if canceled then [] else [filled])) /\
  (exists n m filled,
     presenceShadowsQueryBundleHandler W fs canceled entries log = Some (n, m) /\
     take n (mResults m) = map Some filled /\
     queuedRadiances (mLog m)
       = queuedRadiances log ++ (if canceled then [] else [filled])) /\
  (exists n m filled,
     xpuOcclusionQueryBundleHandler W fs canceled entries log = Some (n, m) /\
     take n (mResults m) = map Some filled /\
     queuedRadiances (mLog m)
       = queuedRadiances log ++ (if canceled then [] else [filled])).
Proof.
  pose proof (allocResults_filled (length entries) log) as Hf.
  pose proof (allocResults_length (length entries) log) as Hc.
  split; [|split].
  - unfold occlusionQueryBundleHandler.
    destruct (computeOcclusionQueriesBundled_ok W fs entries _ ltac:(rewrite Hc; lia) Hf)
      as (n & m' & e' & Hrun & Hn & Hc' & Hf').
    rewrite Hrun. cbn -[finishOcclusionHandler].
    apply computeOcclusionQueriesBundled_queue in Hrun.
    destruct (finishOcclusionHandler_queue canceled (length entries) n m' Hn Hf')
      as (m'' & filled & -> & Hr & Hq).
    exists n, m'', filled. rewrite Hq, Hrun. done.
  - unfold presenceShadowsQueryBundleHandler.
    destruct (computePresenceShadowsQueriesBundled_ok W fs entries _
                ltac:(rewrite Hc; lia) Hf) as (m' & Hrun & Hc' & Hf').
    rewrite Hrun. apply computePresenceShadowsQueriesBundled_queue in Hrun.
    destruct (finishOcclusionHandler_queue canceled (length entries) _ m' (le_n _) Hf')
      as (m'' & filled & -> & Hr & Hq).
    eexists _, m'', filled. rewrite Hq, Hrun. done.
  - unfold xpuOcclusionQueryBundleHandler.
    destruct (computeXPUOcclusionQueriesOnGPU_ok W fs entries _ ltac:(rewrite Hc; lia) Hf)
      as (n & m' & Hrun & Hn & Hc' & Hf').
    rewrite Hrun. apply computeXPUOcclusionQueriesOnGPU_queue in Hrun.
    destruct (finishOcclusionHandler_queue canceled (length entries) n m' Hn Hf')
      as (m'' & filled & -> & Hr & Hq).
    exists n, m'', filled. rewrite Hq, Hrun. done.
Qed.

End OcclusionExtras2.

Section PartitionedInput.
Context {A : Type} (pred : A -> bool).

(** A range that already has its passing elements in front is left as it
    is. *)
Lemma std_partition_partitioned (l1 l2 : list A) :
  Forall (fun x => pred x = true) l1 -> Forall (fun x => pred x = false) l2 ->
  std_partition pred (l1 ++ l2) = (l1 ++ l2, length l1).
Proof.
  intros H1 H2. unfold std_partition.
  set (a := l1 ++ l2).
  assert (Hlo : forall k x, k < length l1 -> a !! k = Some x -> pred x = true).
  { intros k x Hk Hx. unfold a in Hx. rewrite lookup_app_l in Hx by done.
    by eapply (proj1 (Forall_lookup _ _) H1). }
  assert (Hhi : forall k x, length l1 <= k -> a !! k = Some x -> pred x = false).
  { intros k x Hk Hx. unfold a in Hx. rewrite lookup_app_r in Hx by done.
    by eapply (proj1 (Forall_lookup _ _) H2). }
  assert (Hlen : length a = length l1 + length l2) by (unfold a; by rewrite length_app).
  destruct (decide (length a = 0)) as [Hz|Hnz].
  { rewrite Hz. simpl. f_equal. lia. }
  destruct (length a) as [|fuel] eqn:Hfuel at 1; [done|].
  cbn [partitionLoop]. rewrite Nat.sub_0_r.
  pose proof (advanceFirst_spec pred a (length a) 0 ltac:(lia)) as Haf.
  simpl in Haf. set (f := advanceFirst pred a 0 (length a)) in *.
  destruct Haf as (Hfr & Hfall & Hfstop).
  assert (Hf : f = length l1).
  { destruct (decide (f < length l1)) as [Hlt|Hge].
    - destruct (Hfstop ltac:(lia)) as (x & Hx & Hpx).
      rewrite (Hlo f x Hlt Hx) in Hpx. done.
    - destruct (decide (length l1 < f)) as [Hgt|?]; [|lia].
      destruct (lookup_lt_is_Some_2 a (length l1) ltac:(lia)) as [x Hx].
      pose proof (Hhi (length l1) x (le_n _) Hx) as Hc.
      rewrite (Hfall (length l1) x ltac:(lia) Hx) in Hc. done. }
  destruct (decide (f = length a)) as [?|Hne]; [by rewrite Hf|].
  pose proof (retreatLast_spec pred a (length a - 1 - f) f ltac:(lia)) as Hrl.
  simpl in Hrl. set (l := retreatLast pred a f (length a - 1 - f)) in *.
  destruct Hrl as (Hlr & Hlall & Hlstop).
  destruct (decide (f = l)) as [?|Hfl]; [by rewrite Hf|].
  destruct (Hlstop ltac:(lia)) as (x & Hx & Hpx).
  rewrite (Hhi l x ltac:(lia) Hx) in Hpx. done.
Qed.

End PartitionedInput.

Section OcclusionExtras3.
Context {F : Type} {FO : FloatOps F}.
Variable W : @Collab F.
Variable fs : FrameState.

Lemma forceSingleRaysUnoccluded_slots base entries (m : @Machine F) :
  Forall (fun r => mOcclTestType r = FORCE_NOT_OCCLUDED) entries ->
  base + length entries <= length (mResults m) ->
  exists m', forceSingleRaysUnoccluded W base entries m = Some (length entries, m') /\
    length (mResults m') = length (mResults m) /\
    (forall i r, entries !! i = Some r ->
       mResults m' !! (base + i) = Some (Some (fillBundledRadiance W (attenuatedRay W r)))) /\
    (forall j, j < base -> mResults m' !! j = mResults m !! j).
Proof.
  intros Hforce Hcap. unfold forceSingleRaysUnoccluded.
  destruct (forEach_inv (forceSingleRaysUnoccluded_body W base)
    (fun j s => length (mResults s) = length (mResults m) /\
       (forall i r, i < j -> entries !! i = Some r ->
          mResults s !! (base + i)
            = Some (Some (fillBundledRadiance W (attenuatedRay W r)))) /\
       (forall k, k < base -> mResults s !! k = mResults m !! k))
    entries 0 m) as (m' & -> & Hlen & Hslots & Hlow).
  - split; [done|]. split; [intros; lia|done].
  - intros j r s Hr _ (Hlen & Hslots & Hlow). rewrite Nat.sub_0_r in Hr.
    pose proof (lookup_lt_Some _ _ _ Hr) as Hj.
    pose proof (proj1 (Forall_lookup _ _) Hforce _ _ Hr) as Hs.
    unfold forceSingleRaysUnoccluded_body, forcedBranch.
    rewrite (decide_False (P := mOcclTestType r <> FORCE_NOT_OCCLUDED))
      by (by intros Hne).
    rewrite storeResult_Some by lia.
    fold (attenuatedRay W r).
    assert (Hres : forall s0 : @Machine F,
      mResults (logEv (EvReleaseCryptomatteData (mCryptomatteDataHandle r))
                 (logEv (EvReleaseDeepData (mDeepDataHandle r))
                    (freeListIfSet r s0))) = mResults s0).
    { intros s0. simpl. by rewrite freeListIfSet_results. }
    case_decide; (eexists; split; [done|]); rewrite Hres; simpl;
      rewrite length_insert; (split; [done|]); split.
    + intros i r0 Hi Hr0. destruct (decide (i = j)) as [->|Hne].
      * assert (r0 = r) as -> by congruence. by rewrite list_lookup_insert_eq by lia.
      * rewrite list_lookup_insert_ne by lia. apply Hslots; [lia|done].
    + intros k Hk. rewrite list_lookup_insert_ne by lia. by apply Hlow.
    + intros i r0 Hi Hr0. destruct (decide (i = j)) as [->|Hne].
      * assert (r0 = r) as -> by congruence. by rewrite list_lookup_insert_eq by lia.
      * rewrite list_lookup_insert_ne by lia. apply Hslots; [lia|done].
    + intros k Hk. rewrite list_lookup_insert_ne by lia. by apply Hlow.
  - exists m'. split; [done|]. split; [done|]. split; [|done].
    intros i r Hr. apply Hslots; [|done]. by eapply lookup_lt_Some.
Qed.

(** X6.  On a batch of [FORCE_NOT_OCCLUDED] rays only, the occlusion handler
    issues no occlusion test and fills one radiance per ray, in batch
    order: [fillBundledRadiance] of the ray with its radiance multiplied,
    component by component, by the volume transmittance.  Unless
    cancellation is seen it hands exactly these to the radiance queue, in
    one call; when cancellation is seen it queues nothing. *)
Theorem forced_batch_is_emitted_unconditionally
    (canceled : bool) (entries : list BundledOcclRay) (log : list Event) :
  Forall (fun r => mOcclTestType r = FORCE_NOT_OCCLUDED) entries ->
  let emitted (r : BundledOcclRay) :=
    let tr := getTransmittance W r in
    fillBundledRadiance W
      (mkOcclRay (mOrigin r) (mDir r) (mMinT r) (mMaxT r) (mTime r) (mDepth r)
         (mkColor (fmul (cr (mRadiance r)) (cr tr)) (fmul (cg (mRadiance r)) (cg tr))
                  (fmul (cb (mRadiance r)) (cb tr)))
         (mPixel r) (mSubpixelIndex r) (mOcclTestType r) (mShadowReceiverId r)
         (mDataPtrHandle r) (mDeepDataHandle r) (mCryptomatteDataHandle r)) in
  exists m,
    occlusionQueryBundleHandler W fs canceled entries log = Some (length entries, m) /\
    mResults m = map (fun r => Some (emitted r)) entries /\
    queuedRadiances (mLog m)
      = queuedRadiances log ++ (if canceled then [] else [map emitted entries]) /\
    occlusionTests (mLog m) = occlusionTests log.
Proof.
  intros Hforce emitted.
  assert (Hpart : std_partition isStandard entries = (entries, 0)).
  { apply (std_partition_partitioned isStandard [] entries); [constructor|].
    eapply Forall_impl; [exact Hforce|]. intros r. apply isStandard_false. }
  destruct (forceSingleRaysUnoccluded_slots 0 entries (allocResults (length entries) log)
              Hforce)
    as (m' & Hrun & Hlen & Hslots & _).
  { rewrite allocResults_length. lia. }
  rewrite allocResults_length in Hlen.
  assert (Hres : mResults m' = map Some (map emitted entries)).
  { apply list_eq. intros i. rewrite !list_lookup_fmap.
    destruct (entries !! i) as [r|] eqn:Hr; simpl.
    - exact (Hslots i r Hr).
    - apply lookup_ge_None. apply lookup_ge_None in Hr. lia. }
  assert (Hres' : mResults m' = map (fun r => Some (emitted r)) entries).
  { by rewrite Hres, map_map. }
  pose proof (forceSingleRaysUnoccluded_tests W _ _ _ _ _ Hrun) as Htests.
  pose proof (forceSingleRaysUnoccluded_queue W _ _ _ _ _ Hrun) as Hq.
  assert (Hm : forall l : list (@BundledRadiance F), mapM id (map Some l) = Some l).
  { induction l as [|x l IH]; [done|]. cbn. cbn in IH. by rewrite IH. }
  unfold occlusionQueryBundleHandler, computeOcclusionQueriesBundled.
  rewrite Hpart. cbn zeta. rewrite decide_False by (intros ?; done).
  rewrite drop_0, Nat.sub_0_r.
  case_decide as Hz.
  - rewrite Hrun. cbn -[mapM take]. rewrite decide_True by lia.
    destruct canceled.
    + exists m'. split; [done|]. split; [exact Hres'|].
      simpl in Hq, Htests. by rewrite Hq, Htests, app_nil_r.
    + rewrite Hres, firstn_all2 by (rewrite !length_map; lia).
      rewrite Hm. eexists. split; [done|].
      cbn -[queuedRadiances occlusionTests].
      split; [exact Hres'|].
      unfold queuedRadiances, occlusionTests in *.
      rewrite !omap_app. cbn [omap list_omap]. simpl in Hq, Htests.
      rewrite Hq, Htests. simpl. by rewrite app_nil_r.
  - assert (entries = []) as -> by (apply length_zero_iff_nil; lia).
    cbn. destruct canceled; eexists; (split; [done|]); (split; [done|]);
      unfold queuedRadiances, occlusionTests, logEv, allocResults; cbn [mLog];
      rewrite ?omap_app; simpl; by rewrite ?app_nil_r.
Qed.

End OcclusionExtras3.

Section LoopFacts.
Context {St A : Type}.

Lemma forEach_app (body : nat -> A -> St -> option St) (l1 l2 : list A) :
  forall i s,
    forEach body i (l1 ++ l2) s
    = match forEach body i l1 s with
      | Some s' => forEach body (i + length l1) l2 s'
      | None => None
      end.
Proof.
  induction l1 as [|x l1 IH]; intros i s; simpl.
  - by rewrite Nat.add_0_r.
  - destruct (body i x s) as [s'|]; [|done].
    rewrite IH. by rewrite Nat.add_succ_r.
Qed.

End LoopFacts.

Section OcclusionExtras4.
Context {F : Type} {FO : FloatOps F}.
Variable W : @Collab F.
Variable fs : FrameState.

Lemma parity_force_body isOccluded base i j ray (m1 m2 : @Machine F) :
  mOcclTestType ray = FORCE_NOT_OCCLUDED ->
  sameDecisions m1 m2 ->
  match forceSingleRaysUnoccluded_body W base i ray m1,
        computeXPUOcclusionQueriesOnGPU_body W fs isOccluded j ray (base + i, m2) with
  | Some m1', Some (n2, m2') => n2 = base + S i /\ sameDecisions m1' m2'
  | None, None => True
  | _, _ => False
  end.
Proof.
  intros Hforce [Hres Hacc]. destruct m1 as [res1 log1], m2 as [res2 log2].
  simpl in Hres, Hacc. subst res2.
  unfold sameDecisions, forceSingleRaysUnoccluded_body,
    computeXPUOcclusionQueriesOnGPU_body, forcedBranch, storeResult, freeListIfSet, logEv.
  rewrite Hforce. simpl.
  repeat (first [case_decide | case_match]; simplify_eq; simpl in * );
    try done; try lia;
    (split; [lia|]); (split; [done|]);
    unfold accountingTrace in *; rewrite ?omap_app; simpl;
    rewrite ?app_nil_r, ?Hacc; done.
Qed.

Lemma parity_force_loop isOccluded base (rays : list BundledOcclRay) :
  forall i j (m1 m2 : @Machine F),
  Forall (fun r => mOcclTestType r = FORCE_NOT_OCCLUDED) rays ->
  sameDecisions m1 m2 ->
  match forEach (forceSingleRaysUnoccluded_body W base) i rays m1,
        forEach (computeXPUOcclusionQueriesOnGPU_body W fs isOccluded) j rays
          (base + i, m2) with
  | Some m1', Some (n2, m2') => n2 = base + i + length rays /\ sameDecisions m1' m2'
  | None, None => True
  | _, _ => False
  end.
Proof.
  induction rays as [|ray rays IH]; intros i j m1 m2 Hforce Hsame; cbn [forEach].
  - split; [simpl; lia|done].
  - apply Forall_cons in Hforce as [Hf Hforce].
    pose proof (parity_force_body isOccluded base i j ray m1 m2 Hf Hsame) as Hb.
    destruct (forceSingleRaysUnoccluded_body _ _ _ _ _) as [m1'|],
      (computeXPUOcclusionQueriesOnGPU_body _ _ _ _ _ _) as [[n2 m2']|];
      try done.
    destruct Hb as [-> Hsame'].
    specialize (IH (S i) (S j) m1' m2' Hforce Hsame').
    replace (base + S i) with (base + S i) in IH by done.
    destruct (forEach (forceSingleRaysUnoccluded_body _ _) _ _ _) as [m1''|],
      (forEach (computeXPUOcclusionQueriesOnGPU_body _ _ _) _ _ _) as [[n2 m2'']|];
      try done.
    destruct IH as [-> ?]. split; [simpl; lia|done].
Qed.

(** X7.  Given the batch in the order in which the CPU resolver's partition
    leaves it, and occlusion answers that agree with the CPU accelerator
    on the [STANDARD] rays, the GPU resolver fills the same radiances in
    the same slots and makes the same accounting calls, list frees and
    deep-data releases in the same order as the CPU resolver, whatever
    mix of [STANDARD] and [FORCE_NOT_OCCLUDED] rays the batch holds. *)
Theorem gpu_matches_cpu_on_partitioned_batch
    (entries : list BundledOcclRay) (m : @Machine F) :
  let entries' := (std_partition isStandard entries).1 in
  (forall j ray, entries' !! j = Some ray -> mOcclTestType ray = STANDARD ->
     gpuOcclusionBuf W entries' j = accelOccluded W (mkOcclusionRtRay W ray)) ->
  sameOutcome
    (fmap fst (computeOcclusionQueriesBundled W fs entries m))
    (computeXPUOcclusionQueriesOnGPU W fs entries' m).
Proof.
  intros entries' Hocc.
  destruct (std_partition_spec isStandard entries) as (_ & Hlen & Hk & Hlo & Hhi).
  unfold computeOcclusionQueriesBundled, computeXPUOcclusionQueriesOnGPU.
  subst entries'.
  destruct (std_partition isStandard entries) as [e k]. cbn [fst snd] in *.
  match goal with
  | |- context [forEach (computeXPUOcclusionQueriesOnGPU_body W fs ?o) 0 e ?s] =>
      replace (forEach (computeXPUOcclusionQueriesOnGPU_body W fs o) 0 e s)
        with (forEach (computeXPUOcclusionQueriesOnGPU_body W fs o) 0
                (take k e ++ drop k e) s) by (by rewrite take_drop)
  end.
  rewrite forEach_app. rewrite length_take_le by lia. rewrite Nat.add_0_l.
  set (m0 := logEv (EvThreadsUsingGPU (-1))
       (logEv (EvGpuOccluded (length e)) (logEv (EvThreadsUsingGPU 1) m))).
  assert (Hsame0 : sameDecisions m m0).
  { split; [done|]. simpl. unfold accountingTrace.
    rewrite !omap_app. simpl. by rewrite !app_nil_r. }
  assert (Hstd : Forall (fun r => mOcclTestType r = STANDARD) (take k e)).
  { eapply Forall_impl; [exact Hlo|]. intros r. apply isStandard_true. }
  assert (Hforce : Forall (fun r => mOcclTestType r = FORCE_NOT_OCCLUDED) (drop k e)).
  { eapply Forall_impl; [exact Hhi|]. intros r. apply isStandard_false. }
  assert (Hloop := parity_loop W fs (gpuOcclusionBuf W e) (take k e) 0 0 m m0 Hstd).
  assert (Hans : forall j ray, take k e !! j = Some ray ->
            gpuOcclusionBuf W e (0 + j) = accelOccluded W (mkOcclusionRtRay W ray)).
  { intros j ray Hj. pose proof (proj1 (Forall_lookup _ _) Hstd _ _ Hj) as Hs.
    apply lookup_take_Some in Hj as [Hj _]. by apply Hocc. }
  specialize (Hloop Hans Hsame0).
  assert (Hstage : match
      (if decide (k <> 0) then
         match areSingleRaysOccluded W fs 0 (take k e) m with
         | None => None
         | Some (n, m1) => Some (0 + n, 0 + n, m1)
         end
       else Some (0, 0, m)),
      forEach (computeXPUOcclusionQueriesOnGPU_body W fs (gpuOcclusionBuf W e)) 0
        (take k e) (0, m0) with
    | Some (r, t, m1), Some (n2, m2) => r = n2 /\ t = n2 /\ sameDecisions m1 m2
    | None, None => True
    | _, _ => False
    end).
  { case_decide as Hk0.
    - unfold areSingleRaysOccluded.
      destruct (forEach (areSingleRaysOccluded_body _ _ _) _ _ _) as [[n1 m1]|],
        (forEach (computeXPUOcclusionQueriesOnGPU_body _ _ _) _ _ _) as [[n2 m2]|];
        simpl in *; try done. destruct Hloop as [-> ?]. done.
    - assert (k = 0) as -> by (destruct (decide (k = 0)); [done|contradiction]).
      rewrite take_0. simpl. done. }
  cbn zeta.
  destruct (if decide (k <> 0) then _ else _) as [[[r t] m1]|],
    (forEach (computeXPUOcclusionQueriesOnGPU_body _ _ _) 0 (take k e) _) as [[n2 m2]|];
    try done.
  destruct Hstage as (-> & -> & Hsame).
  pose proof (parity_force_loop (gpuOcclusionBuf W e) n2 (drop k e) 0 k m1 m2
    Hforce Hsame) as Hf.
  rewrite Nat.add_0_r in Hf.
  case_decide as Hn.
  - unfold forceSingleRaysUnoccluded.
    destruct (forEach (forceSingleRaysUnoccluded_body _ _) _ _ _) as [m1'|],
      (forEach (computeXPUOcclusionQueriesOnGPU_body _ _ _) _ _ _) as [[n3 m3]|];
      simpl in *; try done. destruct Hf as [-> ?]. done.
  - assert (drop k e = []) as Hnil.
    { apply length_zero_iff_nil. rewrite length_drop.
      destruct (decide (length e - k = 0)); [done|contradiction]. }
    rewrite Hnil in *. simpl in *. destruct Hf as [_ ?]. done.
Qed.

End OcclusionExtras4.


(** * Further properties of the ray bundle handler *)
Section BundleRuns.
Context {F : Type} {FO : FloatOps F}.
Variable B : @BundleCollab F.
Variable bfs : BundleFrameState.

Lemma missAovs_events rsIdx rs (log : list BundleEvent) :
  exists evs, missAovs B bfs rsIdx rs log = log ++ evs /\
    Forall (fun e => isMissAov e = true) evs.
Proof.
  unfold missAovs.
  destruct (missRadianceAlpha B rs) as [radiance alpha].
  repeat (first [case_decide | case_match]; simplify_eq);
    rewrite <- ?app_assoc; eexists; (split; [try reflexivity; by rewrite app_nil_r|]);
    repeat constructor.
Qed.

Lemma missLoop_run numEntries pool (arr : list SortedEntry) numMisses
    (toFree : list nat) (log : list BundleEvent) :
  numMisses <= length arr ->
  length toFree + numMisses <= numEntries ->
  exists ms aovs,
    missLoop B bfs numEntries pool arr numMisses (mkMissState [] toFree log) = Some ms /\
    missToFree ms = toFree ++ map mRsIdx (take numMisses arr) /\
    radiances ms
      = map (fun e => missBundledRadiance B (pool (mRsIdx e))) (take numMisses arr) /\
    missLog ms = log ++ aovs /\ Forall (fun e => isMissAov e = true) aovs.
Proof.
  intros Harr Hcap. unfold missLoop.
  destruct (forEach_inv
    (fun i (_ : nat) st => missLoop_body B bfs numEntries pool arr i st)
    (fun i ms => missToFree ms = toFree ++ map mRsIdx (take i arr) /\
       radiances ms = map (fun e => missBundledRadiance B (pool (mRsIdx e))) (take i arr) /\
       exists aovs, missLog ms = log ++ aovs /\ Forall (fun e => isMissAov e = true) aovs)
    (seq 0 numMisses) 0 (mkMissState [] toFree log)) as (ms & Hms & Hinv).
  - rewrite take_0, app_nil_r. split; [done|]. split; [done|].
    exists []. by rewrite app_nil_r.
  - intros j x ms Hx _ (Hfree & Hrad & aovs & Hlog & Haovs).
    apply lookup_lt_Some in Hx. rewrite length_seq, Nat.sub_0_r in Hx.
    unfold missLoop_body.
    destruct (lookup_lt_is_Some_2 arr j ltac:(lia)) as [entry Hentry].
    rewrite Hentry. unfold pushRayStateToFree.
    assert (length (take j arr) = j) as Hlen by (rewrite length_take; lia).
    case_decide as Hroom.
    2:{ rewrite Hfree, length_app, length_map, Hlen in Hroom. lia. }
    eexists; split; [done|]. simpl.
    rewrite Hfree, Hrad, (take_S_r _ _ _ Hentry), !map_app, app_assoc.
    split; [done|]. split; [done|].
    destruct (missAovs_events (mRsIdx entry) (pool (mRsIdx entry)) (missLog ms))
      as (evs & -> & Hevs).
    exists (aovs ++ evs). rewrite Hlog, <- app_assoc. split; [done|].
    by apply Forall_app.
  - rewrite length_seq in Hinv. simpl in Hinv.
    destruct Hinv as (? & ? & aovs & ? & ?). by exists ms, aovs.
Qed.

Lemma sortedByKey_app_inv (l1 l2 : list SortedEntry) :
  sortedByKey (l1 ++ l2) ->
  sortedByKey l1 /\ sortedByKey l2 /\
  forall e1 e2, e1 ∈ l1 -> e2 ∈ l2 -> mSortKey e1 <= mSortKey e2.
Proof.
  intros Hs. split; [by eapply StronglySorted_app_1_l|].
  split; [by eapply StronglySorted_app_1_r|].
  intros e1 e2 H1 H2. by eapply (StronglySorted_app_1_elem_of keyLe l1 l2).
Qed.

(** The routing loop cuts a sorted range of entries with materials into
    runs of one key each and makes one submission per run. *)
Lemma dispatchLoop_runs pool (arr : list SortedEntry) endEntry :
  forall fuel currEntry log,
  (forall c, isCanceled B c = false) ->
  currEntry <= endEntry <= length arr ->
  endEntry - currEntry < fuel ->
  sortedByKey (take (endEntry - currEntry) (drop currEntry arr)) ->
  Forall (fun e => mMaterial e <> None) (take (endEntry - currEntry) (drop currEntry arr)) ->
  Forall (fun e => mSortKey e <> 0) (take (endEntry - currEntry) (drop currEntry arr)) ->
  exists runs subs,
    dispatchLoop B fuel pool arr endEntry currEntry log
      = Some (log ++ map (fun s => BvShadeQueueAddEntries s.1 s.2) subs) /\
    concat runs = take (endEntry - currEntry) (drop currEntry arr) /\
    Forall isKeyRun runs /\ StronglySorted runBefore runs /\
    Forall2 (fun run s => submission pool run = Some s) runs subs.
Proof.
  induction fuel as [|fuel IH]; intros curr log Hnc Hr Hfuel Hsorted Hmat Hkeys; [lia|].
  simpl. destruct (decide (curr = endEntry)) as [->|Hne].
  { exists [], []. rewrite Nat.sub_diag, take_0. simpl. rewrite app_nil_r.
    repeat split; constructor. }
  destruct (lookup_lt_is_Some_2 arr curr ltac:(lia)) as [first Hfirst].
  rewrite Hfirst.
  destruct (scanSpan_spec (mSortKey first) (drop (S curr) arr) (S curr) endEntry)
    as (s & Hscan & Hs & Hall & Hstop).
  { lia. }
  { rewrite length_drop. lia. }
  assert (Hsplit : take (endEntry - curr) (drop curr arr)
            = take (s - curr) (drop curr arr) ++ take (endEntry - s) (drop s arr)).
  { replace (endEntry - curr) with ((s - curr) + (endEntry - s)) by lia.
    rewrite <- take_take_drop, drop_drop. do 3 f_equal. lia. }
  assert (Hrun : take (s - curr) (drop curr arr)
            = first :: take (s - S curr) (drop (S curr) arr)).
  { rewrite (drop_S _ _ _ Hfirst). replace (s - curr) with (S (s - S curr)) by lia. done. }
  rewrite Hsplit in Hmat, Hsorted, Hkeys. apply Forall_app in Hmat as [Hm1 Hm2].
  apply Forall_app in Hkeys as [Hkz1 Hkz2].
  apply sortedByKey_app_inv in Hsorted as (_ & Hsorted2 & Hle).
  assert (Hfm : mMaterial first <> None).
  { rewrite Hrun in Hm1. by apply Forall_cons in Hm1 as [? _]. }
  assert (Hfk : mSortKey first <> 0).
  { rewrite Hrun in Hkz1. by apply Forall_cons in Hkz1 as [? _]. }
  rewrite (decide_False (P := mSortKey first = 0)) by done.
  rewrite Hscan. rewrite (decide_False (P := s - curr = 0)) by lia.
  destruct (mMaterial first) as [material|] eqn:Hmaterial; [|done].
  rewrite Hnc.
  destruct (IH s (log ++ [BvShadeQueueAddEntries (getShadeQueue material)
              (map (mkShadeEntry pool) (take (s - curr) (drop curr arr)))])
              Hnc ltac:(lia) ltac:(lia) Hsorted2 Hm2 Hkz2)
    as (runs & subs & -> & Hconcat & Hruns & Hord & Hsubs).
  exists (take (s - curr) (drop curr arr) :: runs),
    ((getShadeQueue material,
      map (mkShadeEntry pool) (take (s - curr) (drop curr arr))) :: subs).
  split; [by rewrite <- app_assoc|].
  split; [by rewrite Hsplit, <- Hconcat|].
  split.
  { constructor; [|done]. exists first, (take (s - S curr) (drop (S curr) arr)).
    done. }
  split.
  { constructor; [done|]. apply Forall_forall. intros run Hin e1 e2 He1 He2.
    assert (He2' : e2 ∈ take (endEntry - s) (drop s arr)).
    { rewrite <- Hconcat. apply list_elem_of_In, in_concat. exists run.
      split; by apply list_elem_of_In. }
    assert (Hk1 : mSortKey e1 = mSortKey first).
    { rewrite Hrun in He1. apply elem_of_cons in He1 as [->|He1]; [done|].
      by apply (proj1 (Forall_forall _ _) Hall). }
    destruct (decide (s < endEntry)) as [Hlt|Hge].
    - destruct (Hstop Hlt) as (x & Hx & Hxk).
      rewrite lookup_drop in Hx. replace (S curr + (s - S curr)) with s in Hx by lia.
      assert (Hxin : x ∈ take (endEntry - s) (drop s arr)).
      { apply list_elem_of_lookup. exists 0.
        rewrite lookup_take_lt by lia. rewrite lookup_drop, Nat.add_0_r. done. }
      assert (Hfin : first ∈ take (s - curr) (drop curr arr)).
      { rewrite Hrun. apply elem_of_cons. by left. }
      pose proof (Hle first x Hfin Hxin) as H1.
      assert (H2 : mSortKey x <= mSortKey e2).
      { apply list_elem_of_lookup in He2' as [j Hj].
        eapply (sortedByKey_lookup _ 0 j x e2 Hsorted2); [lia| |done].
        rewrite lookup_take_lt by lia. rewrite lookup_drop, Nat.add_0_r. done. }
      lia.
    - replace (endEntry - s) with 0 in He2' by lia. rewrite take_0 in He2'.
      by apply elem_of_nil in He2'. }
  constructor; [|done]. rewrite Hrun. cbn [submission]. by rewrite Hmaterial.
Qed.

End BundleRuns.

Section BundleOutcome.
Context {F : Type} {FO : FloatOps F}.
Variable B : @BundleCollab F.
Variable bfs : BundleFrameState.

Lemma buildSortedEntries_log scratch pool rays log st :
  buildSortedEntries B bfs scratch pool rays log = Some st ->
  bLog st = log ++ flat_map (buildEvents B bfs pool) rays.
Proof.
  unfold buildSortedEntries. intros Hrun.
  apply (forEach_proj _ (@bLog F) (buildEvents B bfs pool)) in Hrun; [done|].
  intros j p s s' Hb. unfold buildSortedEntries_body, buildEvents in *.
  unfold storeEntry, pushRayStateToFree in Hb.
  repeat (first [case_decide | case_match]; simplify_eq; simpl in * );
    rewrite ?app_nil_r; try done.
Qed.

Lemma sorted_zero_prefix (sorted : list SortedEntry) n :
  sortedByKey sorted -> n <= length sorted ->
  Forall (fun e => mSortKey e = 0) (take n sorted) ->
  (forall e, sorted !! n = Some e -> mSortKey e <> 0) ->
  Forall (fun e => mSortKey e <> 0) (drop n sorted).
Proof.
  intros Hs Hn Hz Hstop. apply Forall_lookup. intros j e He.
  rewrite lookup_drop in He.
  destruct (lookup_lt_is_Some_2 sorted n) as [x Hx].
  { apply lookup_lt_Some in He. lia. }
  pose proof (sortedByKey_lookup sorted n (n + j) x e Hs ltac:(lia) Hx He).
  pose proof (Hstop x Hx). lia.
Qed.

(** The handler up to the bulk free: the key-assigning loop, the sort, the
    miss run and the cancellation check behind it. *)
Lemma rayBundleHandler_front (scratch : nat -> SortedEntry) (pool : Pool)
    (rayStates : list nat) :
  let pool' := volumeStage B rayStates (intersectionStage B rayStates pool) in
  let kept := omap (sortedEntryFor B pool') rayStates in
  let nulls := filter (fun p => sortedEntryFor B pool' p = None) rayStates in
  let log0 := (if mRequiresHeatMap bfs then [BvHeatMapBundledUpdate] else [])
                ++ flat_map (buildEvents B bfs pool') rayStates in
  isCanceled B AfterVolumes = false ->
  rayStates <> [] ->
  kept <> [] \/ mSortKey (scratch 0) <> 0 ->
  (forall p material, p ∈ rayStates -> geomID (mRay (pool' p)) <> (-1)%Z ->
     sortMaterial B (pool' p) = Some material -> 1 <= getMaterialId material) ->
  exists sorted rest n aovs,
    sorted ≡ₚ kept /\ sortedByKey sorted /\ n <= length sorted /\
    length (sorted ++ rest) = length rayStates /\
    Forall (fun e => mSortKey e = 0) (take n sorted) /\
    Forall (fun e => mSortKey e <> 0) (drop n sorted) /\
    Forall (fun e => isMissAov e = true) aovs /\
    let missEvents :=
      if decide (n = 0) then []
      else aovs ++ [BvAddRadianceQueueEntries
                      (map (fun e => missBundledRadiance B (pool' (mRsIdx e)))
                         (take n sorted))] in
    rayBundleHandler B bfs scratch pool rayStates =
      if negb (bool_decide (n = 0)) && isCanceled B AfterMisses
      then Some (log0 ++ missEvents)
      else dispatchLoop B (S (length (sorted ++ rest))) pool' (sorted ++ rest)
             (length sorted) n
             (log0 ++ missEvents
                ++ [BvFreeRayStates (nulls ++ map mRsIdx (take n sorted))]).
Proof.
  intros pool' kept nulls log0 Hnc Hne Hkept Hid. unfold rayBundleHandler.
  assert (Hlen0 : length rayStates <> 0) by (by destruct rayStates).
  rewrite decide_False by done. rewrite Hnc.
  fold pool'.
  set (logH := if mRequiresHeatMap bfs then [BvHeatMapBundledUpdate] else []) in *.
  destruct (buildSortedEntries_spec B bfs scratch pool' rayStates logH Hid)
    as (st & Hbuild & Hn & Harr & Hfree & Hmax & _ & _).
  pose proof (buildSortedEntries_log _ _ _ _ _ Hbuild) as Hlog. fold log0 in Hlog.
  rewrite Hbuild.
  rewrite firstn_all in Hn, Harr, Hfree, Hmax.
  pose proof (length_omap_filter (sortedEntryFor B pool') rayStates) as Hcount.
  fold kept in Hn, Harr, Hmax, Hcount. fold nulls in Hfree, Hcount.
  set (alloc := allocSortedEntries scratch (length rayStates)) in *.
  assert (Halloc : length alloc = length rayStates).
  { unfold alloc, allocSortedEntries. by rewrite length_map, length_seq. }
  rewrite Hn, Harr, Hfree, Hlog.
  destruct (smartSort32_spec kept (drop (length kept) alloc) (maxSortKey st) Hmax)
    as (sorted & -> & Hsp & Hss & Hsl & _).
  set (rest := drop (length kept) alloc).
  set (arr := sorted ++ rest).
  assert (Harrlen : length arr = length rayStates).
  { unfold arr, rest. rewrite length_app, length_drop. lia. }
  rewrite <- Hsl.
  exists sorted, rest.
  destruct (sorted !! 0) as [e0|] eqn:Hs0.
  2:{ apply lookup_ge_None in Hs0.
    assert (Hnil : sorted = []) by (apply length_zero_iff_nil; lia).
    rewrite Hnil in Hsl. simpl in Hsl. destruct Hkept as [Hk|Hk].
    { exfalso. apply Hk. apply length_zero_iff_nil. lia. }
    assert (Harr0 : arr !! 0 = Some (scratch 0)).
    { unfold arr, rest. rewrite Hnil. simpl. rewrite <- Hsl, drop_0.
      unfold alloc, allocSortedEntries. destruct (length rayStates); done. }
    rewrite Harr0, decide_False by done.
    exists 0, []. rewrite take_0, drop_0. cbn zeta.
    rewrite (decide_True (P := 0 = 0)) by done.
    rewrite bool_decide_eq_true_2 by done.
    cbn [negb andb map]. rewrite !app_nil_r.
    rewrite decide_True by (rewrite <- Hcount; lia).
    repeat split; try done; try constructor; try lia.
    rewrite Hnil. constructor. }
  assert (Hkl : 1 <= length sorted).
  { apply lookup_lt_Some in Hs0. lia. }
  assert (Harr0 : arr !! 0 = Some e0).
  { unfold arr. rewrite lookup_app_l by lia. done. }
  assert (Htake : forall k, k <= length sorted -> take k arr = take k sorted).
  { intros k Hk. unfold arr. rewrite take_app_le by lia. done. }
  rewrite Harr0.
  destruct (decide (mSortKey e0 = 0)) as [Hz|Hnz].
  - destruct (scanSpan_spec 0 (drop 1 arr) 1 (length sorted))
      as (s & -> & Hs & Hall & Hstop); [lia|rewrite length_drop; lia|].
    rewrite (decide_True (P := s <> 0)) by lia.
    destruct (missLoop_run B bfs (length rayStates) pool' arr s nulls log0)
      as (ms & aovs & -> & Hmf & Hrad & Hml & Haovs); [lia|lia|].
    exists s, aovs. cbn zeta.
    rewrite (decide_False (P := s = 0)) by lia. rewrite bool_decide_eq_false_2 by lia.
    cbn [negb andb].
    rewrite Hml, Hrad, Hmf, Htake by lia. rewrite <- !app_assoc.
    assert (Hzero : Forall (fun e => mSortKey e = 0) (take s sorted)).
    { rewrite <- Htake by lia.
      replace s with (S (s - 1)) by lia.
      destruct arr as [|a arr'] eqn:Ha; [done|]. simpl in Harr0. simplify_eq.
      simpl. simpl in Hall. rewrite ?drop_0 in Hall. by constructor. }
    assert (Hnonzero : Forall (fun e => mSortKey e <> 0) (drop s sorted)).
    { apply sorted_zero_prefix; [done|lia|done|]. intros e He.
      destruct (Hstop ltac:(by eapply lookup_lt_Some)) as (x & Hx & Hxk).
      rewrite lookup_drop in Hx. replace (1 + (s - 1)) with s in Hx by lia.
      unfold arr in Hx. rewrite lookup_app_l in Hx by (by eapply lookup_lt_Some).
      by simplify_eq. }
    split; [done|]. split; [done|]. split; [lia|]. split; [done|].
    split; [done|]. split; [done|]. split; [done|].
    destruct (isCanceled B AfterMisses); [done|].
    rewrite decide_True; [done|].
    rewrite length_app, length_map, length_take. lia.
  - exists 0, []. rewrite take_0, drop_0. cbn zeta.
    rewrite (decide_True (P := 0 = 0)) by done.
    rewrite bool_decide_eq_true_2 by done.
    cbn [negb andb map]. rewrite !app_nil_r.
    rewrite decide_True by (rewrite <- Hcount; lia).
    split; [done|]. split; [done|]. split; [lia|]. split; [done|].
    split; [constructor|]. split; [|split; [constructor|done]].
    apply Forall_lookup. intros j e He.
    pose proof (sortedByKey_lookup sorted 0 j e0 e Hss ltac:(lia) Hs0 He). lia.
Qed.

End BundleOutcome.

Section BundleRun.
Context {F : Type} {FO : FloatOps F}.
Variable B : @BundleCollab F.
Variable bfs : BundleFrameState.

(** The whole handler when nothing is cancelled. *)
Lemma rayBundleHandler_run (scratch : nat -> SortedEntry) (pool : Pool)
    (rayStates : list nat) :
  let pool' := volumeStage B rayStates (intersectionStage B rayStates pool) in
  let kept := omap (sortedEntryFor B pool') rayStates in
  let nulls := filter (fun p => sortedEntryFor B pool' p = None) rayStates in
  let log0 := (if mRequiresHeatMap bfs then [BvHeatMapBundledUpdate] else [])
                ++ flat_map (buildEvents B bfs pool') rayStates in
  (forall c, isCanceled B c = false) ->
  rayStates <> [] ->
  kept <> [] \/ mSortKey (scratch 0) <> 0 ->
  (forall p material, p ∈ rayStates -> geomID (mRay (pool' p)) <> (-1)%Z ->
     sortMaterial B (pool' p) = Some material -> 1 <= getMaterialId material) ->
  exists sorted n aovs runs subs,
    sorted ≡ₚ kept /\ sortedByKey sorted /\ n <= length sorted /\
    Forall (fun e => mSortKey e = 0) (take n sorted) /\
    Forall (fun e => mSortKey e <> 0) (drop n sorted) /\
    Forall (fun e => isMissAov e = true) aovs /\
    concat runs = drop n sorted /\
    Forall isKeyRun runs /\ StronglySorted runBefore runs /\
    Forall2 (fun run s => submission pool' run = Some s) runs subs /\
    rayBundleHandler B bfs scratch pool rayStates =
      Some (log0
              ++ (if decide (n = 0) then []
                  else aovs ++ [BvAddRadianceQueueEntries
                                  (map (fun e => missBundledRadiance B (pool' (mRsIdx e)))
                                     (take n sorted))])
              ++ [BvFreeRayStates (nulls ++ map mRsIdx (take n sorted))]
              ++ map (fun s => BvShadeQueueAddEntries s.1 s.2) subs).
Proof.
  intros pool' kept nulls log0 Hnc Hne Hkept Hid.
  destruct (rayBundleHandler_front B bfs scratch pool rayStates (Hnc _) Hne Hkept Hid)
    as (sorted & rest & n & aovs & Hsp & Hss & Hn & Hlen & Hzero & Hnonzero & Haovs & Hrun).
  fold pool' kept nulls log0 in Hsp, Hrun.
  cbn zeta in Hrun. rewrite Hnc, andb_false_r in Hrun.
  assert (Hseg : take (length sorted - n) (drop n (sorted ++ rest)) = drop n sorted).
  { rewrite drop_app_le by lia.
    rewrite take_app_length' by (rewrite length_drop; lia). done. }
  pose proof (kept_without_material B pool' rayStates) as Hmat. fold kept in Hmat.
  rewrite <- Hsp in Hmat.
  destruct (dispatchLoop_runs B pool' (sorted ++ rest) (length sorted)
              (S (length (sorted ++ rest))) n
              (log0 ++ (if decide (n = 0) then []
                  else aovs ++ [BvAddRadianceQueueEntries
                                  (map (fun e => missBundledRadiance B (pool' (mRsIdx e)))
                                     (take n sorted))])
                 ++ [BvFreeRayStates (nulls ++ map mRsIdx (take n sorted))]))
    as (runs & subs & Hd & Hconcat & Hruns & Hord & Hsubs).
  - done.
  - rewrite length_app. lia.
  - rewrite length_app. lia.
  - rewrite Hseg. rewrite <- (take_drop n sorted) in Hss.
    by eapply StronglySorted_app_1_r.
  - rewrite Hseg. apply Forall_forall. intros e He Hnone.
    rewrite Forall_forall in Hnonzero, Hmat.
    apply (Hnonzero e He). apply Hmat; [|done]. by eapply subseteq_drop.
  - by rewrite Hseg.
  - exists sorted, n, aovs, runs, subs.
    rewrite Hseg in Hconcat. repeat (split; [done|]).
    rewrite Hrun, Hd. by rewrite <- !app_assoc.
Qed.

(** *** Reading the pieces of the log *)

Lemma freed_app (l1 l2 : list (@BundleEvent F)) :
  freedRayStates (l1 ++ l2) = freedRayStates l1 ++ freedRayStates l2.
Proof. unfold freedRayStates. by rewrite flat_map_app. Qed.

Lemma forwarded_app (l1 l2 : list (@BundleEvent F)) :
  forwardedRayStates (l1 ++ l2) = forwardedRayStates l1 ++ forwardedRayStates l2.
Proof. unfold forwardedRayStates. by rewrite flat_map_app. Qed.

Lemma shadeSubmissions_app (l1 l2 : list (@BundleEvent F)) :
  shadeSubmissions (l1 ++ l2) = shadeSubmissions l1 ++ shadeSubmissions l2.
Proof. unfold shadeSubmissions. by rewrite omap_app. Qed.

Lemma queued_app (l1 l2 : list (@BundleEvent F)) :
  queuedBundleRadiances (l1 ++ l2) = queuedBundleRadiances l1 ++ queuedBundleRadiances l2.
Proof. unfold queuedBundleRadiances. by rewrite omap_app. Qed.

Lemma attempts_app (l1 l2 : list (@BundleEvent F)) :
  visibilityAttempts (l1 ++ l2) = visibilityAttempts l1 ++ visibilityAttempts l2.
Proof. unfold visibilityAttempts. by rewrite omap_app. Qed.

Lemma missAov_events_silent (aovs : list (@BundleEvent F)) :
  Forall (fun e => isMissAov e = true) aovs ->
  freedRayStates aovs = [] /\ forwardedRayStates aovs = [] /\
  shadeSubmissions aovs = [] /\ queuedBundleRadiances aovs = [] /\
  visibilityAttempts aovs = [].
Proof.
  induction 1 as [|e aovs He _ (IH1 & IH2 & IH3 & IH4 & IH5)]; [done|].
  change (e :: aovs) with ([e] ++ aovs).
  rewrite freed_app, forwarded_app, shadeSubmissions_app, queued_app, attempts_app.
  rewrite IH1, IH2, IH3, IH4, IH5. by destruct e.
Qed.

Lemma submission_events (subs : list (nat * list SortedRayState)) :
  let evs : list (@BundleEvent F) := map (fun s => BvShadeQueueAddEntries s.1 s.2) subs in
  freedRayStates evs = [] /\
  forwardedRayStates evs = flat_map (fun s => map srsRsIdx s.2) subs /\
  shadeSubmissions evs = subs /\ queuedBundleRadiances evs = [] /\
  visibilityAttempts evs = [].
Proof.
  induction subs as [|[q es] subs (IH1 & IH2 & IH3 & IH4 & IH5)]; [done|].
  cbn zeta in *. rewrite map_cons.
  change (?e :: map ?f subs) with ([e] ++ map f subs).
  rewrite freed_app, forwarded_app, shadeSubmissions_app, queued_app, attempts_app.
  rewrite IH1, IH2, IH3, IH4, IH5. simpl. rewrite app_nil_r. done.
Qed.

Lemma buildEvents_silent (pool : @Pool F) (rays : list nat) :
  let evs := flat_map (buildEvents B bfs pool) rays in
  freedRayStates evs = [] /\ forwardedRayStates evs = [] /\ shadeSubmissions evs = [].
Proof.
  induction rays as [|p rays (IH1 & IH2 & IH3)]; [done|].
  cbn zeta in *. simpl flat_map.
  rewrite freed_app, forwarded_app, shadeSubmissions_app, IH1, IH2, IH3.
  unfold buildEvents. repeat case_match; done.
Qed.

Lemma heatMap_silent :
  let evs : list (@BundleEvent F) :=
    if mRequiresHeatMap bfs then [BvHeatMapBundledUpdate] else [] in
  freedRayStates evs = [] /\ forwardedRayStates evs = [] /\
  shadeSubmissions evs = [] /\ queuedBundleRadiances evs = [] /\
  visibilityAttempts evs = [].
Proof. by destruct (mRequiresHeatMap bfs). Qed.

Lemma submissions_forward (pool : @Pool F) runs subs :
  Forall2 (fun run s => submission pool run = Some s) runs subs ->
  flat_map (fun s : nat * list SortedRayState => map srsRsIdx s.2) subs
    = map mRsIdx (concat runs).
Proof.
  induction 1 as [|run s runs subs Hs _ IH]; [done|].
  simpl. rewrite IH, map_app. f_equal.
  unfold submission in Hs. repeat case_match; simplify_eq. simpl.
  rewrite map_map. done.
Qed.

(** *** Keys and kinds *)

Lemma zero_prefix_is_filter (sorted : list SortedEntry) n :
  Forall (fun e => mSortKey e = 0) (take n sorted) ->
  Forall (fun e => mSortKey e <> 0) (drop n sorted) ->
  take n sorted = filter (fun e => mSortKey e = 0) sorted /\
  drop n sorted = filter (fun e => mSortKey e <> 0) sorted.
Proof.
  intros Hz Hnz. rewrite <- (take_drop n sorted) at 2 4. rewrite !filter_app.
  assert (Hid : forall (P : SortedEntry -> Prop) `{!forall x, Decision (P x)} l,
            Forall P l -> filter P l = l).
  { intros P ? l Hl. induction Hl as [|x l Hx _ IH]; [done|].
    rewrite filter_cons, decide_True by done. by rewrite IH. }
  split.
  - rewrite (Hid _ _ _ Hz), filter_none, app_nil_r; [done|].
    eapply Forall_impl; [exact Hnz|]. simpl. intros e He. done.
  - rewrite (Hid _ _ _ Hnz), filter_none; [done|].
    eapply Forall_impl; [exact Hz|]. simpl. intros e He Hne. done.
Qed.

Lemma kept_by_kind (pool : @Pool F) (rays : list nat) :
  (forall p material, p ∈ rays -> geomID (mRay (pool p)) <> (-1)%Z ->
     sortMaterial B (pool p) = Some material -> 1 <= getMaterialId material) ->
  map mRsIdx (filter (fun e => mSortKey e = 0) (omap (sortedEntryFor B pool) rays))
    = filter (fun p => isMiss pool p = true) rays /\
  map mRsIdx (filter (fun e => mSortKey e <> 0) (omap (sortedEntryFor B pool) rays))
    = filter (fun p => isShaded B pool p = true) rays /\
  filter (fun p => sortedEntryFor B pool p = None) rays
    = filter (fun p => isMiss pool p = false /\ isShaded B pool p = false) rays.
Proof.
  induction rays as [|p rays IH]; intros Hid; [done|].
  destruct IH as (IH1 & IH2 & IH3).
  { intros q material Hq. apply Hid. by apply elem_of_cons; right. }
  specialize (Hid p). 
  change (omap (sortedEntryFor B pool) (p :: rays))
    with (match sortedEntryFor B pool p with
          | Some e => e :: omap (sortedEntryFor B pool) rays
          | None => omap (sortedEntryFor B pool) rays
          end).
  rewrite !(filter_cons _ p).
  assert (Hcase :
    (sortedEntryFor B pool p = Some (mkSortedEntry 0 p None) /\
       isMiss pool p = true /\ isShaded B pool p = false) \/
    (exists material, 1 <= getMaterialId material /\
       sortedEntryFor B pool p
         = Some (mkSortedEntry (getMaterialId material) p (Some material)) /\
       isMiss pool p = false /\ isShaded B pool p = true) \/
    (sortedEntryFor B pool p = None /\
       isMiss pool p = false /\ isShaded B pool p = false)).
  { unfold sortedEntryFor, isMiss, isShaded.
    destruct (decide (geomID (mRay (pool p)) = (-1)%Z)) as [Hmiss|Hhit].
    - left. by rewrite bool_decide_eq_true_2 by done.
    - right. rewrite (bool_decide_eq_false_2 _ Hhit).
      destruct (sortMaterial B (pool p)) as [material|] eqn:Hm.
      + left. exists material. split; [|done].
        apply Hid; [by apply elem_of_cons; left|done|done].
      + right. done. }
  destruct Hcase as [(-> & -> & ->)|[(material & Hge & -> & -> & ->)|(-> & -> & ->)]];
    rewrite ?filter_cons; simpl;
    repeat case_decide; simpl; rewrite ?IH1, ?IH2, ?IH3;
    try done; try lia; naive_solver.
Qed.

End BundleRun.

Section BundleExtras.
Context {F : Type} {FO : FloatOps F}.
Variable B : @BundleCollab F.
Variable bfs : BundleFrameState.

Lemma unshaded_split (pool : @Pool F) (rays : list nat) :
  filter (fun p => isMiss pool p = false /\ isShaded B pool p = false) rays
    ++ filter (fun p => isMiss pool p = true) rays
  ≡ₚ filter (fun p => isShaded B pool p = false) rays.
Proof.
  induction rays as [|p rays IH]; [done|].
  rewrite !filter_cons.
  assert (Hm : isMiss pool p = true -> isShaded B pool p = false).
  { unfold isMiss, isShaded. by intros ->. }
  destruct (isMiss pool p) eqn:H1, (isShaded B pool p) eqn:H2.
  - by specialize (Hm eq_refl).
  - rewrite decide_False by (by intros [? _]). rewrite !decide_True by done.
    rewrite <- Permutation_middle. by f_equiv.
  - rewrite decide_False by (by intros [_ ?]). rewrite !decide_False by done. done.
  - rewrite (decide_True (P := false = false /\ false = false)) by done.
    rewrite (decide_False (P := false = true)) by done.
    rewrite (decide_True (P := false = false)) by done.
    simpl. by f_equiv.
Qed.

Lemma buildEvents_queued (pool : @Pool F) (rays : list nat) :
  queuedBundleRadiances (flat_map (buildEvents B bfs pool) rays)
    = map (fun p => [nullMaterialRadiance B (pool p)])
        (filter (fun p => isMiss pool p = false /\ isShaded B pool p = false /\
                          mVolHit (pool p) = true) rays).
Proof.
  induction rays as [|p rays IH]; [done|].
  simpl flat_map. rewrite queued_app, IH, filter_cons.
  unfold buildEvents, isMiss, isShaded.
  destruct (decide (geomID (mRay (pool p)) = (-1)%Z)) as [Hmiss|Hhit].
  - rewrite (bool_decide_eq_true_2 _ Hmiss).
    rewrite decide_False by (by intros [? _]). by case_match.
  - rewrite (bool_decide_eq_false_2 _ Hhit).
    destruct (sortMaterial B (pool p)) as [material|] eqn:Hm.
    + rewrite bool_decide_eq_true_2 by done.
      rewrite decide_False by (by intros (_ & ? & _)). done.
    + rewrite bool_decide_eq_false_2 by (intros Hc; by apply Hc).
      destruct (mVolHit (pool p)).
      * by rewrite decide_True by done.
      * rewrite decide_False by (by intros (_ & _ & ?)). done.
Qed.

Lemma buildEvents_attempts (pool : @Pool F) (rays : list nat) :
  visibilityAttempts (flat_map (buildEvents B bfs pool) rays)
    = if aovSchemaEmpty bfs then []
      else map (fun p => (wrapInt32 (getLightSampleCount bfs * getLightCount bfs),
                          spPixel (mSubpixel (pool p)), rsDeepDataHandle (pool p)))
             (filter (fun p => isMiss pool p = true /\
                               getDepth (mRay (pool p)) = 0%Z) rays).
Proof.
  induction rays as [|p rays IH]; [by destruct (aovSchemaEmpty bfs)|].
  simpl flat_map. rewrite attempts_app, IH, filter_cons.
  unfold buildEvents, isMiss.
  destruct (decide (geomID (mRay (pool p)) = (-1)%Z)) as [Hmiss|Hhit].
  - rewrite (bool_decide_eq_true_2 _ Hmiss).
    destruct (decide (getDepth (mRay (pool p)) = 0%Z)) as [Hd|Hd].
    + rewrite (bool_decide_eq_true_2 _ Hd), decide_True by done.
      by destruct (aovSchemaEmpty bfs).
    + rewrite (bool_decide_eq_false_2 _ Hd), decide_False by (by intros [_ ?]).
      done.
  - rewrite (bool_decide_eq_false_2 _ Hhit).
    rewrite decide_False by (by intros [? _]).
    repeat case_match; done.
Qed.

(** X8.  With material ids of at least 1 (the [MNRY_VERIFY] on
    [getMaterialId]) and nothing cancelled, a batch in which some ray is
    a miss or has a material leaves the handler like this: the ray states
    that hit geometry with a material are submitted for shading, all the
    others, the misses and the hits without material, go to the bulk
    free. *)
Theorem ray_states_exit_by_kind (scratch : nat -> SortedEntry) (pool : Pool)
    (rayStates : list nat) :
  let pool' := volumeStage B rayStates (intersectionStage B rayStates pool) in
  (forall c, isCanceled B c = false) ->
  rayStates <> [] ->
  omap (sortedEntryFor B pool') rayStates <> [] \/ mSortKey (scratch 0) <> 0 ->
  (forall p material, p ∈ rayStates -> geomID (mRay (pool' p)) <> (-1)%Z ->
     sortMaterial B (pool' p) = Some material -> 1 <= getMaterialId material) ->
  exists log, rayBundleHandler B bfs scratch pool rayStates = Some log /\
    freedRayStates log ≡ₚ filter (fun p => isShaded B pool' p = false) rayStates /\
    forwardedRayStates log ≡ₚ filter (fun p => isShaded B pool' p = true) rayStates.
Proof.
  intros pool' Hnc Hne Hkept Hid.
  destruct (rayBundleHandler_run B bfs scratch pool rayStates Hnc Hne Hkept Hid)
    as (sorted & n & aovs & runs & subs & Hsp & Hss & Hn & Hzero & Hnonzero & Haovs
        & Hconcat & Hruns & Hord & Hsubs & Hrun).
  fold pool' in Hsp, Hsubs, Hrun.
  destruct (zero_prefix_is_filter sorted n Hzero Hnonzero) as [Htake Hdrop].
  destruct (kept_by_kind B pool' rayStates Hid) as (Hk1 & Hk2 & Hk3).
  destruct (heatMap_silent (F := F) bfs) as (Hh1 & Hh2 & _).
  destruct (buildEvents_silent B bfs pool' rayStates) as (Hb1 & Hb2 & _).
  destruct (submission_events (F := F) subs) as (Hs1 & Hs2 & _).
  destruct (missAov_events_silent aovs Haovs) as (Ha1 & Ha2 & _).
  eexists. split; [exact Hrun|].
  rewrite !freed_app, !forwarded_app. cbn zeta in *.
  rewrite Hh1, Hh2, Hb1, Hb2, Hs1, Hs2.
  rewrite (submissions_forward _ _ _ Hsubs), Hconcat.
  assert (Hmissev : forall rads,
    freedRayStates (if decide (n = 0) then []
                    else aovs ++ [BvAddRadianceQueueEntries rads]) = [] /\
    forwardedRayStates (if decide (n = 0) then []
                        else aovs ++ [BvAddRadianceQueueEntries rads]) = []).
  { intros rads. case_decide; [done|].
    by rewrite freed_app, forwarded_app, Ha1, Ha2. }
  destruct (Hmissev (map (fun e => missBundledRadiance B (pool' (mRsIdx e)))
                       (take n sorted))) as [-> ->].
  simpl. rewrite !app_nil_r. split.
  - rewrite Htake, Hsp, Hk1, Hk3. apply unshaded_split.
  - by rewrite Hdrop, Hsp, Hk2.
Qed.

(** X9.  With material ids of at least 1 and nothing cancelled, the routing
    loop makes one shade queue submission per material id present in the
    batch, in ascending order of the ids: the entries kept
    for shading fall into runs of one key each, every run is handed over
    in one call, to the shade queue of the material of its first entry,
    and every entry of a run has a smaller key than every entry of a later
    run. *)
Theorem shade_submissions_one_per_material (scratch : nat -> SortedEntry) (pool : Pool)
    (rayStates : list nat) :
  let pool' := volumeStage B rayStates (intersectionStage B rayStates pool) in
  let kept := omap (sortedEntryFor B pool') rayStates in
  (forall c, isCanceled B c = false) ->
  rayStates <> [] ->
  kept <> [] \/ mSortKey (scratch 0) <> 0 ->
  (forall p material, p ∈ rayStates -> geomID (mRay (pool' p)) <> (-1)%Z ->
     sortMaterial B (pool' p) = Some material -> 1 <= getMaterialId material) ->
  exists log runs,
    rayBundleHandler B bfs scratch pool rayStates = Some log /\
    concat runs ≡ₚ filter (fun e => mSortKey e <> 0) kept /\
    Forall isKeyRun runs /\ StronglySorted runBefore runs /\
    Forall2 (fun run s => submission pool' run = Some s) runs (shadeSubmissions log).
Proof.
  intros pool' kept Hnc Hne Hkept Hid.
  destruct (rayBundleHandler_run B bfs scratch pool rayStates Hnc Hne Hkept Hid)
    as (sorted & n & aovs & runs & subs & Hsp & Hss & Hn & Hzero & Hnonzero & Haovs
        & Hconcat & Hruns & Hord & Hsubs & Hrun).
  fold pool' kept in Hsp, Hsubs, Hrun.
  destruct (zero_prefix_is_filter sorted n Hzero Hnonzero) as [Htake Hdrop].
  destruct (heatMap_silent (F := F) bfs) as (_ & _ & Hh3 & _).
  destruct (buildEvents_silent B bfs pool' rayStates) as (_ & _ & Hb3).
  destruct (submission_events (F := F) subs) as (_ & _ & Hs3 & _).
  destruct (missAov_events_silent aovs Haovs) as (_ & _ & Ha3 & _).
  eexists. exists runs. split; [exact Hrun|].
  split; [by rewrite Hconcat, Hdrop, Hsp|]. split; [done|]. split; [done|].
  rewrite !shadeSubmissions_app. cbn zeta in *. rewrite Hh3, Hb3, Hs3.
  assert (Hmissev : forall rads,
    shadeSubmissions (if decide (n = 0) then []
                      else aovs ++ [BvAddRadianceQueueEntries rads]) = []).
  { intros rads. case_decide; [done|]. by rewrite shadeSubmissions_app, Ha3. }
  rewrite Hmissev. done.
Qed.

(** X10.  What the handler hands to the radiance queue when nothing is
    cancelled: one single-entry call for every hit without material that
    crossed a volume, in batch order, and then, if the batch has misses,
    one call that holds the radiance of every miss. *)
Theorem bundle_radiances_queued (scratch : nat -> SortedEntry) (pool : Pool)
    (rayStates : list nat) :
  let pool' := volumeStage B rayStates (intersectionStage B rayStates pool) in
  (forall c, isCanceled B c = false) ->
  rayStates <> [] ->
  omap (sortedEntryFor B pool') rayStates <> [] \/ mSortKey (scratch 0) <> 0 ->
  (forall p material, p ∈ rayStates -> geomID (mRay (pool' p)) <> (-1)%Z ->
     sortMaterial B (pool' p) = Some material -> 1 <= getMaterialId material) ->
  exists log misses,
    rayBundleHandler B bfs scratch pool rayStates = Some log /\
    misses ≡ₚ filter (fun p => isMiss pool' p = true) rayStates /\
    queuedBundleRadiances log
      = map (fun p => [nullMaterialRadiance B (pool' p)])
          (filter (fun p => isMiss pool' p = false /\ isShaded B pool' p = false /\
                            mVolHit (pool' p) = true) rayStates)
        ++ (if decide (misses = []) then []
            else [map (fun p => missBundledRadiance B (pool' p)) misses]).
Proof.
  intros pool' Hnc Hne Hkept Hid.
  destruct (rayBundleHandler_run B bfs scratch pool rayStates Hnc Hne Hkept Hid)
    as (sorted & n & aovs & runs & subs & Hsp & Hss & Hn & Hzero & Hnonzero & Haovs
        & Hconcat & Hruns & Hord & Hsubs & Hrun).
  fold pool' in Hsp, Hsubs, Hrun.
  destruct (zero_prefix_is_filter sorted n Hzero Hnonzero) as [Htake Hdrop].
  destruct (kept_by_kind B pool' rayStates Hid) as (Hk1 & _ & _).
  destruct (heatMap_silent (F := F) bfs) as (_ & _ & _ & Hh4 & _).
  destruct (submission_events (F := F) subs) as (_ & _ & _ & Hs4 & _).
  destruct (missAov_events_silent aovs Haovs) as (_ & _ & _ & Ha4 & _).
  eexists. exists (map mRsIdx (take n sorted)). split; [exact Hrun|].
  split; [by rewrite Htake, Hsp, Hk1|].
  rewrite !queued_app. cbn zeta in *.
  rewrite Hh4, Hs4, buildEvents_queued. simpl. rewrite app_nil_r.
  f_equal.
  destruct (decide (n = 0)) as [->|Hn0].
  - rewrite take_0. done.
  - destruct (decide (map mRsIdx (take n sorted) = [])) as [Hnil|_].
    { apply (f_equal length) in Hnil.
      rewrite length_map, length_take in Hnil. simpl in Hnil. lia. }
    rewrite queued_app, Ha4, map_map. done.
Qed.

(** X11.  With material ids of at least 1 and nothing cancelled: when the
    AOV schema is not empty the handler records one call of
    [aovAccumVisibilityAttemptsBundled] for every primary ray of the batch
    that hit nothing, in batch order, each with the [int] that
    [getLightSampleCount * getLightCount] is stored in, that is the
    product modulo 2^32 taken in [-2^31, 2^31); with an empty schema it
    records none. *)
Theorem visibility_attempts_for_primary_misses (scratch : nat -> SortedEntry)
    (pool : Pool) (rayStates : list nat) :
  let pool' := volumeStage B rayStates (intersectionStage B rayStates pool) in
  (forall c, isCanceled B c = false) ->
  rayStates <> [] ->
  omap (sortedEntryFor B pool') rayStates <> [] \/ mSortKey (scratch 0) <> 0 ->
  (forall p material, p ∈ rayStates -> geomID (mRay (pool' p)) <> (-1)%Z ->
     sortMaterial B (pool' p) = Some material -> 1 <= getMaterialId material) ->
  exists log,
    rayBundleHandler B bfs scratch pool rayStates = Some log /\
    visibilityAttempts log
      = if aovSchemaEmpty bfs then []
        else map (fun p =>
                    ((((getLightSampleCount bfs * getLightCount bfs + 2 ^ 31)
                        mod 2 ^ 32) - 2 ^ 31)%Z,
                     spPixel (mSubpixel (pool' p)), rsDeepDataHandle (pool' p)))
               (filter (fun p => isMiss pool' p = true /\
                                 getDepth (mRay (pool' p)) = 0%Z) rayStates).
Proof.
  intros pool' Hnc Hne Hkept Hid.
  destruct (rayBundleHandler_run B bfs scratch pool rayStates Hnc Hne Hkept Hid)
    as (sorted & n & aovs & runs & subs & Hsp & Hss & Hn & Hzero & Hnonzero & Haovs
        & Hconcat & Hruns & Hord & Hsubs & Hrun).
  fold pool' in Hsp, Hsubs, Hrun.
  destruct (heatMap_silent (F := F) bfs) as (_ & _ & _ & _ & Hh5).
  destruct (submission_events (F := F) subs) as (_ & _ & _ & _ & Hs5).
  destruct (missAov_events_silent aovs Haovs) as (_ & _ & _ & _ & Ha5).
  eexists. split; [exact Hrun|].
  rewrite !attempts_app. cbn zeta in *.
  rewrite Hh5, Hs5, buildEvents_attempts.
  assert (Hmissev : forall rads,
    visibilityAttempts (if decide (n = 0) then []
                        else aovs ++ [BvAddRadianceQueueEntries rads]) = []).
  { intros rads. case_decide; [done|]. by rewrite attempts_app, Ha5. }
  rewrite Hmissev. simpl. by rewrite !app_nil_r.
Qed.

(** X12.  With material ids of at least 1: when the cancellation check
    behind the miss run fires, the handler
    returns right after handing the radiances of the misses to the
    radiance queue: no ray state of the batch is freed and none is
    submitted for shading. *)
Theorem cancel_after_misses_frees_nothing (scratch : nat -> SortedEntry) (pool : Pool)
    (rayStates : list nat) :
  let pool' := volumeStage B rayStates (intersectionStage B rayStates pool) in
  isCanceled B AfterVolumes = false ->
  isCanceled B AfterMisses = true ->
  (exists p, p ∈ rayStates /\ isMiss pool' p = true) ->
  (forall p material, p ∈ rayStates -> geomID (mRay (pool' p)) <> (-1)%Z ->
     sortMaterial B (pool' p) = Some material -> 1 <= getMaterialId material) ->
  exists log rads,
    rayBundleHandler B bfs scratch pool rayStates = Some log /\
    last log = Some (BvAddRadianceQueueEntries rads) /\ rads <> [] /\
    freedRayStates log = [] /\ forwardedRayStates log = [] /\
    shadeSubmissions log = [].
Proof.
  intros pool' Hv Hm (p & Hp & Hmiss) Hid.
  assert (Hentry : mkSortedEntry 0 p None ∈ omap (sortedEntryFor B pool') rayStates).
  { apply list_elem_of_omap. exists p. split; [done|].
    unfold sortedEntryFor. unfold isMiss in Hmiss.
    apply bool_decide_eq_true_1 in Hmiss. by rewrite decide_True. }
  destruct (rayBundleHandler_front B bfs scratch pool rayStates Hv)
    as (sorted & rest & n & aovs & Hsp & Hss & Hn & Hlen & Hzero & Hnonzero & Haovs & Hrun).
  { intros ->. by apply elem_of_nil in Hp. }
  { left. intros Hnil. fold pool' in Hnil. rewrite Hnil in Hentry.
    by apply elem_of_nil in Hentry. }
  { exact Hid. }
  fold pool' in Hsp, Hrun. cbn zeta in Hrun.
  rewrite <- Hsp in Hentry.
  assert (Hin : mkSortedEntry 0 p None ∈ take n sorted).
  { rewrite <- (take_drop n sorted) in Hentry.
    apply elem_of_app in Hentry as [?|Hd]; [done|].
    rewrite Forall_forall in Hnonzero. by destruct (Hnonzero _ Hd). }
  assert (Hn0 : n <> 0).
  { intros ->. rewrite take_0 in Hin. by apply elem_of_nil in Hin. }
  rewrite Hm, bool_decide_eq_false_2, decide_False in Hrun by done.
  simpl in Hrun.
  destruct (heatMap_silent (F := F) bfs) as (Hh1 & Hh2 & Hh3 & _).
  destruct (buildEvents_silent B bfs pool' rayStates) as (Hb1 & Hb2 & Hb3).
  destruct (missAov_events_silent aovs Haovs) as (Ha1 & Ha2 & Ha3 & _).
  eexists. eexists. split; [exact Hrun|].
  split; [by rewrite !app_assoc, last_snoc|].
  split.
  { intros Hnil. apply (f_equal length) in Hnil. rewrite length_map in Hnil.
    simpl in Hnil. apply length_zero_iff_nil in Hnil. rewrite Hnil in Hin.
    by apply elem_of_nil in Hin. }
  rewrite !freed_app, !forwarded_app, !shadeSubmissions_app. cbn zeta in *.
  by rewrite Hh1, Hh2, Hh3, Hb1, Hb2, Hb3, Ha1, Ha2, Ha3.
Qed.

End BundleExtras.

Section ShadeKey.
Context {F : Type} {FO : FloatOps F}.

Lemma lor_shiftl_add (a b n : Z) :
  (0 <= n)%Z -> (0 <= b < 2 ^ n)%Z ->
  Z.lor (Z.shiftl a n) b = (a * 2 ^ n + b)%Z.
Proof.
  intros Hn Hb.
  assert (Hdisj : Z.land (Z.shiftl a n) b = 0%Z).
  { apply Z.bits_inj'. intros i Hi. rewrite Z.land_spec, Z.bits_0.
    destruct (Z.ltb_spec i n) as [Hlt|Hge].
    - rewrite Z.shiftl_spec_low by done. done.
    - destruct (Z.eq_dec b 0%Z) as [->|Hb0]; [by rewrite Z.bits_0, andb_false_r|].
      rewrite (Z.bits_above_log2 b i), andb_false_r; [done|lia|].
      apply Z.log2_lt_pow2; [lia|]. 
      eapply Z.lt_le_trans; [apply Hb|]. apply Z.pow_le_mono_r; lia. }
  rewrite <- Z.lxor_lor by done. rewrite <- Z.add_nocarry_lxor by done.
  by rewrite Z.shiftl_mul_pow2.
Qed.

Lemma land_ones_range (x n : Z) :
  (0 <= n)%Z -> (0 <= Z.land x (Z.ones n) < 2 ^ n)%Z.
Proof.
  intros Hn. rewrite Z.land_ones by done. apply Z.mod_pos_bound. lia.
Qed.

(** X13.  The sort key of a shade queue entry is an unsigned 32-bit value whose
    upper 12 bits are the low 12 bits of the geometry id and whose lower
    20 bits are the low 20 bits of the primitive id; so the entries of a
    submission order first by (masked) geometry and then by (masked)
    primitive. *)
Theorem shade_sort_key_geometry_then_primitive (pool : @Pool F) (e1 e2 : SortedEntry) :
  let geom e := Z.land (geomID (mRay (pool (mRsIdx e)))) 4095 in
  let prim e := Z.land (primID (mRay (pool (mRsIdx e)))) 1048575 in
  let key e := srsSortKey (mkShadeEntry pool e) in
  (0 <= key e1 < 2 ^ 32)%Z /\
  Z.shiftr (key e1) 20 = geom e1 /\
  Z.land (key e1) 1048575 = prim e1 /\
  ((key e1 < key e2)%Z <->
     (geom e1 < geom e2)%Z \/ (geom e1 = geom e2 /\ (prim e1 < prim e2)%Z)).
Proof.
  intros geom prim key.
  assert (Hg : forall e, (0 <= geom e < 2 ^ 12)%Z).
  { intros e. apply (land_ones_range _ 12). lia. }
  assert (Hp : forall e, (0 <= prim e < 2 ^ 20)%Z).
  { intros e. apply (land_ones_range _ 20). lia. }
  assert (Hkey : forall e, key e = (geom e * 2 ^ 20 + prim e)%Z).
  { intros e. unfold key, mkShadeEntry. cbn [srsSortKey].
    apply lor_shiftl_add; [lia|apply Hp]. }
  pose proof (Hg e1) as Hg1. pose proof (Hg e2) as Hg2.
  pose proof (Hp e1) as Hp1. pose proof (Hp e2) as Hp2.
  rewrite !Hkey.
  split; [lia|]. split.
  { rewrite Z.shiftr_div_pow2 by lia.
    rewrite Z.div_add_l by lia. rewrite Z.div_small by lia. lia. }
  split.
  { change 1048575%Z with (Z.ones 20). rewrite Z.land_ones by lia.
    rewrite Z.add_comm, Z.mod_add by lia. apply Z.mod_small. apply Hp. }
  lia.
Qed.

End ShadeKey.



(** * The handlers on the sample scenes *)

(** C8, as stated, fails: two no-op rays leave the partition in the
    opposite order. *)
Lemma partition_not_stable :
  exists n m' entries',
    computeOcclusionQueriesBundled (sampleScene false 0%Q sWhite 0%Q) shadowingOn
      [noOpA; noOpB; standardC] (allocResults 3 []) = Some (n, m', entries') /\
    filter (fun r => mOcclTestType r = FORCE_NOT_OCCLUDED) [noOpA; noOpB; standardC]
      = [noOpA; noOpB] /\
    filter (fun r => mOcclTestType r = FORCE_NOT_OCCLUDED) entries' = [noOpB; noOpA] /\
    filter (fun r => mOcclTestType r = FORCE_NOT_OCCLUDED) entries'
      <> filter (fun r => mOcclTestType r = FORCE_NOT_OCCLUDED) [noOpA; noOpB; standardC].
Proof.
  eexists _, _, _. split; [vm_compute; reflexivity|].
  split; [reflexivity|]. split; [reflexivity|]. discriminate.
Qed.

(** C2: the CPU resolver releases the three handles of the ray; the GPU
    resolver leaves the cryptomatte data unreleased, the presence resolver
    the deep data. *)
Lemma gpu_and_presence_resolvers_skip_a_release :
  (exists n m e,
     computeOcclusionQueriesBundled (sampleScene false 0%Q sWhite 0%Q) shadowingOn
       [standardWithHandles] (allocResults 1 []) = Some (n, m, e) /\
     freedLists (mLog m) = [handle 1] /\
     releasedDeepData (mLog m) = [handle 2] /\
     releasedCryptomatteData (mLog m) = [handle 3]) /\
  (exists n m,
     computeXPUOcclusionQueriesOnGPU (sampleScene false 0%Q sWhite 0%Q) shadowingOn
       [standardWithHandles] (allocResults 1 []) = Some (n, m) /\
     freedLists (mLog m) = [handle 1] /\
     releasedDeepData (mLog m) = [handle 2] /\
     releasedCryptomatteData (mLog m) = []) /\
  (exists n m,
     computePresenceShadowsQueriesBundled (sampleScene false 0%Q sWhite 0%Q) shadowingOn
       [standardWithHandles] (allocResults 1 []) = Some (n, m) /\
     freedLists (mLog m) = [handle 1] /\
     releasedDeepData (mLog m) = [] /\
     releasedCryptomatteData (mLog m) = [handle 3]).
Proof.
  split; [|split].
  - eexists _, _, _. split; [vm_compute; reflexivity|]. done.
  - eexists _, _. split; [vm_compute; reflexivity|]. done.
  - eexists _, _. split; [vm_compute; reflexivity|]. done.
Qed.

(** C3: on one occluded [STANDARD] ray inside the clear-radius falloff the
    two back ends fill the same radiance and make the same accounting
    calls, but only the CPU resolver releases the cryptomatte data. *)
Lemma gpu_cpu_release_discipline_differs :
  exists n m1 e m2,
    computeOcclusionQueriesBundled (sampleScene true 0%Q sWhite 1%Q) shadowingOn
      [standardWithHandles] (allocResults 1 []) = Some (n, m1, e) /\
    computeXPUOcclusionQueriesOnGPU (sampleScene true 0%Q sWhite 1%Q) shadowingOn
      [standardWithHandles] (allocResults 1 []) = Some (n, m2) /\
    n = 1 /\
    mResults m1 = mResults m2 /\
    accountingTrace (mLog m1) = accountingTrace (mLog m2) /\
    releasedCryptomatteData (mLog m1) = [handle 3] /\
    releasedCryptomatteData (mLog m2) = [] /\
    releasedCryptomatteData (mLog m1) <> releasedCryptomatteData (mLog m2).
Proof.
  eexists _, _, _, _. split; [vm_compute; reflexivity|].
  split; [vm_compute; reflexivity|]. done.
Qed.



(** C7, as stated, fails.  With shadowing disabled an occluded ray outside
    any falloff still has its radiance emitted, and no occluded-visibility
    call is made; with shadowing enabled but no side-data list, no
    occluded-visibility call is made either; and inside the falloff the
    radiance emitted is what [calculateShadowFalloff] returns, which for a
    falloff that scales its colour argument is (0,0,0) when the ray
    carries none. *)
Lemma occluded_ray_shadowing_disabled :
  accelOccluded (sampleScene true 0%Q sWhite 0%Q)
    (mkOcclusionRtRay (sampleScene true 0%Q sWhite 0%Q) standardWithHandles) = true /\
  insideClearRadiusFalloff (sampleLight 0%Q) standardWithHandles = false /\
  (exists m,
     areSingleRaysOccluded (sampleScene true 0%Q sWhite 0%Q) shadowingOff 0
       [standardWithHandles] (allocResults 1 []) = Some (1, m) /\
     (exists res, mResults m = [Some res]) /\
     Forall (fun e => match e with EvAccumVisibilityAovsOccluded _ _ => False | _ => True end)
       (mLog m)) /\
  (exists m,
     computeXPUOcclusionQueriesOnGPU (sampleScene true 0%Q sWhite 0%Q) shadowingOn
       [standardWithoutList] (allocResults 1 []) = Some (0, m) /\
     Forall (fun e => match e with EvAccumVisibilityAovsOccluded _ _ => False | _ => True end)
       (mLog m)) /\
  (insideClearRadiusFalloff (sampleLight 1%Q) standardBlack = true /\
   exists m res,
     areSingleRaysOccluded (sampleScene true 0%Q sWhite 1%Q) shadowingOn 0
       [standardBlack] (allocResults 1 []) = Some (1, m) /\
     mResults m = [Some res] /\
     brRadiance res = mkRenderColor 0%Q 0%Q 0%Q 0%Q).
Proof.
  split; [reflexivity|]. split; [reflexivity|]. split; [|split].
  - eexists. split; [vm_compute; reflexivity|]. split; [by eexists|].
    repeat constructor.
  - eexists. split; [vm_compute; reflexivity|]. repeat constructor.
  - split; [reflexivity|]. eexists _, _. split; [vm_compute; reflexivity|].
    split; reflexivity.
Qed.

(** C7 on two samples, radiance (1/2, 1/4, 1), transmittance
    (1/2, 1/4, 1), light with clear radius 2 and falloff distance 1,
    ray length 5/2, reported occluded.  With shadowing enabled the
    radiance filled is the falloff (here one half) of transmittance times
    radiance, and the occluded-visibility call is made; with shadowing
    disabled it is radiance times transmittance, with the unoccluded
    accounting. *)
Lemma occluded_ray_clear_radius_falloff_witness :
  (exists m1 m2 occl,
     areSingleRaysOccluded_body (sampleScene true 0%Q (mkColor (1 # 2) (1 # 4) 1)%Q 1%Q)
       shadowingOn 0 0 standardWithHandles (0, allocResults 1 []) = Some (1, m1) /\
     computeXPUOcclusionQueriesOnGPU_body
       (sampleScene true 0%Q (mkColor (1 # 2) (1 # 4) 1)%Q 1%Q) shadowingOn
       (fun _ => true) 0 standardWithHandles (0, allocResults 1 []) = Some (1, m2) /\
     mResults m1
       = [Some (mkBundledRadiance (mkRenderColor (1 # 8)%Q (1 # 32)%Q (1 # 2)%Q 0%Q)
                  0%Q 4 0%Z (handle 2) (handle 3))] /\
     mResults m2 = mResults m1 /\
     mRadiance occl = mkColor (1 # 8)%Q (1 # 32)%Q (1 # 2)%Q /\
     mLog m2 = [EvAccumVisibilityAovsOccluded occl 1%Z; EvFreeList (handle 1);
                EvReleaseDeepData (handle 2)]) /\
  (exists m1 m2 occl,
     areSingleRaysOccluded_body (sampleScene true 0%Q (mkColor (1 # 2) (1 # 4) 1)%Q 1%Q)
       shadowingOff 0 0 standardWithHandles (0, allocResults 1 []) = Some (1, m1) /\
     computeXPUOcclusionQueriesOnGPU_body
       (sampleScene true 0%Q (mkColor (1 # 2) (1 # 4) 1)%Q 1%Q) shadowingOff
       (fun _ => true) 0 standardWithHandles (0, allocResults 1 []) = Some (1, m2) /\
     mResults m1
       = [Some (mkBundledRadiance (mkRenderColor (1 # 4)%Q (1 # 16)%Q 1%Q 0%Q)
                  0%Q 4 0%Z (handle 2) (handle 3))] /\
     mResults m2 = mResults m1 /\
     mRadiance occl = mkColor (1 # 4)%Q (1 # 16)%Q 1%Q /\
     mLog m2 = [EvAccumLightAovs occl 1%Z (mkColor 1%Q 1%Q 1%Q)
                  (Some (mkColor (1 # 2) (1 # 4) 1)%Q) sLpePrefixUnoccluded;
                EvAccumVisibilityAovs occl 1%Z (7 # 12)%Q; EvFreeList (handle 1);
                EvReleaseDeepData (handle 2)]).
Proof.
  split.
  - destruct (occluded_ray_clear_radius_falloff
                (sampleScene true 0%Q (mkColor (1 # 2) (1 # 4) 1)%Q 1%Q)
                shadowingOn (fun _ => true) 0 standardWithHandles 0 (allocResults 1 [])
                eq_refl eq_refl ltac:(simpl; lia))
      as (n' & m1 & m2 & accounting & H1 & H2 & Hsame & _ & Hlog2 & Hcase).
    cbn in Hcase. destruct Hcase as (-> & Hres & ->).
    eexists m1, m2, _. split; [exact H1|]. split; [exact H2|].
    split; [rewrite Hres; reflexivity|]. split; [by rewrite Hsame|].
    split; [|rewrite Hlog2; reflexivity]. reflexivity.
  - destruct (occluded_ray_clear_radius_falloff
                (sampleScene true 0%Q (mkColor (1 # 2) (1 # 4) 1)%Q 1%Q)
                shadowingOff (fun _ => true) 0 standardWithHandles 0 (allocResults 1 [])
                eq_refl eq_refl ltac:(simpl; lia))
      as (n' & m1 & m2 & accounting & H1 & H2 & Hsame & _ & Hlog2 & Hcase).
    cbn in Hcase. destruct Hcase as (-> & Hres & ->).
    eexists m1, m2, _. split; [exact H1|]. split; [exact H2|].
    split; [rewrite Hres; reflexivity|]. split; [by rewrite Hsame|].
    split; [|rewrite Hlog2; reflexivity]. reflexivity.
Defined.

(** C1: a batch in which every ray hits geometry without material keeps
    no entry for sorting, and the handler then reads the first slot of
    [sortedEntries] although it was never written.  When the arena left a
    miss entry there, the handler takes the stale slots for a miss run and
    leaves its allocations; with other stale contents the same batch is
    released as intended. *)
Lemma unshaded_batch_reads_stale_sort_entry :
  (exists st,
     buildSortedEntries (sampleBundleScene noVolume None) withAovs staleMisses
       (samplePool 0 [9; 9]%Z) [0; 1] [] = Some st /\
     numSortedEntries st = 0 /\
     rayStatesToFree st = [0; 1] /\
     sortedEntries st = [staleMisses 0; staleMisses 1]) /\
  rayBundleHandler (sampleBundleScene noVolume None) withAovs staleMisses
    (samplePool 0 [9; 9]%Z) [0; 1] = None /\
  rayBundleHandler (sampleBundleScene noVolume None) withAovs staleMisses
    (samplePool 0 [9]%Z) [0] = None /\
  rayBundleHandler (sampleBundleScene noVolume None) withAovs staleHits
    (samplePool 0 [9; 9]%Z) [0; 1] = Some [BvFreeRayStates [0; 1]].
Proof.
  split; [|split; [|split]]; try (vm_compute; reflexivity).
  eexists. split; [vm_compute; reflexivity|]. done.
Qed.

(** C9: a primary ray that misses all geometry and hits a visible light,
    with light path expression state 0 and AOVs active, is retired without
    a light event transition and without a light AOV accumulation. *)
Lemma primary_miss_on_light_skips_light_aovs :
  getDepth (mRay (samplePool 0 [-1]%Z 0)) = 0%Z /\
  lpeStateId (mPathVertex (samplePool 0 [-1]%Z 0)) = 0%Z /\
  intersectVisibleLight (sampleBundleScene noVolume (Some (sampleLight 0%Q, 0, 1%Z)))
    (samplePool 0 [-1]%Z 0) = Some (sampleLight 0%Q, 0, 1%Z) /\
  aovSchemaEmpty withAovs = false /\
  exists rad,
    rayBundleHandler (sampleBundleScene noVolume (Some (sampleLight 0%Q, 0, 1%Z)))
      withAovs staleHits (samplePool 0 [-1]%Z) [0]
    = Some [BvAccumVisibilityAttempts 6 0 nullHandle;
            BvAccumBackgroundExtraAovs 0;
            BvAddRadianceQueueEntries [rad];
            BvFreeRayStates [0]] /\
    brRadiance rad = mkRenderColor 2%Q 2%Q 2%Q 0%Q.
Proof.
  split; [reflexivity|]. split; [reflexivity|]. split; [reflexivity|].
  split; [reflexivity|]. eexists. split; [vm_compute; reflexivity|]. reflexivity.
Qed.

(** C5, as stated, fails: a secondary ray (depth 1) that misses all
    geometry after crossing a volume is retired with alpha 0, not with
    pixel weight times (1 - reduced volume alpha transmittance), which is 1
    here. *)
Lemma secondary_miss_through_volume_has_alpha_zero :
  exists rad,
    rayBundleHandler (sampleBundleScene denseVolume None) withoutAovs staleHits
      (samplePool 1 [-1]%Z) [0]
    = Some [BvAddRadianceQueueEntries [rad]; BvFreeRayStates [0]] /\
    mVolHit (volumeRayState (sampleBundleScene denseVolume None) (samplePool 1 [-1]%Z 0))
      = true /\
    ra (brRadiance rad) = 0%Q /\
    fmul (pathPixelWeight (mPathVertex (samplePool 1 [-1]%Z 0)))
         (fsub fone (bcReduceTransparency (sampleBundleScene denseVolume None)
                       (vrTransmittanceAlpha denseVolume))) = 1%Q /\
    ra (brRadiance rad)
      <> fmul (pathPixelWeight (mPathVertex (samplePool 1 [-1]%Z 0)))
              (fsub fone (bcReduceTransparency (sampleBundleScene denseVolume None)
                            (vrTransmittanceAlpha denseVolume))).
Proof.
  eexists. split; [vm_compute; reflexivity|]. split; [reflexivity|].
  split; [reflexivity|]. split; [reflexivity|]. discriminate.
Qed.

(** C5 on a sample: a primary miss without light and without volume. *)
Lemma miss_alpha_policy_witness :
  brRadiance (missBundledRadiance (sampleBundleScene noVolume None)
                (volumeRayState (sampleBundleScene noVolume None)
                   (samplePool 0 [-1]%Z 0)))
    = mkRenderColor 0%Q 0%Q 0%Q 0%Q.
Proof.
  exact (proj2 (proj2 (miss_alpha_policy (sampleBundleScene noVolume None)
                         (volumeRayState (sampleBundleScene noVolume None)
                            (samplePool 0 [-1]%Z 0))))
           eq_refl eq_refl eq_refl eq_refl).
Defined.

(** C4 on the batch with keys 0,0,3,1,0,3,1: the loop gets through, the
    sorted entries are ascending with the misses 0, 1, 4 in front, then
    the hits 3, 6 on material 1 and the hits 2, 5 on material 3. *)
Lemma material_sort_grouping_witness :
  exists st,
    buildSortedEntries (sampleBundleScene noVolume None) withAovs staleHits
      (samplePool 0 [-1; -1; 3; 1; -1; 3; 1]%Z) (seq 0 7) [] = Some st /\
    sortedByKey
      (take (numSortedEntries st)
         (smartSort32 (numSortedEntries st) (sortedEntries st) (maxSortKey st))) /\
    map mRsIdx (take (numSortedEntries st) (sortedEntries st)) = [0; 1; 2; 3; 4; 5; 6] /\
    map mSortKey
      (take (numSortedEntries st)
         (smartSort32 (numSortedEntries st) (sortedEntries st) (maxSortKey st)))
      = [0; 0; 0; 1; 1; 3; 3] /\
    map mRsIdx
      (take (numSortedEntries st)
         (smartSort32 (numSortedEntries st) (sortedEntries st) (maxSortKey st)))
      = [0; 1; 4; 3; 6; 2; 5].
Proof.
  destruct (material_sort_grouping (sampleBundleScene noVolume None) withAovs staleHits
              (samplePool 0 [-1; -1; 3; 1; -1; 3; 1]%Z) (seq 0 7) [])
    as [Hreturns Hsorted].
  destruct (proj2 Hreturns) as [st Hst].
  - intros p material Hp Hhit Hm. apply elem_of_seq in Hp.
    do 7 (destruct p as [|p];
          [first [ exfalso; apply Hhit; reflexivity
                 | vm_compute in Hm; injection Hm as <-; simpl; lia ]|]).
    lia.
  - exists st. split; [exact Hst|].
    destruct (Hsorted st Hst) as (Horder & _ & _ & Hascending & _).
    split; [exact Hascending|]. split; [rewrite Horder; reflexivity|].
    assert (Hc : buildSortedEntries (sampleBundleScene noVolume None) withAovs staleHits
                   (samplePool 0 [-1; -1; 3; 1; -1; 3; 1]%Z) (seq 0 7) []
                 = Some (mkSortState
                     [mkSortedEntry 0 0 None; mkSortedEntry 0 1 None;
                      mkSortedEntry 3 2 (Some (mkMaterial 3 30));
                      mkSortedEntry 1 3 (Some (mkMaterial 1 10));
                      mkSortedEntry 0 4 None;
                      mkSortedEntry 3 5 (Some (mkMaterial 3 30));
                      mkSortedEntry 1 6 (Some (mkMaterial 1 10))]
                     7 3 []
                     [BvAccumVisibilityAttempts 6 0 nullHandle;
                      BvAccumVisibilityAttempts 6 1 nullHandle;
                      BvAccumVisibilityAttempts 6 4 nullHandle]))
      by (vm_compute; reflexivity).
    rewrite Hc in Hst. injection Hst as <-. split; reflexivity.
Defined.

(** ** Evaluations of the further properties *)

Lemma gpu_matches_cpu_on_partitioned_batch_witness :
  sameOutcome
    (fmap fst (computeOcclusionQueriesBundled
       (sampleScene true 0%Q sWhite 1%Q) shadowingOn
       [noOpA; standardWithHandles; noOpB; standardC] (allocResults 4 [])))
    (computeXPUOcclusionQueriesOnGPU (sampleScene true 0%Q sWhite 1%Q) shadowingOn
       (std_partition isStandard [noOpA; standardWithHandles; noOpB; standardC]).1
       (allocResults 4 [])).
Proof.
  apply (gpu_matches_cpu_on_partitioned_batch (sampleScene true 0%Q sWhite 1%Q)
           shadowingOn [noOpA; standardWithHandles; noOpB; standardC] (allocResults 4 [])).
  intros j ray _ _. reflexivity.
Defined.

Lemma forced_batch_is_emitted_unconditionally_witness :
  (exists m,
     occlusionQueryBundleHandler (sampleScene true 0%Q (mkColor (1 # 2) (1 # 4) 1)%Q 1%Q)
       shadowingOn false [noOpA; forcedWithHandles] []
       = Some (2, m) /\
     mResults m
       = [Some (mkBundledRadiance (mkRenderColor (1 # 2)%Q (1 # 4)%Q 1%Q 0%Q)
                  0%Q 1 0%Z nullHandle nullHandle);
          Some (mkBundledRadiance (mkRenderColor (1 # 4)%Q (1 # 16)%Q 1%Q 0%Q)
                  0%Q 4 0%Z (handle 2) (handle 3))] /\
     queuedRadiances (mLog m)
       = [[mkBundledRadiance (mkRenderColor (1 # 2)%Q (1 # 4)%Q 1%Q 0%Q)
             0%Q 1 0%Z nullHandle nullHandle;
           mkBundledRadiance (mkRenderColor (1 # 4)%Q (1 # 16)%Q 1%Q 0%Q)
             0%Q 4 0%Z (handle 2) (handle 3)]] /\
     occlusionTests (mLog m) = []) /\
  (exists m,
     occlusionQueryBundleHandler (sampleScene true 0%Q (mkColor (1 # 2) (1 # 4) 1)%Q 1%Q)
       shadowingOn true [noOpA; forcedWithHandles] []
       = Some (2, m) /\
     queuedRadiances (mLog m) = [] /\
     occlusionTests (mLog m) = []).
Proof.
  split.
  - destruct (forced_batch_is_emitted_unconditionally
                (sampleScene true 0%Q (mkColor (1 # 2) (1 # 4) 1)%Q 1%Q) shadowingOn
                false [noOpA; forcedWithHandles] [])
      as (m & Hrun & Hres & Hq & Ht).
    { repeat constructor. }
    exists m. split; [exact Hrun|]. split; [rewrite Hres; reflexivity|].
    split; [rewrite Hq; reflexivity|exact Ht].
  - destruct (forced_batch_is_emitted_unconditionally
                (sampleScene true 0%Q (mkColor (1 # 2) (1 # 4) 1)%Q 1%Q) shadowingOn
                true [noOpA; forcedWithHandles] [])
      as (m & Hrun & Hres & Hq & Ht).
    { repeat constructor. }
    exists m. split; [exact Hrun|]. split; [exact Hq|exact Ht].
Defined.

Lemma ray_states_exit_by_kind_witness :
  exists log,
    rayBundleHandler (sampleBundleScene noVolume None) withAovs staleMisses
      samplePrimaryBatch (seq 0 7) = Some log /\
    freedRayStates log
      ≡ₚ filter (fun p => isShaded (sampleBundleScene noVolume None)
                            (volumeStage (sampleBundleScene noVolume None) (seq 0 7)
                               (intersectionStage (sampleBundleScene noVolume None)
                                  (seq 0 7) samplePrimaryBatch)) p = false) (seq 0 7) /\
    forwardedRayStates log
      ≡ₚ filter (fun p => isShaded (sampleBundleScene noVolume None)
                            (volumeStage (sampleBundleScene noVolume None) (seq 0 7)
                               (intersectionStage (sampleBundleScene noVolume None)
                                  (seq 0 7) samplePrimaryBatch)) p = true) (seq 0 7).
Proof.
  apply (ray_states_exit_by_kind (sampleBundleScene noVolume None) withAovs staleMisses
           samplePrimaryBatch (seq 0 7)).
  - intros c. reflexivity.
  - discriminate.
  - left. vm_compute. discriminate.
  - intros p material Hp Hhit Hm. apply elem_of_seq in Hp.
    do 7 (destruct p as [|p];
          [first [ exfalso; apply Hhit; reflexivity
                 | vm_compute in Hm;
                   first [ discriminate Hm | injection Hm as <-; simpl; lia ] ]|]).
    lia.
Defined.

Lemma shade_submissions_one_per_material_witness :
  exists log runs,
    rayBundleHandler (sampleBundleScene noVolume None) withAovs staleMisses
      samplePrimaryBatch (seq 0 7) = Some log /\
    concat runs
      ≡ₚ filter (fun e => mSortKey e <> 0)
           (omap (sortedEntryFor (sampleBundleScene noVolume None)
                    (volumeStage (sampleBundleScene noVolume None) (seq 0 7)
                       (intersectionStage (sampleBundleScene noVolume None)
                          (seq 0 7) samplePrimaryBatch))) (seq 0 7)) /\
    Forall isKeyRun runs /\ StronglySorted runBefore runs /\
    Forall2 (fun run s =>
               submission (volumeStage (sampleBundleScene noVolume None) (seq 0 7)
                             (intersectionStage (sampleBundleScene noVolume None)
                                (seq 0 7) samplePrimaryBatch)) run = Some s)
      runs (shadeSubmissions log).
Proof.
  apply (shade_submissions_one_per_material (sampleBundleScene noVolume None) withAovs
           staleMisses samplePrimaryBatch (seq 0 7)).
  - intros c. reflexivity.
  - discriminate.
  - left. vm_compute. discriminate.
  - intros p material Hp Hhit Hm. apply elem_of_seq in Hp.
    do 7 (destruct p as [|p];
          [first [ exfalso; apply Hhit; reflexivity
                 | vm_compute in Hm;
                   first [ discriminate Hm | injection Hm as <-; simpl; lia ] ]|]).
    lia.
Defined.

Lemma bundle_radiances_queued_witness :
  exists log misses,
    rayBundleHandler (sampleBundleScene denseVolume None) withAovs staleMisses
      samplePrimaryBatch (seq 0 7) = Some log /\
    misses
      ≡ₚ filter (fun p => isMiss
                            (volumeStage (sampleBundleScene denseVolume None) (seq 0 7)
                               (intersectionStage (sampleBundleScene denseVolume None)
                                  (seq 0 7) samplePrimaryBatch)) p = true) (seq 0 7) /\
    queuedBundleRadiances log
      = map (fun p => [nullMaterialRadiance (sampleBundleScene denseVolume None)
                         (volumeStage (sampleBundleScene denseVolume None) (seq 0 7)
                            (intersectionStage (sampleBundleScene denseVolume None)
                               (seq 0 7) samplePrimaryBatch) p)])
          (filter (fun p =>
                     isMiss (volumeStage (sampleBundleScene denseVolume None) (seq 0 7)
                               (intersectionStage (sampleBundleScene denseVolume None)
                                  (seq 0 7) samplePrimaryBatch)) p = false /\
                     isShaded (sampleBundleScene denseVolume None)
                       (volumeStage (sampleBundleScene denseVolume None) (seq 0 7)
                          (intersectionStage (sampleBundleScene denseVolume None)
                             (seq 0 7) samplePrimaryBatch)) p = false /\
                     mVolHit (volumeStage (sampleBundleScene denseVolume None) (seq 0 7)
                                (intersectionStage (sampleBundleScene denseVolume None)
                                   (seq 0 7) samplePrimaryBatch) p) = true) (seq 0 7))
        ++ (if decide (misses = []) then []
            else [map (fun p => missBundledRadiance (sampleBundleScene denseVolume None)
                                  (volumeStage (sampleBundleScene denseVolume None)
                                     (seq 0 7)
                                     (intersectionStage
                                        (sampleBundleScene denseVolume None)
                                        (seq 0 7) samplePrimaryBatch) p)) misses]).
Proof.
  apply (bundle_radiances_queued (sampleBundleScene denseVolume None) withAovs
           staleMisses samplePrimaryBatch (seq 0 7)).
  - intros c. reflexivity.
  - discriminate.
  - left. vm_compute. discriminate.
  - intros p material Hp Hhit Hm. apply elem_of_seq in Hp.
    do 7 (destruct p as [|p];
          [first [ exfalso; apply Hhit; reflexivity
                 | vm_compute in Hm;
                   first [ discriminate Hm | injection Hm as <-; simpl; lia ] ]|]).
    lia.
Defined.

Lemma visibility_attempts_for_primary_misses_witness :
  (exists log,
     rayBundleHandler (sampleBundleScene noVolume None) withAovs staleMisses
       samplePrimaryBatch (seq 0 7) = Some log /\
     visibilityAttempts log = [(6%Z, 0, nullHandle); (6%Z, 1, nullHandle)]) /\
  (exists log,
     rayBundleHandler (sampleBundleScene noVolume None) withManyLightSamples staleMisses
       samplePrimaryBatch (seq 0 7) = Some log /\
     visibilityAttempts log = [(0%Z, 0, nullHandle); (0%Z, 1, nullHandle)]).
Proof.
  split.
  - destruct (visibility_attempts_for_primary_misses (sampleBundleScene noVolume None)
                withAovs staleMisses samplePrimaryBatch (seq 0 7))
      as (log & Hrun & Hlog).
    + intros c. reflexivity.
    + discriminate.
    + left. vm_compute. discriminate.
    + intros p material Hp Hhit Hm. apply elem_of_seq in Hp.
      do 7 (destruct p as [|p];
            [first [ exfalso; apply Hhit; reflexivity
                   | vm_compute in Hm;
                     first [ discriminate Hm | injection Hm as <-; simpl; lia ] ]|]).
      lia.
    + exists log. split; [exact Hrun|]. rewrite Hlog. reflexivity.
  - destruct (visibility_attempts_for_primary_misses (sampleBundleScene noVolume None)
                withManyLightSamples staleMisses samplePrimaryBatch (seq 0 7))
      as (log & Hrun & Hlog).
    + intros c. reflexivity.
    + discriminate.
    + left. vm_compute. discriminate.
    + intros p material Hp Hhit Hm. apply elem_of_seq in Hp.
      do 7 (destruct p as [|p];
            [first [ exfalso; apply Hhit; reflexivity
                   | vm_compute in Hm;
                     first [ discriminate Hm | injection Hm as <-; simpl; lia ] ]|]).
      lia.
    + exists log. split; [exact Hrun|]. rewrite Hlog. reflexivity.
Defined.

Lemma cancel_after_misses_frees_nothing_witness :
  exists log rads,
    rayBundleHandler (sampleBundleSceneCancelled noVolume None) withAovs staleMisses
      samplePrimaryBatch (seq 0 7) = Some log /\
    last log = Some (BvAddRadianceQueueEntries rads) /\ rads <> [] /\
    freedRayStates log = [] /\ forwardedRayStates log = [] /\
    shadeSubmissions log = [].
Proof.
  apply (cancel_after_misses_frees_nothing (sampleBundleSceneCancelled noVolume None)
           withAovs staleMisses samplePrimaryBatch (seq 0 7)).
  - reflexivity.
  - reflexivity.
  - exists 0. split; [|reflexivity]. apply elem_of_seq. lia.
  - intros p material Hp Hhit Hm. apply elem_of_seq in Hp.
    do 7 (destruct p as [|p];
          [first [ exfalso; apply Hhit; reflexivity
                 | vm_compute in Hm;
                   first [ discriminate Hm | injection Hm as <-; simpl; lia ] ]|]).
    lia.
Defined.

